(** * SG2PL-Batchsync: security group to prefix list synchronisation

    A shallow embedding of [SG2PL-Batchsync.py] (the reconciliation pass run
    for one security group / prefix list / region triple) and the properties
    of it that the specification states.

    Python values are embedded as follows: [int] as [Z], [float] as the
    binary64 primitive floats, [str] as [string], [list] as [list], [set] as
    stdpp's [gset], the invocation [event] dict as a [gmap].  The boto3
    clients are an interface ([Remote]); the handler is written once for every
    implementation of it.  Effects (API calls, log lines, SNS messages,
    [sys.exit], exceptions) are explicit: a computation maps a remote state to
    an outcome, the remote state afterwards and the events it emitted. *)

From Stdlib Require Import ZArith Floats Ascii String.
From stdpp Require Import gmap strings list pretty.

#[local] Set Warnings "-clear-no-such-hyp,-inexact-float".

Local Open Scope string_scope.
Local Open Scope list_scope.
Local Open Scope Z_scope.

(** ** Python primitives *)

Module Py.

(** Exceptions the modelled code can raise by itself. *)
Inductive PyExn : Type :=
| IndexError
| ValueError
| ZeroDivisionError
| OverflowError
| UnboundLocalError.

(** How a call ends: it returns, the process exits through [sys.exit(1)], an
    exception propagates, or a polling loop outlives the fuel of the model. *)
Inductive outcome (A : Type) : Type :=
| Ret (a : A)
| SysExit
| Raised (e : PyExn)
| Timeout.

Arguments Ret {A} a.
Arguments SysExit {A}.
Arguments Raised {A} e.
Arguments Timeout {A}.

#[global] Instance PyExn_eq_dec : EqDecision PyExn.
Proof. solve_decision. Defined.

#[global] Instance outcome_eq_dec {A} `{EqDecision A} : EqDecision (outcome A).
Proof. solve_decision. Defined.

(** Sequencing of expressions that may raise. *)
Definition and_then {A B} (o : outcome A) (f : A -> outcome B) : outcome B :=
  match o with
  | Ret a => f a
  | SysExit => SysExit
  | Raised e => Raised e
  | Timeout => Timeout
  end.

(** [s.split(sep)] for a one-character separator. *)
Fixpoint str_split (sep : ascii) (s : string) : list string :=
  match s with
  | EmptyString => [EmptyString]
  | String c s' =>
      if Ascii.eqb c sep then EmptyString :: str_split sep s'
      else match str_split sep s' with
           | [] => [String c EmptyString]
           | h :: t => String c h :: t
           end
  end.

(** [l[i]] for a non-negative literal index. *)
Definition index {A} (l : list A) (i : nat) : outcome A :=
  match l !! i with
  | Some a => Ret a
  | None => Raised IndexError
  end.

(** [l[i:j]] for [0 <= i <= j]. *)
Definition slice {A} (l : list A) (i j : nat) : list A :=
  take (j - i) (drop i l).

(** [range(start, stop, step)] for a positive step. *)
Definition range (start stop step : nat) : list nat :=
  map (fun k => (start + k * step)%nat)
      (seq 0 ((stop - start + (step - 1)) `div` step)%nat).

(** ASCII white space, as [str.strip] and [int] see it. *)
Definition is_space (c : ascii) : bool :=
  let n := nat_of_ascii c in
  ((n =? 32) || ((9 <=? n) && (n <=? 13)) || ((28 <=? n) && (n <=? 31)))%nat.

Fixpoint lstrip (s : string) : string :=
  match s with
  | String c s' => if is_space c then lstrip s' else s
  | EmptyString => s
  end.

Definition strip (s : string) : string :=
  String.rev (lstrip (String.rev (lstrip s))).

Definition digit_of (c : ascii) : option Z :=
  let n := Z.of_nat (nat_of_ascii c) in
  if (48 <=? n) && (n <=? 57) then Some (n - 48) else None.

(** Decimal digits, single underscores allowed between two digits. *)
Fixpoint digits (acc : Z) (after_digit : bool) (s : string) : option Z :=
  match s with
  | EmptyString => if after_digit then Some acc else None
  | String c s' =>
      match digit_of c with
      | Some d => digits (10 * acc + d) true s'
      | None =>
          if Ascii.eqb c "_" && after_digit then digits acc false s' else None
      end
  end.

(** [int(s)] on an ASCII string, base 10. *)
Definition int (s : string) : outcome Z :=
  let body :=
    match strip s with
    | String "+" r => digits 0 false r
    | String "-" r => Z.opp <$> digits 0 false r
    | r => digits 0 false r
    end in
  match body with
  | Some z => Ret z
  | None => Raised ValueError
  end.

(** [float(n)] for an [int]: nearest binary64, ties to even; an [int] beyond
    the range of the format does not convert. *)
Definition float_of_int (n : Z) : outcome float :=
  let f := SF2Prim (binary_normalize prec emax n 0 false) in
  if PrimFloat.is_infinity f then Raised OverflowError else Ret f.

(** [x / y] on floats. *)
Definition float_div (x y : float) : outcome float :=
  if PrimFloat.is_zero y then Raised ZeroDivisionError
  else Ret (PrimFloat.div x y).

(** [math.ceil(x)]. *)
Definition ceil (x : float) : outcome Z :=
  match Prim2SF x with
  | S754_zero _ => Ret 0
  | S754_finite s m e =>
      let n := Z.pos m in
      let q := if 0 <=? e then Z.shiftl n e else Z.shiftr n (- e) in
      let exact := if 0 <=? e then true else Z.land n (Z.ones (- e)) =? 0 in
      Ret (if s then - q else if exact then q else q + 1)
  | S754_infinity _ => Raised OverflowError
  | S754_nan => Raised ValueError
  end.

(** Truth value of what a function returns when it may fall off its end:
    [None] is Python's [None]. *)
Definition truthy (v : option bool) : bool :=
  match v with
  | Some b => b
  | None => false
  end.

End Py.

Import Py.


(** ** The remote services *)

(** What [describe_managed_prefix_lists] reports for one prefix list:
    [PrefixLists[0]] with the fields the code reads. *)
Record PrefixListInfo : Type := {
  MaxEntries : Z;
  Version : Z;
  State : string;
  StateMessage : string;
}.

(** The keyword arguments of one [modify_managed_prefix_list] call.  An
    argument the call site does not pass is [None]; entries are the [Cidr]
    strings of the dicts passed. *)
Record ModifyRequest : Type := {
  PrefixListId : string;
  CurrentVersion : option Z;
  AddEntries : option (list string);
  RemoveEntries : option (list string);
  NewMaxEntries : option Z;
}.

(** The boto3 clients the module talks to, over a remote state [W].  Reads do
    not change the remote state; [time.sleep(1)] lets it move on; a modify
    call either raises ([None]) or answers with [PrefixList.Version].  The
    quota ([Quota.Value]) is a whole number, as the annotation of
    [pl_resize] has it. *)
Class Remote (W : Type) : Type := {
  describe_network_interfaces : W -> string -> list string;
  get_managed_prefix_list_entries : W -> string -> list string;
  describe_managed_prefix_lists : W -> string -> PrefixListInfo;
  get_service_quota : W -> Z;
  modify_managed_prefix_list : W -> ModifyRequest -> option Z * W;
  sleep : W -> W;
}.

(** The environment variables read by the module. *)
Record Config : Type := {
  log_level : Z;
  security_group_quota_padding_percentage : Z;
}.

(** The text of every log line of the module, by call site, with the values
    it interpolates. *)
Inductive Message : Type :=
| MsgQuotaResult (q : Z)
| MsgIpsInSg (l : list string)
| MsgIpsInPl (l : list string)
| MsgDescribeResult (info : PrefixListInfo)
| MsgTryingToRemove (entries : list string) (pl : string) (version : Z)
| MsgPaginatedRemove (pages : list (list string)) (pl : string) (version : Z)
| MsgRemoveFailed (pl : string)
| MsgTryingToAdd (entries : list string) (pl : string) (version : Z)
| MsgPaginatedAdd (pages : list (list string)) (pl : string) (version : Z)
| MsgAddFailed (pl : string)
| MsgModifyResult (version : Z)
| MsgBulkAdd (entries : list string) (pl : string) (version : Z)
| MsgBulkRemove (entries : list string) (pl : string) (version : Z)
| MsgUpdateFailed (pl : string)
| MsgReadyProbe (info : PrefixListInfo)
| MsgCreating (pl : string)
| MsgCreateFailed (pl : string)
| MsgModifyFailed (pl : string) (reason : string)
| MsgRestoreFailed (pl : string)
| MsgDeleting (pl : string)
| MsgDeleted (pl : string)
| MsgDeleteFailed (pl : string)
| MsgUnknownState (pl : string) (state : string)
| MsgResizeClipped (pl : string) (newmaxent : Z)
| MsgResizeResult (version : Z)
| MsgResizeFailed (pl : string)
| MsgSgCalled (sg : string)
| MsgNoSg
| MsgPlCalled (pl : string)
| MsgNoPl
| MsgRegionCalled (region : string)
| MsgNoRegion
| MsgSqremote
| MsgEc2remote
| MsgIpsToAdd (ips : gset string)
| MsgIpsToRemove (ips : gset string)
| MsgNewLength (n : Z)
| MsgQuotaExceeded (pl : string) (quota : Z) (region : string)
| MsgThresholdExceeded (pl : string) (region : string)
| MsgBulkUpdate (toremove toadd : gset string) (pl : string)
| MsgRemoving (ips : gset string) (pl : string)
| MsgAdding (ips : gset string) (pl : string)
| MsgNoUpdate (pl : string)
| MsgSyncCompleted (sg pl : string).

(** The prefix printed before a message, also the SNS subject class. *)
Inductive Label : Type := INFO | WARNING | CRITICAL | UNKNOWN.

(** What a pass does that the outside can see, in order. *)
Inductive Event : Type :=
| Print (label : Label) (m : Message)
| Publish (label : Label) (m : Message)
| DescribeENIs (sg : string)
| GetEntries (pl : string)
| Describe (pl : string) (info : PrefixListInfo)
| GetQuota (q : Z)
| Modify (req : ModifyRequest) (resp : option Z)
| Sleep.

(** ** Computations *)

Definition M (W A : Type) : Type := W -> outcome A * W * list Event.

Definition ret {W A} (a : A) : M W A := fun w => (Ret a, w, []).

Definition bind {W A B} (m : M W A) (f : A -> M W B) : M W B := fun w =>
  match m w with
  | (Ret a, w1, t1) =>
      match f a w1 with
      | (o, w2, t2) => (o, w2, t1 ++ t2)
      end
  | (SysExit, w1, t1) => (SysExit, w1, t1)
  | (Raised e, w1, t1) => (Raised e, w1, t1)
  | (Timeout, w1, t1) => (Timeout, w1, t1)
  end.

Notation "'let*' x ':=' m 'in' k" := (bind m (fun x => k))
  (at level 10, x name, m at level 100, k at level 200, only parsing).
Notation "m ;;; k" := (bind m (fun _ => k))
  (at level 100, k at level 200, right associativity, only parsing).

(** The result of a computation that ran after the events [t0]. *)
Definition after {W A} (t0 : list Event) (r : outcome A * W * list Event)
  : outcome A * W * list Event :=
  match r with
  | (o, w, t) => (o, w, t0 ++ t)
  end.

Definition emit {W} (e : Event) : M W unit := fun w => (Ret tt, w, [e]).

(** [sys.exit(1)] *)
Definition sys_exit {W A} : M W A := fun w => (SysExit, w, []).

(** The fuel of a polling loop is spent. *)
Definition out_of_fuel {W A} : M W A := fun w => (Timeout, w, []).

(** A pure Python expression that may raise. *)
Definition lift {W A} (o : outcome A) : M W A := fun w => (o, w, []).

(** [when c m]: [if c: m] *)
Definition when {W} (c : bool) (m : M W unit) : M W unit :=
  if c then m else ret tt.

(** The [modify_managed_prefix_list] requests of a trace, in order. *)
Definition mods (t : list Event) : list ModifyRequest :=
  omap (fun e => match e with Modify req _ => Some req | _ => None end) t.

(** The SNS publications of a trace, in order. *)
Definition alerts (t : list Event) : list (Label * Message) :=
  omap (fun e => match e with Publish l m => Some (l, m) | _ => None end) t.

(** ** The module, function by function *)

(** Paginate a list into lists of at most 99 elements:
    [[l[i:i + 99] for i in range(0, len(l), 99)]]. *)
Definition paginate {A} (l : list A) : list (list A) :=
  map (fun i => slice l i (i + 99)) (range 0 (length l) 99).

(** [[{'Cidr': ip + "/32"} for ip in ips]], built by the loops that open
    the three mutating functions. *)
Definition as_cidrs (ips : gset string) : list string :=
  map (fun ip => ip +:+ "/32") (elements ips).

(** [int(entry['Cidr'].split('/')[1])] *)
Definition entry_mask (cidr : string) : outcome Z :=
  and_then (index (str_split "/" cidr) 1) int.

(** [entry['Cidr'].split('/')[0]] *)
Definition entry_addr (cidr : string) : outcome string :=
  index (str_split "/" cidr) 0.

(** The address list of [get_ips_in_pl] from the entries of all pages: the
    part before the slash of each entry whose part after it reads 32. *)
Fixpoint ips_of_entries (entries : list string) : outcome (list string) :=
  match entries with
  | [] => Ret []
  | cidr :: rest =>
      and_then (entry_mask cidr) (fun mask =>
      if mask =? 32 then
        and_then (entry_addr cidr) (fun a =>
        and_then (ips_of_entries rest) (fun l => Ret (a :: l)))
      else ips_of_entries rest)
  end.

(** [set(sgiplist) - set(pliplist)] *)
Definition itemstoadd (sgiplist pliplist : list string) : gset string :=
  list_to_set sgiplist ∖ list_to_set pliplist.

(** [set(pliplist) - set(sgiplist)] *)
Definition itemstoremove (sgiplist pliplist : list string) : gset string :=
  list_to_set pliplist ∖ list_to_set sgiplist.

(** [len(pliplist) + len(itemstoadd) - len(itemstoremove)] *)
Definition newpllength (sgiplist pliplist : list string) : Z :=
  Z.of_nat (length pliplist) + Z.of_nat (size (itemstoadd sgiplist pliplist))
  - Z.of_nat (size (itemstoremove sgiplist pliplist)).

(** [1-(int(os.environ['security_group_quota_padding_percentage'])/100)] *)
Definition sgrulemaxutilizationpercentage (cfg : Config) : outcome float :=
  and_then (float_of_int (security_group_quota_padding_percentage cfg))
    (fun p => Ret (PrimFloat.sub 1%float (PrimFloat.div p 100%float))).

(** [math.ceil(newplsize / sgrulemaxutilizationpercentage)] *)
Definition optimal_size (cfg : Config) (newplsize : Z) : outcome Z :=
  and_then (sgrulemaxutilizationpercentage cfg) (fun r =>
  and_then (float_of_int newplsize) (fun n =>
  and_then (float_div n r) ceil)).

(** [newpllength / currentquota > sgrulemaxutilizationpercentage] *)
Definition over_threshold (cfg : Config) (newpllength currentquota : Z)
  : outcome bool :=
  and_then (sgrulemaxutilizationpercentage cfg) (fun r =>
  and_then (float_of_int newpllength) (fun n =>
  and_then (float_of_int currentquota) (fun q =>
  and_then (float_div n q) (fun x => Ret (PrimFloat.ltb r x))))).

(** The four requests the module sends. *)
Definition remove_request (pl : string) (version : Z) (page : list string)
  : ModifyRequest :=
  {| PrefixListId := pl; CurrentVersion := Some version;
     AddEntries := None; RemoveEntries := Some page; NewMaxEntries := None |}.

Definition add_request (pl : string) (version : Z) (page : list string)
  : ModifyRequest :=
  {| PrefixListId := pl; CurrentVersion := Some version;
     AddEntries := Some page; RemoveEntries := None; NewMaxEntries := None |}.

Definition update_request (pl : string) (version : Z)
    (entriestoadd entriestoremove : list string) : ModifyRequest :=
  {| PrefixListId := pl; CurrentVersion := Some version;
     AddEntries := Some entriestoadd; RemoveEntries := Some entriestoremove;
     NewMaxEntries := None |}.

Definition resize_request (pl : string) (newmaxent : Z) : ModifyRequest :=
  {| PrefixListId := pl; CurrentVersion := None;
     AddEntries := None; RemoveEntries := None;
     NewMaxEntries := Some newmaxent |}.

Section Batchsync.

Context {W : Type} {R : Remote W}.
Variable cfg : Config.

(** The API calls, each leaving its mark in the trace. *)

Definition call_describe_network_interfaces (sg : string)
  : M W (list string) := fun w =>
  (Ret (describe_network_interfaces w sg), w, [DescribeENIs sg]).

Definition call_get_managed_prefix_list_entries (pl : string)
  : M W (list string) := fun w =>
  (Ret (get_managed_prefix_list_entries w pl), w, [GetEntries pl]).

Definition call_describe_managed_prefix_lists (pl : string)
  : M W PrefixListInfo := fun w =>
  let info := describe_managed_prefix_lists w pl in
  (Ret info, w, [Describe pl info]).

Definition call_get_service_quota : M W Z := fun w =>
  (Ret (get_service_quota w), w, [GetQuota (get_service_quota w)]).

Definition call_modify_managed_prefix_list (req : ModifyRequest)
  : M W (option Z) := fun w =>
  match modify_managed_prefix_list w req with
  | (resp, w') => (Ret resp, w', [Modify req resp])
  end.

Definition time_sleep : M W unit := fun w => (Ret tt, sleep w, [Sleep]).

(** [log_handler(message, severity, sendmessage, terminate)] *)
Definition log_handler (message : Message) (severity : Z)
    (sendmessage terminate : bool) : M W unit :=
  let loglevel := log_level cfg in
  let label :=
    if (severity =? 1) && (loglevel <=? 1) then INFO
    else if (severity =? 2) && (loglevel <=? 2) then WARNING
    else if (severity =? 3) && (loglevel <=? 3) then CRITICAL
    else UNKNOWN in
  emit (Print label message);;;
  when sendmessage (emit (Publish label message));;;
  when terminate sys_exit.

Definition get_sg_max_entries_quota_value : M W Z :=
  let* value := call_get_service_quota in
  log_handler (MsgQuotaResult value) 1 false false;;;
  ret value.

Definition get_ips_in_sg (sg : string) : M W (list string) :=
  let* addrlist := call_describe_network_interfaces sg in
  log_handler (MsgIpsInSg addrlist) 1 false false;;;
  ret addrlist.

Definition get_ips_in_pl (pl : string) : M W (list string) :=
  let* entries := call_get_managed_prefix_list_entries pl in
  let* addrlist := lift (ips_of_entries entries) in
  log_handler (MsgIpsInPl addrlist) 1 false false;;;
  ret addrlist.

Definition pl_info (pl : string) : M W PrefixListInfo :=
  let* plinfodata := call_describe_managed_prefix_lists pl in
  log_handler (MsgDescribeResult plinfodata) 1 false false;;;
  ret plinfodata.

Definition pl_ready (pl : string) : M W (option bool) :=
  let* plinfodata := call_describe_managed_prefix_lists pl in
  log_handler (MsgReadyProbe plinfodata) 1 false false;;;
  let plstate := State plinfodata in
  if String.eqb plstate "create-in-progress" then
    log_handler (MsgCreating pl) 3 false true;;; ret None
  else if String.eqb plstate "create-complete" then ret (Some true)
  else if String.eqb plstate "create-failed" then
    log_handler (MsgCreateFailed pl) 3 true true;;; ret None
  else if String.eqb plstate "modify-in-progress" then ret (Some false)
  else if String.eqb plstate "modify-complete" then ret (Some true)
  else if String.eqb plstate "modify-failed" then
    log_handler (MsgModifyFailed pl (StateMessage plinfodata)) 3 true true;;;
    ret None
  else if String.eqb plstate "restore-in-progress" then ret (Some false)
  else if String.eqb plstate "restore-complete" then ret (Some true)
  else if String.eqb plstate "restore-failed" then
    log_handler (MsgRestoreFailed pl) 3 true true;;; ret None
  else if String.eqb plstate "delete-in-progress" then
    log_handler (MsgDeleting pl) 3 true true;;; ret None
  else if String.eqb plstate "delete-complete" then
    log_handler (MsgDeleted pl) 3 true true;;; ret None
  else if String.eqb plstate "delete-failed" then
    log_handler (MsgDeleteFailed pl) 3 true true;;; ret None
  else
    log_handler (MsgUnknownState pl plstate) 3 true true;;; ret None.

(** [while not plstatus: time.sleep(1); plstatus = pl_ready(pl, ec2remote)] *)
Fixpoint while_not_ready (fuel : nat) (pl : string) (plstatus : option bool)
  : M W unit :=
  if truthy plstatus then ret tt
  else
    match fuel with
    | O => out_of_fuel
    | S fuel' =>
        time_sleep;;;
        let* plstatus := pl_ready pl in
        while_not_ready fuel' pl plstatus
    end.

(** The polling block that precedes every mutation:
    [plstatus = pl_ready(pl, ec2remote)] and the loop above. *)
Definition wait_until_ready (fuel : nat) (pl : string) : M W unit :=
  let* plstatus := pl_ready pl in
  while_not_ready fuel pl plstatus.

(** [for page in paginatedentriestoremove: ...] of [remove_cidr_from_pl] *)
Fixpoint remove_pages (fuel : nat) (pl : string) (pages : list (list string))
    (version : Z) : M W Z :=
  match pages with
  | [] => ret version
  | page :: rest =>
      wait_until_ready fuel pl;;;
      let* info := pl_info pl in
      let version := Version info in
      let* response :=
        call_modify_managed_prefix_list (remove_request pl version page) in
      match response with
      | Some version' =>
          log_handler (MsgModifyResult version') 1 false false;;;
          remove_pages fuel pl rest version'
      | None =>
          log_handler (MsgRemoveFailed pl) 3 true true;;;
          remove_pages fuel pl rest version
      end
  end.

Definition remove_cidr_from_pl (fuel : nat) (pl : string) (ips : gset string)
    (version : Z) : M W Z :=
  let entriestoremove := as_cidrs ips in
  log_handler (MsgTryingToRemove entriestoremove pl version) 1 false false;;;
  let paginatedentriestoremove := paginate entriestoremove in
  log_handler (MsgPaginatedRemove paginatedentriestoremove pl version)
    1 false false;;;
  remove_pages fuel pl paginatedentriestoremove version.

(** [for page in paginatedentriestoadd: ...] of [add_cidr_to_pl] *)
Fixpoint add_pages (fuel : nat) (pl : string) (pages : list (list string))
    (version : Z) : M W Z :=
  match pages with
  | [] => ret version
  | page :: rest =>
      wait_until_ready fuel pl;;;
      let* info := pl_info pl in
      let version := Version info in
      let* response :=
        call_modify_managed_prefix_list (add_request pl version page) in
      match response with
      | Some version' =>
          log_handler (MsgModifyResult version') 1 false false;;;
          add_pages fuel pl rest version'
      | None =>
          log_handler (MsgAddFailed pl) 3 true true;;;
          add_pages fuel pl rest version
      end
  end.

Definition add_cidr_to_pl (fuel : nat) (pl : string) (ips : gset string)
    (version : Z) : M W Z :=
  let entriestoadd := as_cidrs ips in
  log_handler (MsgTryingToAdd entriestoadd pl version) 1 false false;;;
  let paginatedentriestoadd := paginate entriestoadd in
  log_handler (MsgPaginatedAdd paginatedentriestoadd pl version)
    1 false false;;;
  add_pages fuel pl paginatedentriestoadd version.

Definition update_cidrs_in_pl (pl : string) (ipstoremove ipstoadd : gset string)
    (version : Z) : M W (option Z) :=
  let entriestoadd := as_cidrs ipstoadd in
  log_handler (MsgBulkAdd entriestoadd pl version) 1 false false;;;
  let entriestoremove := as_cidrs ipstoremove in
  log_handler (MsgBulkRemove entriestoremove pl version) 1 false false;;;
  let* response := call_modify_managed_prefix_list
    (update_request pl version entriestoadd entriestoremove) in
  match response with
  | Some version' =>
      log_handler (MsgModifyResult version') 1 false false;;;
      ret (Some version')
  | None =>
      log_handler (MsgUpdateFailed pl) 3 true true;;; ret None
  end.

Definition pl_resize (pl : string) (currentquota newplsize : Z)
  : M W (option Z) :=
  let* newmaxent := lift (optimal_size cfg newplsize) in
  let* newmaxent :=
    if newmaxent >? currentquota then
      log_handler (MsgResizeClipped pl newmaxent) 2 true false;;;
      ret (currentquota - 1)
    else ret newmaxent in
  let* response :=
    call_modify_managed_prefix_list (resize_request pl newmaxent) in
  match response with
  | Some version' =>
      log_handler (MsgResizeResult version') 1 false false;;;
      ret (Some version')
  | None =>
      log_handler (MsgResizeFailed pl) 3 true true;;; ret None
  end.

(** [len(s)] of a set, as an [int]. *)
Definition len (s : gset string) : Z := Z.of_nat (size s).

(** Lines 556-568 of [lambda_handler]: the quota ceiling and the padding
    threshold. *)
Definition check_quota (pl region : string) (currentquota newlength : Z)
  : M W unit :=
  if currentquota - newlength <? 1 then
    log_handler (MsgQuotaExceeded pl currentquota region) 3 true true
  else
    let* over := lift (over_threshold cfg newlength currentquota) in
    when over (log_handler (MsgThresholdExceeded pl region) 3 true false).

(** Lines 610-624 of [lambda_handler]: the removals of the paginated path. *)
Definition remove_phase (fuel : nat) (pl : string) (toremove : gset string)
    (plinfo : PrefixListInfo) : M W unit :=
  when (len toremove >? 0)
    (wait_until_ready fuel pl;;;
     log_handler (MsgRemoving toremove pl) 1 false false;;;
     remove_cidr_from_pl fuel pl toremove (Version plinfo);;;
     ret tt).

(** Lines 627-641 of [lambda_handler]: the additions of the paginated path. *)
Definition add_phase (fuel : nat) (pl : string) (toadd : gset string)
  : M W unit :=
  when (len toadd >? 0)
    (wait_until_ready fuel pl;;;
     log_handler (MsgAdding toadd pl) 1 false false;;;
     let* info := pl_info pl in
     add_cidr_to_pl fuel pl toadd (Version info);;;
     ret tt).

(** Lines 584-646 of [lambda_handler]: the branch taken when the prefix list
    is large enough, which applies the two sets. *)
Definition apply_changes (fuel : nat) (pl : string)
    (toadd toremove : gset string) (plinfo : PrefixListInfo) : M W unit :=
  if ((len toadd >? 0) || (len toremove >? 0))
     && (len toadd <? 100) && (len toremove <? 100) then
    wait_until_ready fuel pl;;;
    log_handler (MsgBulkUpdate toremove toadd pl) 1 false false;;;
    update_cidrs_in_pl pl toremove toadd (Version plinfo);;;
    ret tt
  else if ((len toadd >? 0) || (len toremove >? 0))
          && ((len toadd >? 100) || (len toremove >? 100)) then
    remove_phase fuel pl toremove plinfo;;;
    add_phase fuel pl toadd
  else
    log_handler (MsgNoUpdate pl) 1 false false.

(** Lines 490-515 of [lambda_handler]: one key of the event. *)
Definition event_field (event : gmap string string) (key : string)
    (called : string -> Message) (missing : Message) : M W string :=
  match event !! key with
  | Some v => log_handler (called v) 1 false false;;; ret v
  | None => log_handler missing 3 true true;;; lift (Raised UnboundLocalError)
  end.

(** Lines 556-651 of [lambda_handler]: what follows the reads. *)
Definition finish_pass (fuel : nat) (sg pl region : string)
    (toadd toremove : gset string) (newlength : Z) (plinfo : PrefixListInfo)
    (currentquota : Z) : M W Message :=
  check_quota pl region currentquota newlength;;;
  (if MaxEntries plinfo <? newlength then
     pl_resize pl currentquota newlength;;;
     wait_until_ready fuel pl
   else
     apply_changes fuel pl toadd toremove plinfo);;;
  log_handler (MsgSyncCompleted sg pl) 1 false false;;;
  ret (MsgSyncCompleted sg pl).

Definition lambda_handler (fuel : nat) (event : gmap string string)
  : M W Message :=
  let* sg := event_field event "sg" MsgSgCalled MsgNoSg in
  let* pl := event_field event "pl" MsgPlCalled MsgNoPl in
  let* region := event_field event "region" MsgRegionCalled MsgNoRegion in
  log_handler MsgSqremote 1 false false;;;
  log_handler MsgEc2remote 1 false false;;;
  let* sgiplist := get_ips_in_sg sg in
  let* pliplist := get_ips_in_pl pl in
  let toadd := itemstoadd sgiplist pliplist in
  log_handler (MsgIpsToAdd toadd) 1 false false;;;
  let toremove := itemstoremove sgiplist pliplist in
  log_handler (MsgIpsToRemove toremove) 1 false false;;;
  let newlength := newpllength sgiplist pliplist in
  log_handler (MsgNewLength newlength) 1 false false;;;
  let* plinfo := pl_info pl in
  let* currentquota := get_sg_max_entries_quota_value in
  finish_pass fuel sg pl region toadd toremove newlength plinfo currentquota.

End Batchsync.

(** ** What the properties speak of *)

(** The events of one [log_handler] call. *)
Definition log_events (cfg : Config) (message : Message) (severity : Z) (sendmessage : bool)
  : list Event :=
  let loglevel := log_level cfg in
  let label :=
    if (severity =? 1) && (loglevel <=? 1) then INFO
    else if (severity =? 2) && (loglevel <=? 2) then WARNING
    else if (severity =? 3) && (loglevel <=? 3) then CRITICAL
    else UNKNOWN in
  Print label message :: if sendmessage then [Publish label message] else [].

(** The entries of a prefix list, as a set. *)
Definition entry_set {W} {R : Remote W} (w : W) (pl : string) : gset string :=
  list_to_set (get_managed_prefix_list_entries w pl).

(** A remote that applies what it accepts, and nothing else: time alone and
    refused calls leave the entries of a prefix list as they are, an accepted
    call removes the entries it names and adds the ones it brings. *)
Class Faithful (W : Type) {R : Remote W} : Prop := {
  sleep_entries : forall w pl, entry_set (sleep w) pl = entry_set w pl;
  refused_entries : forall w req w' pl,
    modify_managed_prefix_list w req = (None, w') ->
    entry_set w' pl = entry_set w pl;
  accepted_entries : forall w req v w',
    modify_managed_prefix_list w req = (Some v, w') ->
    entry_set w' (PrefixListId req) =
      (entry_set w (PrefixListId req)
         ∖ list_to_set (default [] (RemoveEntries req)))
      ∪ list_to_set (default [] (AddEntries req));
}.

(** The host addresses a prefix list holds: what [get_ips_in_pl] reads. *)
Definition host_set {W} {R : Remote W} (w : W) (pl : string)
  : outcome (gset string) :=
  and_then (ips_of_entries (get_managed_prefix_list_entries w pl))
    (fun l => Ret (list_to_set l)).

(** A string without a slash. *)
Fixpoint no_slash (s : string) : bool :=
  match s with
  | EmptyString => true
  | String c s' => negb (Ascii.eqb c "/") && no_slash s'
  end.

(** An entry that reads as a host address is spelled [address/32]. *)
Definition canonical (cidr : string) : Prop :=
  entry_mask cidr = Ret 32 ->
  exists a, entry_addr cidr = Ret a /\ cidr = a +:+ "/32".

(** The three shapes of request the module sends. *)
Definition is_resize (req : ModifyRequest) : bool :=
  match AddEntries req, RemoveEntries req with
  | None, None => true
  | _, _ => false
  end.

Definition is_page (req : ModifyRequest) : bool :=
  match AddEntries req, RemoveEntries req with
  | Some _, None | None, Some _ => true
  | _, _ => false
  end.


(** A state [pl_ready] answers [True] to. *)
Definition ready_state (st : string) : bool :=
  String.eqb st "create-complete" || String.eqb st "modify-complete"
  || String.eqb st "restore-complete".

(** Every mutating call of the trace carries a version, and it is no older
    than the last version a read or an accepted mutation returned before
    it ([seen]). *)
Fixpoint versions_fresh (seen : option Z) (t : list Event) : bool :=
  match t with
  | [] => true
  | Describe _ info :: t' => versions_fresh (Some (Version info)) t'
  | Modify req resp :: t' =>
      match CurrentVersion req with
      | Some v =>
          match seen with Some v0 => v0 <=? v | None => true end
          && versions_fresh (match resp with Some v' => Some v' | None => seen end) t'
      | None => false
      end
  | _ :: t' => versions_fresh seen t'
  end.

(** Every page request of the trace carries the version of a describe call
    made just before it (log lines apart) that found the list ready; every
    resize request carries no version.  [last] is the description returned by
    the describe call just before, if the last call was one. *)
Fixpoint versions_reread (last : option PrefixListInfo) (t : list Event)
  : bool :=
  match t with
  | [] => true
  | Print _ _ :: t' | Publish _ _ :: t' => versions_reread last t'
  | Describe _ info :: t' => versions_reread (Some info) t'
  | Modify req _ :: t' =>
      (if is_page req then
         match last with
         | Some info =>
             bool_decide (CurrentVersion req = Some (Version info))
             && ready_state (State info)
         | None => false
         end
       else if is_resize req then bool_decide (CurrentVersion req = None)
       else true)
      && versions_reread None t'
  | _ :: t' => versions_reread None t'
  end.

(** No request that removes entries comes after one that adds entries. *)
Fixpoint removes_first (l : list ModifyRequest) : bool :=
  match l with
  | [] => true
  | req :: l' =>
      match AddEntries req with
      | Some _ => forallb (fun r => bool_decide (RemoveEntries r = None)) l'
      | None => true
      end && removes_first l'
  end.


(** ** A simulated remote

    One security group and one prefix list, modelled on EC2's behaviour: a
    modification is accepted only when the list is in a [-complete] state,
    fits its maximum size and, when it changes entries, names the current
    version; an accepted modification leaves the list [modify-in-progress]
    for [lag] seconds, and the version moves on when it lands. *)

Module Sim.

Record world : Type := {
  group : list string;
  entries : list string;
  maxentries : Z;
  version : Z;
  state : string;
  statemessage : string;
  busy : nat;
  lag : nat;
  quota : Z;
}.

(** The state an operation in progress ends in. *)
Definition landed (st : string) : string :=
  if String.eqb st "create-in-progress" then "create-complete"
  else if String.eqb st "modify-in-progress" then "modify-complete"
  else if String.eqb st "restore-in-progress" then "restore-complete"
  else st.

Definition land (w : world) : world :=
  {| group := group w; entries := entries w; maxentries := maxentries w;
     version := version w + 1; state := landed (state w);
     statemessage := statemessage w; busy := 0; lag := lag w;
     quota := quota w |}.

Definition tick (w : world) : world :=
  match busy w with
  | O => w
  | S O => land w
  | S n =>
      {| group := group w; entries := entries w; maxentries := maxentries w;
         version := version w; state := state w;
         statemessage := statemessage w; busy := n; lag := lag w;
         quota := quota w |}
  end.

Definition info (w : world) : PrefixListInfo :=
  {| MaxEntries := maxentries w; Version := version w; State := state w;
     StateMessage := statemessage w |}.

Definition modify (w : world) (req : ModifyRequest) : option Z * world :=
  let removes := default [] (RemoveEntries req) in
  let adds := default [] (AddEntries req) in
  let entries' := list_union (list_difference (entries w) removes) adds in
  let maxentries' := default (maxentries w) (NewMaxEntries req) in
  if ready_state (state w)
     && (is_resize req || bool_decide (CurrentVersion req = Some (version w)))
     && (Z.of_nat (length entries') <=? maxentries')
  then
    let w' :=
      {| group := group w; entries := entries'; maxentries := maxentries';
         version := version w; state := "modify-in-progress";
         statemessage := statemessage w; busy := lag w; lag := lag w;
         quota := quota w |} in
    (Some (version w), match lag w with O => land w' | S _ => w' end)
  else (None, w).

#[global] Instance remote : Remote world := {
  describe_network_interfaces w _ := group w;
  get_managed_prefix_list_entries w _ := entries w;
  describe_managed_prefix_lists w _ := info w;
  get_service_quota w := quota w;
  modify_managed_prefix_list := modify;
  sleep := tick;
}.

(** The invocation event [{'sg': sg, 'pl': pl, 'region': region}]. *)
Definition event (sg pl region : string) : gmap string string :=
  {[ "sg" := sg; "pl" := pl; "region" := region ]}.

(** Log level 1, padding 10 percent. *)
Definition cfg : Config :=
  {| log_level := 1; security_group_quota_padding_percentage := 10 |}.


(** [n] distinct addresses [10.0.0.1], [10.0.0.2], ... *)
Definition addresses (n : nat) : list string :=
  map (fun k => "10.0.0." +:+ pretty (S k)) (seq 0 n).

Definition steady (grp ents : list string) (maxent q : Z) : world :=
  {| group := grp; entries := ents; maxentries := maxent; version := 1;
     state := "modify-complete"; statemessage := ""; busy := 0; lag := 1;
     quota := q |}.

Definition example_event : gmap string string :=
  event "sg-1" "pl-1" "eu-west-1".

(** The group holds .1 .2 .3, the list .2 .3 .4, of at most 100 entries. *)
Definition end_to_end : world :=
  steady (addresses 3) ["10.0.0.2/32"; "10.0.0.3/32"; "10.0.0.4/32"] 100 1000.

(** An empty list of at most 2 entries for a group of 3 addresses. *)
Definition undersized : world := steady (addresses 3) [] 2 1000.

(** An empty list for a group of 100, of 150 addresses. *)
Definition hundred : world := steady (addresses 100) [] 1000 1000.
Definition hundred_fifty : world := steady (addresses 150) [] 1000 1000.

(** A group of 200, of 199 addresses under a quota of 200. *)
Definition full : world := steady (addresses 200) [] 1000 200.
Definition nearly_full : world := steady (addresses 199) [] 1000 200.

(** A list that is being created. *)
Definition creating : world :=
  {| group := addresses 1; entries := []; maxentries := 100; version := 1;
     state := "create-in-progress"; statemessage := ""; busy := 3; lag := 1;
     quota := 1000 |}.

(** A list with a modification under way that lands in one second, as
    version 6. *)
Definition modifying : world :=
  {| group := addresses 1; entries := ["10.0.0.9/32"]; maxentries := 100;
     version := 5; state := "modify-in-progress"; statemessage := "";
     busy := 1; lag := 1; quota := 1000 |}.

(** One entry to remove and 101 addresses to add. *)
Definition swap : world := steady (addresses 101) ["10.0.1.1/32"] 1000 1000.

(** A list that also holds a /24 entry. *)
Definition mixed : world :=
  steady (addresses 1) ["10.0.0.0/24"; "10.0.0.9/32"] 100 1000.

End Sim.


(** Every run of [m] takes the remote from a state to another and leaves a
    trace that [Q] relates. *)
Definition holds {W A} (Q : W -> W -> list Event -> Prop) (m : M W A) : Prop :=
  forall w, Q w (m w).1.2 (m w).2.

(** An event that is neither a mutation, nor a sleep, nor the quota alarm. *)
Definition routine (e : Event) : bool :=
  match e with
  | Modify _ _ | Sleep => false
  | Print _ (MsgQuotaExceeded _ _ _) | Publish _ (MsgQuotaExceeded _ _ _) =>
      false
  | _ => true
  end.

(** A property of runs that holds of the run that does nothing, of runs put
    end to end, of every routine event and of the passing of time. *)
Class Stepwise {W} {R : Remote W} (Q : W -> W -> list Event -> Prop) : Prop := {
  step_nil : forall w, Q w w [];
  step_app : forall w1 w2 w3 t1 t2,
    Q w1 w2 t1 -> Q w2 w3 t2 -> Q w1 w3 (t1 ++ t2);
  step_routine : forall w e, routine e = true -> Q w w [e];
  step_sleep : forall w, Q w (sleep w) [Sleep];
}.

(** What a property of runs must grant for every pass on the prefix list
    [pl] with the sets [toadd] and [toremove] to have it: the quota alarm when
    the quota check fails, the resize request, the combined request when both
    sets are below 100, and each page request, sent right after a describe
    call that found the list ready. *)
Record Admits {W} {R : Remote W} (cfg : Config)
    (Q : W -> W -> list Event -> Prop) (pl region : string)
    (toadd toremove : gset string) (newlength currentquota : Z) : Prop := {
  admits_quota : forall w,
    currentquota - newlength < 1 ->
    Q w w (log_events cfg (MsgQuotaExceeded pl currentquota region) 3 true);
  admits_resize : forall w newmaxent resp w',
    modify_managed_prefix_list w (resize_request pl newmaxent) = (resp, w') ->
    Q w w' [Modify (resize_request pl newmaxent) resp];
  admits_update : forall w version resp w',
    (size toadd < 100)%nat -> (size toremove < 100)%nat ->
    let req := update_request pl version (as_cidrs toadd) (as_cidrs toremove) in
    modify_managed_prefix_list w req = (resp, w') ->
    Q w w' [Modify req resp];
  admits_remove : forall w page resp w',
    page ∈ paginate (as_cidrs toremove) ->
    let info := describe_managed_prefix_lists w pl in
    ready_state (State info) = true ->
    let req := remove_request pl (Version info) page in
    modify_managed_prefix_list w req = (resp, w') ->
    Q w w' (Describe pl info :: log_events cfg (MsgDescribeResult info) 1 false
              ++ [Modify req resp]);
  admits_add : forall w page resp w',
    page ∈ paginate (as_cidrs toadd) ->
    let info := describe_managed_prefix_lists w pl in
    ready_state (State info) = true ->
    let req := add_request pl (Version info) page in
    modify_managed_prefix_list w req = (resp, w') ->
    Q w w' (Describe pl info :: log_events cfg (MsgDescribeResult info) 1 false
              ++ [Modify req resp]);
}.

(** The quota alarm, printed or published. *)
Definition quota_alarm (e : Event) : bool :=
  match e with
  | Print _ (MsgQuotaExceeded _ _ _) | Publish _ (MsgQuotaExceeded _ _ _) =>
      true
  | _ => false
  end.

(** An entry whose mask does not read 32 is there after the run if it was
    there before. *)
Definition spared {W} {R : Remote W} (pl : string) (w w' : W)
    (t : list Event) : Prop :=
  forall cidr,
    cidr ∈ entry_set w pl -> entry_mask cidr <> Ret 32 ->
    cidr ∈ entry_set w' pl.

(** The trace of the reads that open a pass, lines 490-552 of
    [lambda_handler]. *)
Definition reads_trace (cfg : Config) (sg pl region : string)
    (sgiplist pliplist : list string) (plinfo : PrefixListInfo)
    (currentquota : Z) : list Event :=
  log_events cfg (MsgSgCalled sg) 1 false
  ++ log_events cfg (MsgPlCalled pl) 1 false
  ++ log_events cfg (MsgRegionCalled region) 1 false
  ++ log_events cfg MsgSqremote 1 false
  ++ log_events cfg MsgEc2remote 1 false
  ++ DescribeENIs sg :: log_events cfg (MsgIpsInSg sgiplist) 1 false
  ++ GetEntries pl :: log_events cfg (MsgIpsInPl pliplist) 1 false
  ++ log_events cfg (MsgIpsToAdd (itemstoadd sgiplist pliplist)) 1 false
  ++ log_events cfg (MsgIpsToRemove (itemstoremove sgiplist pliplist)) 1 false
  ++ log_events cfg (MsgNewLength (newpllength sgiplist pliplist)) 1 false
  ++ Describe pl plinfo :: log_events cfg (MsgDescribeResult plinfo) 1 false
  ++ GetQuota currentquota :: log_events cfg (MsgQuotaResult currentquota) 1 false.

(** ** Further vocabulary for properties of the module *)

(** A log line, printed or published. *)
Definition is_log (e : Event) : bool :=
  match e with
  | Print _ _ | Publish _ _ => true
  | _ => false
  end.

(** A state [pl_ready] answers [False] to. *)
Definition busy_state (st : string) : bool :=
  String.eqb st "modify-in-progress" || String.eqb st "restore-in-progress".

(** The number of [time.sleep(1)] calls of a trace. *)
Fixpoint sleeps (t : list Event) : nat :=
  match t with
  | [] => 0
  | Sleep :: t' => S (sleeps t')
  | _ :: t' => sleeps t'
  end.

(** After a mutating call that the remote refused, the trace holds log lines
    only. *)
Fixpoint refused_last (t : list Event) : bool :=
  match t with
  | [] => true
  | Modify _ None :: t' => forallb is_log t'
  | _ :: t' => refused_last t'
  end.

(** The entries of [pl] are kept and every request sent is a resize. *)
Definition resized_only {W} {R : Remote W} (pl : string) (w w' : W)
    (t : list Event) : Prop :=
  entry_set w' pl = entry_set w pl /\
  Forall (fun req => is_resize req = true) (mods t).

(** A mutating call that the remote refused. *)
Definition refused (e : Event) : bool :=
  match e with
  | Modify _ None => true
  | _ => false
  end.

(** A run in which no mutating call was refused, or which ended the process
    with nothing but log lines after the call that was. *)
Definition failfast {W A} (r : outcome A * W * list Event) : Prop :=
  Forall (fun e => refused e = false) r.2 \/
  (r.1.1 = SysExit /\ refused_last r.2 = true /\ alerts r.2 <> []).

(** A simulated list of at most 2 entries that holds a /24 entry, for a
    group of 2 addresses: the final size counts host entries only. *)
Definition crowded : Sim.world :=
  Sim.steady (Sim.addresses 2) ["10.0.0.0/24"] 2 1000.

(** A simulated list whose modification never lands. *)
Definition stuck : Sim.world :=
  {| Sim.group := Sim.addresses 1; Sim.entries := []; Sim.maxentries := 100;
     Sim.version := 1; Sim.state := "modify-in-progress";
     Sim.statemessage := ""; Sim.busy := 0; Sim.lag := 1;
     Sim.quota := 1000 |}.

(** * The two companion handlers

    [SG2PL-Onboard.py] creates the prefix list of a security group and
    stores the mapping in the parameter store; [SG2PL-BulkBatchInitiator.py]
    reads every stored mapping and invokes the reconciliation pass for it.
    They loop over lists only, so their computations need no fuel; they catch
    exceptions, so an exception is a result that a handler can take up.  The
    three files define the same [log_handler]. *)

(** A stored mapping: [{'Name': ..., 'Value': ...}]. *)
Record Param : Type := {
  Name : string;
  Value : string;
}.

#[global] Instance Param_eq_dec : EqDecision Param.
Proof. solve_decision. Defined.

(** [{"sg": sg, "pl": pl, "region": region}], the payload of an invocation
    and the event of the reconciliation pass. *)
Definition mapping (sg pl region : string) : gmap string string :=
  {[ "sg" := sg; "pl" := pl; "region" := region ]}.

Module Run.

(** What [except Exception] catches: an error of a boto3 call (of the
    service, or of the validation of the arguments), the error of a client
    construction for a region name that boto3 does not accept, or an
    exception Python raises by itself. *)
Inductive Exn : Type :=
| ClientError
| InvalidRegionError
| KeyError
| TypeError
| PyError (e : PyExn).

(** How a call ends: it returns, the process exits through [sys.exit(1)],
    or an exception propagates. *)
Inductive result (A : Type) : Type :=
| Ok (a : A)
| Exit
| Raise (e : Exn).

Arguments Ok {A} a.
Arguments Exit {A}.
Arguments Raise {A} e.

(** What a handler does that the outside can see: log lines, SNS messages
    and API calls. *)
Inductive Ev (Msg Call : Type) : Type :=
| Printed (label : Label) (m : Msg)
| Published (label : Label) (m : Msg)
| Called (c : Call).

Arguments Printed {Msg Call} label m.
Arguments Published {Msg Call} label m.
Arguments Called {Msg Call} c.

Definition T (E W A : Type) : Type := W -> result A * W * list E.

Definition ret {E W A} (a : A) : T E W A := fun w => (Ok a, w, []).

Definition bind {E W A B} (m : T E W A) (f : A -> T E W B) : T E W B :=
  fun w =>
  match m w with
  | (Ok a, w1, t1) =>
      match f a w1 with
      | (o, w2, t2) => (o, w2, t1 ++ t2)
      end
  | (Exit, w1, t1) => (Exit, w1, t1)
  | (Raise e, w1, t1) => (Raise e, w1, t1)
  end.

Definition emit {E W} (e : E) : T E W unit := fun w => (Ok tt, w, [e]).

(** [sys.exit(1)]: [SystemExit] is no [Exception]. *)
Definition sys_exit {E W A} : T E W A := fun w => (Exit, w, []).

Definition raise {E W A} (e : Exn) : T E W A := fun w => (Raise e, w, []).

(** A pure Python expression that may raise. *)
Definition lift {E W A} (o : outcome A) : T E W A := fun w =>
  match o with
  | Ret a => (Ok a, w, [])
  | Raised e => (Raise (PyError e), w, [])
  | SysExit | Timeout => (Exit, w, [])
  end.

(** [try: m except Exception as e: handler(e)] *)
Definition try_except {E W A} (m : T E W A) (handler : Exn -> T E W A)
  : T E W A := fun w =>
  match m w with
  | (Raise e, w1, t1) =>
      match handler e w1 with
      | (o, w2, t2) => (o, w2, t1 ++ t2)
      end
  | r => r
  end.

Definition when {E W} (c : bool) (m : T E W unit) : T E W unit :=
  if c then m else ret tt.

(** The branch of [log_handler] that a severity and a log level select. *)
Definition label_of (loglevel severity : Z) : Label :=
  if (severity =? 1) && (loglevel <=? 1) then INFO
  else if (severity =? 2) && (loglevel <=? 2) then WARNING
  else if (severity =? 3) && (loglevel <=? 3) then CRITICAL
  else UNKNOWN.

(** [log_handler(message, severity, sendmessage, terminate)], as each of the
    two files has it. *)
Definition log_handler {Msg Call W} (loglevel : Z) (message : Msg)
    (severity : Z) (sendmessage terminate : bool) : T (Ev Msg Call) W unit :=
  let label := label_of loglevel severity in
  bind (emit (Printed label message)) (fun _ =>
  bind (when sendmessage (emit (Published label message))) (fun _ =>
  when terminate sys_exit)).

(** The events of one [log_handler] call. *)
Definition log_events {Msg Call} (loglevel : Z) (message : Msg)
    (severity : Z) (sendmessage : bool) : list (Ev Msg Call) :=
  let label := label_of loglevel severity in
  Printed label message
    :: if sendmessage then [Published label message] else [].

(** The result of a computation that ran after the events [t0]. *)
Definition after {E W A} (t0 : list E) (r : result A * W * list E)
  : result A * W * list E :=
  match r with
  | (o, w, t) => (o, w, t0 ++ t)
  end.

(** The API calls of a trace, in order. *)
Definition calls {Msg Call} (t : list (Ev Msg Call)) : list Call :=
  omap (fun e => match e with Called c => Some c | _ => None end) t.

(** The SNS publications of a trace, in order. *)
Definition published {Msg Call} (t : list (Ev Msg Call))
  : list (Label * Msg) :=
  omap (fun e => match e with Published l m => Some (l, m) | _ => None end) t.

(** [l[i]] for a computed index: a negative one counts from the end. *)
Definition getitem {A} (l : list A) (i : Z) : outcome A :=
  let j := if i <? 0 then i + Z.of_nat (length l) else i in
  if j <? 0 then Raised IndexError
  else match l !! Z.to_nat j with
       | Some a => Ret a
       | None => Raised IndexError
       end.

(** [x * y] and [x + y] on floats, and [int(x)]. *)
Definition float_mul (x y : float) : float := PrimFloat.mul x y.
Definition float_add (x y : float) : float := PrimFloat.add x y.

Definition int_of_float (x : float) : outcome Z :=
  match Prim2SF x with
  | S754_zero _ => Ret 0
  | S754_finite s m e =>
      let n := Z.pos m in
      let q := if 0 <=? e then Z.shiftl n e else Z.shiftr n (- e) in
      Ret (if s then - q else q)
  | S754_infinity _ => Raised OverflowError
  | S754_nan => Raised ValueError
  end.

End Run.

Declare Scope run_scope.
Notation "'let*' x ':=' m 'in' k" := (Run.bind m (fun x => k))
  (at level 10, x name, m at level 100, k at level 200, only parsing)
  : run_scope.
Notation "m ;;; k" := (Run.bind m (fun _ => k))
  (at level 100, k at level 200, right associativity, only parsing)
  : run_scope.

(** ** SG2PL-BulkBatchInitiator.py *)

Module Bulk.

Import Run.
#[local] Open Scope run_scope.

(** The environment variables read by the module. *)
Record Config : Type := {
  log_level : Z;
  batch_sync_function_name : string;
  parameter_store_path : string;
}.

(** The text of every log line of the module, by call site. *)
Inductive Message : Type :=
| MsgInvoking (batchsyncfn : string) (payload : gmap string string)
| MsgInvocationReturned (response : Z)
| MsgPage (page : list Param).

(** The API calls of the module: an invocation carries the function name,
    the payload and the answer ([None] when the call raised). *)
Inductive Call : Type :=
| GetParametersByPath (path : string)
| Invoke (batchsyncfn : string) (payload : gmap string string)
    (response : option Z)
| Sleep.

(** The parameter store and the Lambda service.  The paginator gives the
    pages of the parameters under a path, as the store has them when the
    handler starts (the handler does not write to the store); an invocation
    answers with its status code or raises ([None]). *)
Class Remote (W : Type) : Type := {
  get_parameters_by_path : W -> string -> list (list Param);
  invoke : W -> string -> gmap string string -> option Z * W;
  sleep : W -> W;
}.

(** [paramparser(input_response)], on [input_response['Parameters']]. *)
Fixpoint paramparser (parameters : list Param)
  : outcome (list (gmap string string)) :=
  match parameters with
  | [] => Ret []
  | parameter :: rest =>
      let name := str_split "/" (Name parameter) in
      and_then (getitem name (Z.of_nat (length name) - 1)) (fun region =>
      and_then (getitem name (Z.of_nat (length name) - 2)) (fun sg =>
      let pl := Value parameter in
      and_then (paramparser rest) (fun params =>
      Ret (mapping sg pl region :: params))))
  end.

Section Handler.

Context {W : Type} {R : Remote W}.
Variable cfg : Config.

Abbreviation Comp := (T (Ev Message Call) W).

Definition log_handler (message : Message) (severity : Z)
    (sendmessage terminate : bool) : Comp unit :=
  Run.log_handler (log_level cfg) message severity sendmessage terminate.

Definition call_invoke (payload : gmap string string) : Comp Z := fun w =>
  let batchsyncfn := batch_sync_function_name cfg in
  match invoke w batchsyncfn payload with
  | (Some response, w') =>
      (Ok response, w', [Called (Invoke batchsyncfn payload (Some response))])
  | (None, w') =>
      (Raise ClientError, w', [Called (Invoke batchsyncfn payload None)])
  end.

Definition time_sleep : Comp unit := fun w =>
  (Ok tt, sleep w, [Called Sleep]).

(** [run_update(paramsinput)] *)
Fixpoint run_update (paramsinput : list (gmap string string)) : Comp unit :=
  match paramsinput with
  | [] => ret tt
  | payload :: rest =>
      log_handler (MsgInvoking (batch_sync_function_name cfg) payload)
        1 false false;;;
      let* response := call_invoke payload in
      time_sleep;;;
      log_handler (MsgInvocationReturned response) 1 false false;;;
      run_update rest
  end.

(** [for page in page_iterator: ...] of [lambda_handler] *)
Fixpoint for_pages (pages : list (list Param)) : Comp unit :=
  match pages with
  | [] => ret tt
  | page :: rest =>
      log_handler (MsgPage page) 1 false false;;;
      let* parsed_sgs := lift (paramparser page) in
      run_update parsed_sgs;;;
      for_pages rest
  end.

Definition lambda_handler : Comp unit := fun w =>
  let path := parameter_store_path cfg in
  Run.bind (emit (Called (GetParametersByPath path)))
    (fun _ => for_pages (get_parameters_by_path w path)) w.

End Handler.

(** The payloads of the invocations of a trace, in order. *)
Definition invoked (t : list (Ev Message Call))
  : list (gmap string string) :=
  omap (fun c => match c with Invoke _ payload _ => Some payload | _ => None end)
    (calls t).

(** The invocations of a trace that raised. *)
Definition refused (t : list (Ev Message Call))
  : list (gmap string string) :=
  omap (fun c => match c with Invoke _ payload None => Some payload | _ => None end)
    (calls t).

(** The mapping that a stored parameter stands for: the region is the last
    segment of its name, the security group the segment before it, or the
    last one again when the name has a single segment. *)
Definition mapping_of (parameter : Param) : gmap string string :=
  let name := reverse (str_split "/" (Name parameter)) in
  let region := default "" (name !! 0%nat) in
  mapping (default region (name !! 1%nat)) (Value parameter) region.

(** The number of [time.sleep(1)] calls of a trace. *)
Definition slept (t : list (Ev Message Call)) : nat :=
  length (omap (fun c => match c with Sleep => Some tt | _ => None end)
            (calls t)).

(** The calls of the turns of [run_update] that went through, given the
    payloads and the answers of the invocations: each turn is one accepted
    invocation followed by one [time.sleep(1)]. *)
Definition accepted (batchsyncfn : string)
    (payloads : list (gmap string string)) (responses : list Z)
  : list Call :=
  concat (zip_with
            (fun payload response =>
               [Invoke batchsyncfn payload (Some response); Sleep])
            payloads responses).

End Bulk.

(** ** SG2PL-Onboard.py *)

Module Onboard.

Import Run.
#[local] Open Scope run_scope.

(** The environment variables read by the module. *)
Record Config : Type := {
  log_level : Z;
  parameter_store_path : string;
  security_group_quota_padding_percentage : Z;
  security_group_quota_padding_base : Z;
  batch_sync_function_name : string;
}.

(** The keyword arguments of one [create_managed_prefix_list] call:
    [Entries] is [None] when the call site does not pass it. *)
Record CreateRequest : Type := {
  PrefixListName : string;
  Entries : option (list string);
  MaxEntriesAsked : Z;
}.

(** The text of every log line of the module, by call site. *)
Inductive Message : Type :=
| MsgQuotaResult (q : Z)
| MsgDescribeResult (groups : list string)
| MsgDescribeError (e : Exn)
| MsgGetParametersResult (parameters : list Param)
| MsgGetParametersError (e : Exn)
| MsgIpsInSg (l : list string)
| MsgLengthRequired (pllen : Z)
| MsgOverQuota (pllen : Z) (currentquota : Z)
| MsgCreateResult (pl : string)
| MsgInvoking (batchsyncfn : string) (payload : gmap string string)
| MsgInvocationReturned (response : Z)
| MsgPutResult (version : option Z)
| MsgPutError (e : Exn)
| MsgVersionUnparsed (e : Exn)
| MsgSgCalled (sg : string)
| MsgNoSg
| MsgRegionCalled (region : string)
| MsgNoRegion
| MsgNotCreated (e : Exn)
| MsgConfigured (sg pl : string)
| MsgMappingError (sg : string)
| MsgMappingExists (sg region : string)
| MsgSgMissing (sg : string).

(** The client constructions and the API calls of the module, each with its
    answer ([None] when the call raised). *)
Inductive Call : Type :=
| NewClient (service region : string) (built : bool)
| DescribeSecurityGroups (sg : string) (response : option (list string))
| GetParameters (name : string) (response : option (list Param))
| DescribeNetworkInterfaces (sg : string) (response : option (list string))
| GetServiceQuota (response : option Z)
| CreatePrefixList (req : CreateRequest) (response : option string)
| Invoke (batchsyncfn : string) (payload : gmap string string)
    (response : option Z)
| PutParameter (name value : string) (response : option (option Z)).

(** The services the module talks to.  [new_client] is
    [boto3.client(service, region_name=region)]: it is [false] when the
    construction raises.  Every call can raise ([None]).
    [describe_security_groups] answers with the groups found,
    [get_parameters] with the parameters found,
    [create_managed_prefix_list] with [PrefixList.PrefixListId],
    [put_parameter] with the [Version] of its response, if it has one.  The
    quota is a whole number, as for the reconciliation pass. *)
Class Remote (W : Type) : Type := {
  new_client : W -> string -> string -> bool;
  describe_security_groups : W -> string -> option (list string);
  get_parameters : W -> string -> option (list Param);
  describe_network_interfaces : W -> string -> option (list string);
  get_service_quota : W -> option Z;
  create_managed_prefix_list : W -> CreateRequest -> option string * W;
  invoke : W -> string -> gmap string string -> option Z * W;
  put_parameter : W -> string -> string -> option (option Z) * W;
}.

(** [paramstorepath+'/'+sg+'/'+region] *)
Definition parameter_name (paramstorepath sg region : string) : string :=
  paramstorepath +:+ "/" +:+ sg +:+ "/" +:+ region.

(** [(int(os.environ['security_group_quota_padding_percentage'])/100)+1];
    the module computes it when it is loaded, the model where it is used. *)
Definition sgrulepaddingpercentage (cfg : Config) : outcome float :=
  and_then (float_of_int (security_group_quota_padding_percentage cfg))
    (fun p => Ret (float_add (PrimFloat.div p 100%float) 1%float)).

(** [int(len(cidrstoadd)*sgrulepaddingpercentage+sgrulepaddingbase)] *)
Definition required_length (cfg : Config) (n : nat) : outcome Z :=
  and_then (sgrulepaddingpercentage cfg) (fun pct =>
  and_then (float_of_int (Z.of_nat n)) (fun len =>
  and_then (float_of_int (security_group_quota_padding_base cfg)) (fun base =>
  int_of_float (float_add (float_mul len pct) base)))).

Section Handler.

Context {W : Type} {R : Remote W}.
Variable cfg : Config.

Abbreviation Comp := (T (Ev Message Call) W).

Definition log_handler (message : Message) (severity : Z)
    (sendmessage terminate : bool) : Comp unit :=
  Run.log_handler (log_level cfg) message severity sendmessage terminate.

(** A call that reads: it leaves the remote as it is. *)
Definition reading {A} (response : option A) (call : Call) : Comp A :=
  fun w =>
  match response with
  | Some a => (Ok a, w, [Called call])
  | None => (Raise ClientError, w, [Called call])
  end.

(** A call that writes. *)
Definition writing {A} (answer : option A * W) (call : Call) : Comp A :=
  fun _ =>
  match answer with
  | (Some a, w') => (Ok a, w', [Called call])
  | (None, w') => (Raise ClientError, w', [Called call])
  end.

(** [boto3.client(service, region_name=region)] *)
Definition boto3_client (service region : string) : Comp unit := fun w =>
  let built := new_client w service region in
  (if built then Ok tt else Raise InvalidRegionError, w,
   [Called (NewClient service region built)]).

Definition call_describe_security_groups (sg : string)
  : Comp (list string) := fun w =>
  let response := describe_security_groups w sg in
  reading response (DescribeSecurityGroups sg response) w.

Definition call_get_parameters (name : string) : Comp (list Param) :=
  fun w =>
  let response := get_parameters w name in
  reading response (GetParameters name response) w.

Definition call_describe_network_interfaces (sg : string)
  : Comp (list string) := fun w =>
  let response := describe_network_interfaces w sg in
  reading response (DescribeNetworkInterfaces sg response) w.

Definition call_get_service_quota : Comp Z := fun w =>
  let response := get_service_quota w in
  reading response (GetServiceQuota response) w.

Definition call_create_managed_prefix_list (req : CreateRequest)
  : Comp string := fun w =>
  let answer := create_managed_prefix_list w req in
  writing answer (CreatePrefixList req answer.1) w.

Definition call_invoke (payload : gmap string string) : Comp Z := fun w =>
  let batchsyncfn := batch_sync_function_name cfg in
  let answer := invoke w batchsyncfn payload in
  writing answer (Invoke batchsyncfn payload answer.1) w.

Definition call_put_parameter (name value : string) : Comp (option Z) :=
  fun w =>
  let answer := put_parameter w name value in
  writing answer (PutParameter name value answer.1) w.

Definition get_sg_max_entries_quota_value : Comp Z :=
  let* value := call_get_service_quota in
  log_handler (MsgQuotaResult value) 1 false false;;;
  ret value.

Definition sg_existence_check (sg : string) : Comp bool :=
  try_except
    (let* response := call_describe_security_groups sg in
     log_handler (MsgDescribeResult response) 1 false false;;;
     if (length response =? 1)%nat then ret true else ret false)
    (fun e =>
     log_handler (MsgDescribeError e) 2 false false;;;
     ret false).

Definition parameter_not_exist_check (sg region : string) : Comp bool :=
  try_except
    (let nameval := parameter_name (parameter_store_path cfg) sg region in
     let* response := call_get_parameters nameval in
     log_handler (MsgGetParametersResult response) 1 false false;;;
     match response with
     | [] => ret true
     | _ :: _ => ret false
     end)
    (fun e =>
     log_handler (MsgGetParametersError e) 1 false false;;;
     ret true).

Definition get_ips_in_sg (sg : string) : Comp (list string) :=
  let* addrlist := call_describe_network_interfaces sg in
  log_handler (MsgIpsInSg addrlist) 1 false false;;;
  ret addrlist.

(** [create_prefixlist(sg, ec2remote, sqremote, region)]: [None] is what the
    function returns when it falls off its end.  The Lambda client of line
    316 is built without a region name, as the clients that the module builds
    when it is loaded: in a module that was loaded it is built as well. *)
Definition create_prefixlist (sg region : string) : Comp (option string) :=
  let* cidrs := get_ips_in_sg sg in
  let cidrstoadd := map (fun cidr => cidr +:+ "/32") cidrs in
  let* pllen := lift (required_length cfg (length cidrstoadd)) in
  log_handler (MsgLengthRequired pllen) 1 false false;;;
  let* currentquota := get_sg_max_entries_quota_value in
  if pllen >? currentquota then
    log_handler (MsgOverQuota pllen currentquota) 3 false true;;;
    ret None
  else if (length cidrstoadd <? 100)%nat then
    let* pl := call_create_managed_prefix_list
      {| PrefixListName := sg; Entries := Some cidrstoadd;
         MaxEntriesAsked := pllen |} in
    log_handler (MsgCreateResult pl) 1 false false;;;
    ret (Some pl)
  else
    let* pl := call_create_managed_prefix_list
      {| PrefixListName := sg; Entries := None; MaxEntriesAsked := pllen |} in
    log_handler (MsgCreateResult pl) 1 false false;;;
    let payload := mapping sg pl region in
    log_handler (MsgInvoking (batch_sync_function_name cfg) payload)
      1 false false;;;
    let* lambdaresponse := call_invoke payload in
    log_handler (MsgInvocationReturned lambdaresponse) 1 false false;;;
    ret (Some pl).

(** [create_parameter(sg, pl, region)]: a [pl] that is [None] does not pass
    the validation of the call; a response without [Version] raises in the
    second [try]. *)
Definition create_parameter (sg : string) (pl : option string)
    (region : string) : Comp bool :=
  let* response :=
    try_except
      (let* response :=
         match pl with
         | Some value =>
             call_put_parameter
               (parameter_name (parameter_store_path cfg) sg region) value
         | None => raise ClientError
         end in
       log_handler (MsgPutResult response) 1 false false;;;
       ret (Some response))
      (fun e =>
       log_handler (MsgPutError e) 2 false false;;;
       ret None) in
  match response with
  | None => ret false
  | Some (Some version) => if version >? 0 then ret true else ret false
  | Some None =>
      log_handler (MsgVersionUnparsed KeyError) 2 false false;;;
      ret false
  end.

(** One key of the event: lines 377-392 of [lambda_handler]. *)
Definition event_field (event : gmap string string) (key : string)
    (called : string -> Message) (missing : Message) : Comp string :=
  match event !! key with
  | Some v => log_handler (called v) 1 false false;;; ret v
  | None =>
      log_handler missing 3 false true;;;
      raise (PyError UnboundLocalError)
  end.

(** [lambda_handler(event, context)]; the clients of lines 395 and 398 are
    built outside every [try]. *)
Definition lambda_handler (event : gmap string string)
  : Comp (option Message) :=
  let* sg := event_field event "sg" MsgSgCalled MsgNoSg in
  let* region := event_field event "region" MsgRegionCalled MsgNoRegion in
  boto3_client "service-quotas" region;;;
  boto3_client "ec2" region;;;
  let* sg_exists := sg_existence_check sg in
  if sg_exists then
    let* no_mapping := parameter_not_exist_check sg region in
    if no_mapping then
      let* plcreate :=
        try_except (create_prefixlist sg region)
          (fun e =>
           log_handler (MsgNotCreated e) 3 false true;;;
           raise (PyError UnboundLocalError)) in
      let* stored := create_parameter sg plcreate region in
      if stored then
        match plcreate with
        | Some pl =>
            log_handler (MsgConfigured sg pl) 1 false false;;;
            ret (Some (MsgConfigured sg pl))
        | None => raise TypeError
        end
      else
        log_handler (MsgMappingError sg) 3 false true;;;
        ret None
    else
      log_handler (MsgMappingExists sg region) 3 false true;;;
      ret None
  else
    log_handler (MsgSgMissing sg) 3 false true;;;
    ret None.

End Handler.

(** The prefix lists a run created, with what was asked for each. *)
Definition created (t : list (Ev Message Call))
  : list (CreateRequest * string) :=
  omap (fun c => match c with
                 | CreatePrefixList req (Some pl) => Some (req, pl)
                 | _ => None
                 end) (calls t).

(** The mappings a run stored: name and value of each accepted
    [put_parameter]. *)
Definition stored (t : list (Ev Message Call)) : list (string * string) :=
  omap (fun c => match c with
                 | PutParameter name value (Some _) => Some (name, value)
                 | _ => None
                 end) (calls t).

(** The payloads of the invocations of a run. *)
Definition invoked (t : list (Ev Message Call))
  : list (gmap string string) :=
  omap (fun c => match c with
                 | Invoke _ payload _ => Some payload
                 | _ => None
                 end) (calls t).

(** A call that can change the remote. *)
Definition writes (c : Call) : bool :=
  match c with
  | CreatePrefixList _ _ | Invoke _ _ _ | PutParameter _ _ _ => true
  | _ => false
  end.

(** The two clients of lines 395 and 398 can be built for the region. *)
Definition clients_built {W} {R : Remote W} (w : W) (region : string)
  : Prop :=
  new_client w "service-quotas" region = true /\
  new_client w "ec2" region = true.

(** A trace that publishes nothing and holds no call that writes. *)
Definition harmless (t : list (Ev Message Call)) : Prop :=
  published t = [] /\
  Forall (fun c => writes c = false) (calls t).

(** What the handler checks before it creates anything: the security group
    is the one group found, no mapping was found for it (or the lookup
    raised), its addresses were read, and the length required for them is
    within the quota. *)
Definition cleared {W} {R : Remote W} (cfg : Config) (w : W)
    (sg region : string) (cidrs : list string) (pllen : Z) : Prop :=
  (exists g, describe_security_groups w sg = Some [g]) /\
  (get_parameters w (parameter_name (parameter_store_path cfg) sg region)
     = None \/
   get_parameters w (parameter_name (parameter_store_path cfg) sg region)
     = Some []) /\
  describe_network_interfaces w sg = Some cidrs /\
  required_length cfg (length cidrs) = Ret pllen /\
  exists q, get_service_quota w = Some q /\ pllen <= q.

(** The creation asked for the addresses [cidrs]: with its entries when
    they are fewer than 100, empty otherwise. *)
Definition create_request (sg : string) (cidrs : list string) (pllen : Z)
  : CreateRequest :=
  {| PrefixListName := sg;
     Entries := if (length cidrs <? 100)%nat
                then Some (map (fun cidr => cidr +:+ "/32") cidrs) else None;
     MaxEntriesAsked := pllen |}.

End Onboard.

(** ** Simulated services for the two handlers *)

Module BulkSim.

(** The pages of the parameter store, the prefix lists whose invocation
    raises, the payloads received and the seconds slept. *)
Record world : Type := {
  pages : list (list Param);
  refuses : list string;
  received : list (gmap string string);
  clock : nat;
}.

Definition invoke (w : world) (payload : gmap string string)
  : option Z * world :=
  if bool_decide (payload !! "pl" ∈ Some <$> refuses w) then (None, w)
  else
    (Some 202,
     {| pages := pages w; refuses := refuses w;
        received := received w ++ [payload]; clock := clock w |}).

Definition tick (w : world) : world :=
  {| pages := pages w; refuses := refuses w; received := received w;
     clock := S (clock w) |}.

#[global] Instance remote : Bulk.Remote world := {
  Bulk.get_parameters_by_path w _ := pages w;
  Bulk.invoke w _ payload := invoke w payload;
  Bulk.sleep := tick;
}.

Definition cfg : Bulk.Config :=
  {| Bulk.log_level := 1; Bulk.batch_sync_function_name := "batchsync";
     Bulk.parameter_store_path := "/AutoSG2PL" |}.

(** Three mappings on two pages. *)
Definition three : list (list Param) :=
  [[{| Name := "/AutoSG2PL/sg-1/eu-west-1"; Value := "pl-1" |};
    {| Name := "/AutoSG2PL/sg-2/eu-west-1"; Value := "pl-2" |}];
   [{| Name := "/AutoSG2PL/sg-3/us-east-1"; Value := "pl-3" |}]].

Definition healthy : world :=
  {| pages := three; refuses := []; received := []; clock := 0 |}.

(** The invocation for [pl-2] raises. *)
Definition second_refused : world :=
  {| pages := three; refuses := ["pl-2"]; received := []; clock := 0 |}.

End BulkSim.

Module OnboardSim.

(** The security groups that exist, the addresses of their interfaces, the
    parameter store, the quota, the prefix lists created, the payloads
    received, and whether the parameter store is out of reach. *)
Record world : Type := {
  groups : list string;
  addresses : list string;
  parameters : list Param;
  quota : Z;
  lists : list Onboard.CreateRequest;
  received : list (gmap string string);
  store_down : bool;
}.

Definition found (w : world) (name : string) : list Param :=
  filter (fun p => Name p = name) (parameters w).

Definition create (w : world) (req : Onboard.CreateRequest)
  : option string * world :=
  (Some ("pl-" +:+ pretty (S (length (lists w)))),
   {| groups := groups w; addresses := addresses w;
      parameters := parameters w; quota := quota w;
      lists := lists w ++ [req]; received := received w;
      store_down := store_down w |}).

Definition invoke (w : world) (payload : gmap string string)
  : option Z * world :=
  (Some 202,
   {| groups := groups w; addresses := addresses w;
      parameters := parameters w; quota := quota w; lists := lists w;
      received := received w ++ [payload]; store_down := store_down w |}).

(** [Overwrite=False]: a name that is taken is refused. *)
Definition put (w : world) (name value : string)
  : option (option Z) * world :=
  if store_down w then (None, w)
  else
    match found w name with
    | [] =>
        (Some (Some 1),
         {| groups := groups w; addresses := addresses w;
            parameters := parameters w ++ [{| Name := name; Value := value |}];
            quota := quota w; lists := lists w; received := received w;
            store_down := store_down w |})
    | _ :: _ => (None, w)
    end.

(** The simulated boto3 builds a client for a region name of lower-case
    letters, digits and hyphens, and refuses any other. *)
Definition region_accepted (region : string) : bool :=
  negb (String.eqb region "")
  && forallb (fun c =>
                let n := nat_of_ascii c in
                ((97 <=? n) && (n <=? 122) || (48 <=? n) && (n <=? 57)
                 || (n =? 45))%nat)
       (list_ascii_of_string region).

#[global] Instance remote : Onboard.Remote world := {
  Onboard.new_client _ _ region := region_accepted region;
  Onboard.describe_security_groups w sg :=
    Some (filter (fun g => g = sg) (groups w));
  Onboard.get_parameters w name :=
    if store_down w then None else Some (found w name);
  Onboard.describe_network_interfaces w _ := Some (addresses w);
  Onboard.get_service_quota w := Some (quota w);
  Onboard.create_managed_prefix_list := create;
  Onboard.invoke w _ payload := invoke w payload;
  Onboard.put_parameter := put;
}.

(** Log level 1, padding 10 percent and 5 entries. *)
Definition cfg : Onboard.Config :=
  {| Onboard.log_level := 1; Onboard.parameter_store_path := "/AutoSG2PL";
     Onboard.security_group_quota_padding_percentage := 10;
     Onboard.security_group_quota_padding_base := 5;
     Onboard.batch_sync_function_name := "batchsync" |}.

Definition account (ips : list string) (params : list Param) (q : Z)
    (down : bool) : world :=
  {| groups := ["sg-1"; "sg-2"]; addresses := ips; parameters := params;
     quota := q; lists := []; received := []; store_down := down |}.

Definition request : gmap string string :=
  {[ "sg" := "sg-1"; "region" := "eu-west-1" ]}.

(** A request for a region name that boto3 does not accept. *)
Definition misspelt : gmap string string :=
  {[ "sg" := "sg-1"; "region" := "not a region" ]}.

(** A group of 3 addresses, no mapping yet. *)
Definition fresh : world := account (Sim.addresses 3) [] 1000 false.

(** A group of 120 addresses. *)
Definition large : world := account (Sim.addresses 120) [] 1000 false.

(** The group has a mapping already. *)
Definition mapped : world :=
  account (Sim.addresses 3)
    [{| Name := "/AutoSG2PL/sg-1/eu-west-1"; Value := "pl-9" |}] 1000 false.

(** The parameter store is out of reach. *)
Definition unreachable : world := account (Sim.addresses 3) [] 1000 true.

(** A quota of 8 for a group of 3 addresses. *)
Definition tight : world := account (Sim.addresses 3) [] 8 false.

End OnboardSim.

(** ** Running computations *)

Section Runs.

Context {W : Type} {R : Remote W}.
Variable cfg : Config.

Lemma after_nil {A} (r : outcome A * W * list Event) : after [] r = r.
Proof. by destruct r as [[o w] t]. Qed.

Lemma after_after {A} t1 t2 (r : outcome A * W * list Event) :
  after t1 (after t2 r) = after (t1 ++ t2) r.
Proof. destruct r as [[o w] t]; simpl. by rewrite app_assoc. Qed.

Lemma bind_ret {A B} (a : A) (f : A -> M W B) w : bind (ret a) f w = f a w.
Proof. unfold bind, ret. by destruct (f a w) as [[o w'] t]. Qed.

Lemma bind_emit {B} e (f : unit -> M W B) w :
  bind (emit e) f w = after [e] (f tt w).
Proof. reflexivity. Qed.

Lemma bind_assoc {A B C} (m : M W A) (f : A -> M W B) (g : B -> M W C) w :
  bind (bind m f) g w = bind m (fun a => bind (f a) g) w.
Proof.
  unfold bind. destruct (m w) as [[[a| |e|] w1] t1]; try done.
  destruct (f a w1) as [[[b| |e|] w2] t2]; try done.
  destruct (g b w2) as [[o w3] t3]. by rewrite app_assoc.
Qed.

(** A computation that returns hands its result to what follows. *)
Lemma bind_run_ret {A B} (m : M W A) (f : A -> M W B) w a w1 t1 :
  m w = (Ret a, w1, t1) -> bind m f w = after t1 (f a w1).
Proof. intros E. unfold bind. by rewrite E. Qed.

(** A computation that does not return ends what follows. *)
Lemma bind_run_exit {A B} (m : M W A) (f : A -> M W B) w w1 t1 :
  m w = (SysExit, w1, t1) -> bind m f w = (SysExit, w1, t1).
Proof. intros E. unfold bind. by rewrite E. Qed.

Lemma bind_run_raised {A B} (m : M W A) (f : A -> M W B) w e w1 t1 :
  m w = (Raised e, w1, t1) -> bind m f w = (Raised e, w1, t1).
Proof. intros E. unfold bind. by rewrite E. Qed.

Lemma bind_run_timeout {A B} (m : M W A) (f : A -> M W B) w w1 t1 :
  m w = (Timeout, w1, t1) -> bind m f w = (Timeout, w1, t1).
Proof. intros E. unfold bind. by rewrite E. Qed.

(** What a returning sequence is made of. *)
Lemma bind_ret_inv {A B} (m : M W A) (f : A -> M W B) w b w' t :
  bind m f w = (Ret b, w', t) ->
  exists a w1 t1 t2,
    m w = (Ret a, w1, t1) /\ f a w1 = (Ret b, w', t2) /\ t = t1 ++ t2.
Proof.
  unfold bind. destruct (m w) as [[[a| |e|] w1] t1]; try done.
  destruct (f a w1) as [[o w2] t2] eqn:E. intros [= -> -> <-].
  by exists a, w1, t1, t2.
Qed.

Lemma log_handler_run message severity sendmessage terminate (w : W) :
  log_handler cfg message severity sendmessage terminate w =
    (if terminate then SysExit else Ret tt, w,
     log_events cfg message severity sendmessage).
Proof. unfold log_handler, log_events. by destruct sendmessage, terminate. Qed.

Lemma bind_log {B} message severity sendmessage (f : unit -> M W B) w :
  bind (log_handler cfg message severity sendmessage false) f w =
    after (log_events cfg message severity sendmessage) (f tt w).
Proof. apply bind_run_ret, log_handler_run. Qed.

Lemma bind_log_exit {B} message severity sendmessage (f : unit -> M W B) w :
  bind (log_handler cfg message severity sendmessage true) f w =
    (SysExit, w, log_events cfg message severity sendmessage).
Proof. apply bind_run_exit, log_handler_run. Qed.

Lemma mods_app t1 t2 : mods (t1 ++ t2) = mods t1 ++ mods t2.
Proof. apply omap_app. Qed.

Lemma mods_log message severity sendmessage :
  mods (log_events cfg message severity sendmessage) = [].
Proof. unfold log_events. by destruct sendmessage. Qed.

End Runs.

(** ** Properties that every call keeps *)

Section Families.

Context {W : Type} {R : Remote W}.
Variable cfg : Config.
Context (Q : W -> W -> list Event -> Prop) `{!Stepwise Q}.

Lemma step_all w t : Forall (fun e => routine e = true) t -> Q w w t.
Proof.
  induction 1 as [|e t He _ IH]; [apply step_nil|].
  change (e :: t) with ([e] ++ t).
  eapply step_app; [by apply step_routine|done].
Qed.

Lemma holds_still {A} (m : M W A) :
  (forall w, (m w).1.2 = w /\ (m w).2 = []) -> holds Q m.
Proof. intros H w. destruct (H w) as [-> ->]. apply step_nil. Qed.

Lemma holds_ret {A} (a : A) : holds Q (ret a).
Proof. by apply holds_still. Qed.

Lemma holds_lift {A} (o : outcome A) : holds Q (lift o).
Proof. by apply holds_still. Qed.

Lemma holds_bind {A B} (m : M W A) (f : A -> M W B) :
  holds Q m -> (forall a, holds Q (f a)) -> holds Q (bind m f).
Proof.
  intros Hm Hf w. specialize (Hm w). unfold bind.
  destruct (m w) as [[[a| |e|] w1] t1]; simpl in *; try done.
  specialize (Hf a w1). destruct (f a w1) as [[o w2] t2]; simpl in *.
  by eapply step_app.
Qed.

Lemma holds_after {A} w0 t0 w (r : outcome A * W * list Event) :
  Q w0 w t0 -> Q w r.1.2 r.2 -> Q w0 (after t0 r).1.2 (after t0 r).2.
Proof. destruct r as [[o w'] t]; simpl. apply step_app. Qed.

Lemma holds_log_events w message severity sendmessage :
  routine (Print INFO message) = true ->
  Q w w (log_events cfg message severity sendmessage).
Proof.
  intros Hm. apply step_all. unfold log_events.
  destruct sendmessage; repeat constructor; by destruct message.
Qed.

Lemma holds_log message severity sendmessage terminate :
  routine (Print INFO message) = true ->
  holds Q (log_handler cfg message severity sendmessage terminate).
Proof.
  intros Hm w. rewrite log_handler_run. simpl. by apply holds_log_events.
Qed.

Lemma holds_pl_info pl : holds Q (pl_info cfg pl).
Proof.
  unfold pl_info. apply holds_bind; [intros w; by apply step_routine|].
  intros info. apply holds_bind; [by apply holds_log|]. intros _.
  apply holds_ret.
Qed.

Lemma holds_pl_ready pl : holds Q (pl_ready cfg pl).
Proof.
  unfold pl_ready. apply holds_bind; [intros w; by apply step_routine|].
  intros info. apply holds_bind; [by apply holds_log|]. intros _.
  repeat match goal with
  | |- holds _ (if ?c then _ else _) => destruct c
  | |- holds _ (bind _ _) => apply holds_bind; [by apply holds_log|intros _]
  | |- holds _ (ret _) => apply holds_ret
  end.
Qed.

Lemma holds_while_not_ready fuel pl plstatus :
  holds Q (while_not_ready cfg fuel pl plstatus).
Proof.
  revert plstatus. induction fuel as [|fuel IH]; intros plstatus; simpl;
    destruct (truthy plstatus); try apply holds_ret; try by apply holds_still.
  apply holds_bind; [intros w; apply step_sleep|]. intros _.
  apply holds_bind; [apply holds_pl_ready|]. apply IH.
Qed.

Lemma holds_wait_until_ready fuel pl :
  holds Q (wait_until_ready cfg fuel pl).
Proof.
  unfold wait_until_ready. apply holds_bind; [apply holds_pl_ready|].
  apply holds_while_not_ready.
Qed.

End Families.

(** ** The state poller *)

Section Poller.

Context {W : Type} {R : Remote W}.
Variable cfg : Config.

(** A probe that answers [True] saw one of the three ready states, and no
    probe changes the remote. *)
Lemma pl_ready_true pl w s w' t :
  pl_ready cfg pl w = (Ret s, w', t) ->
  w' = w /\
  (truthy s = true ->
   ready_state (State (describe_managed_prefix_lists w pl)) = true).
Proof.
  unfold pl_ready, call_describe_managed_prefix_lists.
  rewrite (bind_run_ret _ _ w _ _ _ eq_refl), bind_log.
  unfold ready_state.
  repeat match goal with
  | |- context [if String.eqb ?a ?b then _ else _] =>
      destruct (String.eqb a b) eqn:?
  end;
  rewrite ?bind_log_exit, ?bind_ret; simpl; intros [= <- <- <-];
  (split; [done|]); simpl; try done; intros _;
  repeat match goal with
  | H : String.eqb _ _ = true |- _ => apply String.eqb_eq in H; rewrite H
  end; done.
Qed.

Lemma while_not_ready_ret fuel pl : forall s w w' t,
  (truthy s = true ->
   ready_state (State (describe_managed_prefix_lists w pl)) = true) ->
  while_not_ready cfg fuel pl s w = (Ret tt, w', t) ->
  ready_state (State (describe_managed_prefix_lists w' pl)) = true.
Proof.
  induction fuel as [|fuel IH]; intros s w w' t Hs; simpl;
    destruct (truthy s) eqn:Es.
  - intros [= <- <-]. by apply Hs.
  - done.
  - intros [= <- <-]. by apply Hs.
  - intros H. apply bind_ret_inv in H as (_ & w1 & t1 & t2 & _ & H & _).
    apply bind_ret_inv in H as (s' & w2 & t3 & t4 & Hp & H & _).
    apply pl_ready_true in Hp as [-> Hp]. by eapply IH.
Qed.

(** When the polling block returns, the list is in a ready state. *)
Lemma wait_until_ready_ret fuel pl w w' t :
  wait_until_ready cfg fuel pl w = (Ret tt, w', t) ->
  ready_state (State (describe_managed_prefix_lists w' pl)) = true.
Proof.
  unfold wait_until_ready. intros H.
  apply bind_ret_inv in H as (s & w1 & t1 & t2 & Hp & H & _).
  apply pl_ready_true in Hp as [-> Hp]. by eapply while_not_ready_ret.
Qed.

End Poller.

(** ** Pagination *)

Section Pagination.

Context {A : Type}.

Lemma paginate_unfold (l : list A) :
  paginate l =
    map (fun k => take 99 (drop (k * 99) l))
        (seq 0 ((length l + 98) `div` 99)%nat).
Proof.
  unfold paginate, range, slice. rewrite map_map.
  rewrite Nat.sub_0_r. apply map_ext. intros k. simpl.
  by replace (k * 99 + 99 - k * 99)%nat with 99%nat by lia.
Qed.

Lemma concat_chunks (l : list A) n : forall a,
  concat (map (fun k => take 99 (drop (k * 99) l)) (seq a n)) =
    take (n * 99) (drop (a * 99) l).
Proof.
  induction n as [|n IH]; intros a; simpl; [done|].
  rewrite IH. replace (S a * 99)%nat with (a * 99 + 99)%nat by lia.
  rewrite <- drop_drop. apply take_take_drop.
Qed.

(** The pages, put end to end, are the list. *)
Lemma concat_paginate (l : list A) : concat (paginate l) = l.
Proof.
  rewrite paginate_unfold, concat_chunks. apply take_ge.
  change (drop (0 * 99) l) with l.
  pose proof (Nat.div_mod (length l + 98) 99 ltac:(done)).
  pose proof (Nat.mod_upper_bound (length l + 98) 99 ltac:(done)). lia.
Qed.


End Pagination.

(** ** The calls that mutate *)

Section Mutators.

Context {W : Type} {R : Remote W}.
Variable cfg : Config.

Lemma pl_info_run pl w :
  pl_info cfg pl w =
    (Ret (describe_managed_prefix_lists w pl), w,
     Describe pl (describe_managed_prefix_lists w pl)
       :: log_events cfg
            (MsgDescribeResult (describe_managed_prefix_lists w pl)) 1 false).
Proof.
  unfold pl_info, call_describe_managed_prefix_lists.
  rewrite (bind_run_ret _ _ w _ _ _ eq_refl), bind_log. reflexivity.
Qed.

Lemma call_modify_run req w resp w' :
  modify_managed_prefix_list w req = (resp, w') ->
  call_modify_managed_prefix_list req w = (Ret resp, w', [Modify req resp]).
Proof. intros E. unfold call_modify_managed_prefix_list. by rewrite E. Qed.

Context (Q : W -> W -> list Event -> Prop) `{!Stepwise Q}.
Variable pl : string.

(** A polling block that does not return ends the run it is part of. *)
Ltac stopped Ew Hw :=
  first [ rewrite (bind_run_exit _ _ _ _ _ Ew)
        | rewrite (bind_run_raised _ _ _ _ _ _ Ew)
        | rewrite (bind_run_timeout _ _ _ _ _ Ew) ];
  exact Hw.

Lemma holds_remove_pages_with fuel pages :
  (forall w page resp w',
     page ∈ pages ->
     let info := describe_managed_prefix_lists w pl in
     ready_state (State info) = true ->
     let req := remove_request pl (Version info) page in
     modify_managed_prefix_list w req = (resp, w') ->
     Q w w' (Describe pl info :: log_events cfg (MsgDescribeResult info) 1 false
               ++ [Modify req resp])) ->
  forall version, holds Q (remove_pages cfg fuel pl pages version).
Proof.
  induction pages as [|page rest IH]; intros Hadm version w; simpl.
  { apply step_nil. }
  pose proof (holds_wait_until_ready cfg Q fuel pl w) as Hw.
  destruct (wait_until_ready cfg fuel pl w) as [[o w1] t1] eqn:Ew.
  destruct o as [[]| | |]; [|stopped Ew Hw..].
  rewrite (bind_run_ret _ _ _ _ _ _ Ew).
  apply (holds_after Q _ _ w1); [exact Hw|].
  rewrite (bind_run_ret _ _ _ _ _ _ (pl_info_run pl w1)).
  set (info := describe_managed_prefix_lists w1 pl).
  destruct (modify_managed_prefix_list w1
              (remove_request pl (Version info) page)) as [resp w2] eqn:Em.
  rewrite (bind_run_ret _ _ _ _ _ _ (call_modify_run _ _ _ _ Em)).
  rewrite after_after. apply (holds_after Q _ _ w2).
  { apply Hadm; [by left| |done]. by eapply wait_until_ready_ret. }
  destruct resp as [version'|].
  - rewrite bind_log. apply (holds_after Q _ _ w2).
    + by apply (holds_log_events cfg Q).
    + apply IH. intros w' p resp' w'' Hp. apply Hadm. by right.
  - rewrite bind_log_exit. by apply (holds_log_events cfg Q).
Qed.

Lemma holds_add_pages_with fuel pages :
  (forall w page resp w',
     page ∈ pages ->
     let info := describe_managed_prefix_lists w pl in
     ready_state (State info) = true ->
     let req := add_request pl (Version info) page in
     modify_managed_prefix_list w req = (resp, w') ->
     Q w w' (Describe pl info :: log_events cfg (MsgDescribeResult info) 1 false
               ++ [Modify req resp])) ->
  forall version, holds Q (add_pages cfg fuel pl pages version).
Proof.
  induction pages as [|page rest IH]; intros Hadm version w; simpl.
  { apply step_nil. }
  pose proof (holds_wait_until_ready cfg Q fuel pl w) as Hw.
  destruct (wait_until_ready cfg fuel pl w) as [[o w1] t1] eqn:Ew.
  destruct o as [[]| | |]; [|stopped Ew Hw..].
  rewrite (bind_run_ret _ _ _ _ _ _ Ew).
  apply (holds_after Q _ _ w1); [exact Hw|].
  rewrite (bind_run_ret _ _ _ _ _ _ (pl_info_run pl w1)).
  set (info := describe_managed_prefix_lists w1 pl).
  destruct (modify_managed_prefix_list w1
              (add_request pl (Version info) page)) as [resp w2] eqn:Em.
  rewrite (bind_run_ret _ _ _ _ _ _ (call_modify_run _ _ _ _ Em)).
  rewrite after_after. apply (holds_after Q _ _ w2).
  { apply Hadm; [by left| |done]. by eapply wait_until_ready_ret. }
  destruct resp as [version'|].
  - rewrite bind_log. apply (holds_after Q _ _ w2).
    + by apply (holds_log_events cfg Q).
    + apply IH. intros w' p resp' w'' Hp. apply Hadm. by right.
  - rewrite bind_log_exit. by apply (holds_log_events cfg Q).
Qed.

Context (region : string) (toadd toremove : gset string).
Context (newlength currentquota : Z).
Context (HA : Admits cfg Q pl region toadd toremove newlength currentquota).

Lemma holds_remove_cidr_from_pl fuel version :
  holds Q (remove_cidr_from_pl cfg fuel pl toremove version).
Proof.
  unfold remove_cidr_from_pl.
  apply (holds_bind Q); [by apply (holds_log cfg Q)|]. intros _.
  apply (holds_bind Q); [by apply (holds_log cfg Q)|]. intros _.
  apply holds_remove_pages_with. intros w page resp w'.
  apply (admits_remove _ _ _ _ _ _ _ _ HA).
Qed.

Lemma holds_add_cidr_to_pl fuel version :
  holds Q (add_cidr_to_pl cfg fuel pl toadd version).
Proof.
  unfold add_cidr_to_pl.
  apply (holds_bind Q); [by apply (holds_log cfg Q)|]. intros _.
  apply (holds_bind Q); [by apply (holds_log cfg Q)|]. intros _.
  apply holds_add_pages_with. intros w page resp w'.
  apply (admits_add _ _ _ _ _ _ _ _ HA).
Qed.

Lemma holds_call_modify req :
  (forall w resp w',
     modify_managed_prefix_list w req = (resp, w') ->
     Q w w' [Modify req resp]) ->
  holds Q (call_modify_managed_prefix_list req).
Proof.
  intros H w. unfold call_modify_managed_prefix_list.
  destruct (modify_managed_prefix_list w req) as [resp w'] eqn:E. by apply H.
Qed.

Lemma holds_update_cidrs_in_pl version :
  (size toadd < 100)%nat -> (size toremove < 100)%nat ->
  holds Q (update_cidrs_in_pl cfg pl toremove toadd version).
Proof.
  intros Ha Hr. unfold update_cidrs_in_pl.
  apply (holds_bind Q); [by apply (holds_log cfg Q)|]. intros _.
  apply (holds_bind Q); [by apply (holds_log cfg Q)|]. intros _.
  apply (holds_bind Q).
  { apply holds_call_modify. intros w resp w'.
    by apply (admits_update _ _ _ _ _ _ _ _ HA). }
  intros [v|]; (apply (holds_bind Q); [by apply (holds_log cfg Q)|]); intros _;
    apply (holds_ret Q).
Qed.

Lemma holds_pl_resize newplsize :
  holds Q (pl_resize cfg pl currentquota newplsize).
Proof.
  unfold pl_resize. apply (holds_bind Q); [apply (holds_lift Q)|]. intros newmaxent.
  apply (holds_bind Q).
  { destruct (newmaxent >? currentquota); [|apply (holds_ret Q)].
    apply (holds_bind Q); [by apply (holds_log cfg Q)|]. intros _. apply (holds_ret Q). }
  intros newmaxent'. apply (holds_bind Q).
  { apply holds_call_modify. intros w resp w'.
    by apply (admits_resize _ _ _ _ _ _ _ _ HA). }
  intros [v|]; (apply (holds_bind Q); [by apply (holds_log cfg Q)|]); intros _;
    apply (holds_ret Q).
Qed.

Lemma holds_apply_changes fuel plinfo :
  holds Q (apply_changes cfg fuel pl toadd toremove plinfo).
Proof.
  unfold apply_changes, remove_phase, add_phase, when.
  destruct (((len toadd >? 0) || (len toremove >? 0))
            && (len toadd <? 100) && (len toremove <? 100)) eqn:Hc;
    [|destruct (((len toadd >? 0) || (len toremove >? 0))
               && ((len toadd >? 100) || (len toremove >? 100)))].
  - apply andb_prop in Hc as [Hc Hr]. apply andb_prop in Hc as [_ Ha].
    unfold len in Ha, Hr.
    apply (holds_bind Q); [apply (holds_wait_until_ready cfg Q); done|].
    intros _. apply (holds_bind Q); [by apply (holds_log cfg Q)|]. intros _.
    apply (holds_bind Q); [|intros; apply (holds_ret Q)].
    apply holds_update_cidrs_in_pl; lia.
  - apply (holds_bind Q).
    + destruct (len toremove >? 0); [|apply (holds_ret Q)].
      apply (holds_bind Q); [apply (holds_wait_until_ready cfg Q); done|].
      intros _. apply (holds_bind Q); [by apply (holds_log cfg Q)|]. intros _.
      apply (holds_bind Q); [apply holds_remove_cidr_from_pl|].
      intros; apply (holds_ret Q).
    + intros _. destruct (len toadd >? 0); [|apply (holds_ret Q)].
      apply (holds_bind Q); [apply (holds_wait_until_ready cfg Q); done|].
      intros _. apply (holds_bind Q); [by apply (holds_log cfg Q)|]. intros _.
      apply (holds_bind Q); [by apply (holds_pl_info cfg Q)|]. intros info.
      apply (holds_bind Q); [apply holds_add_cidr_to_pl|].
      intros; apply (holds_ret Q).
  - by apply (holds_log cfg Q).
Qed.

Lemma holds_check_quota :
  holds Q (check_quota cfg pl region currentquota newlength).
Proof.
  unfold check_quota, when. destruct (currentquota - newlength <? 1) eqn:Hq.
  - intros w. rewrite log_handler_run. simpl.
    apply (admits_quota _ _ _ _ _ _ _ _ HA). lia.
  - apply (holds_bind Q); [apply (holds_lift Q)|]. intros [|]; simpl;
      [by apply (holds_log cfg Q)|apply (holds_ret Q)].
Qed.

Lemma holds_finish_pass fuel sg plinfo :
  holds Q (finish_pass cfg fuel sg pl region toadd toremove newlength plinfo
             currentquota).
Proof.
  unfold finish_pass. apply (holds_bind Q); [apply holds_check_quota|]. intros _.
  apply (holds_bind Q).
  { destruct (MaxEntries plinfo <? newlength); [|apply holds_apply_changes].
    apply (holds_bind Q); [apply holds_pl_resize|]. intros _.
    by apply (holds_wait_until_ready cfg Q). }
  intros _. apply (holds_bind Q); [by apply (holds_log cfg Q)|]. intros _.
  apply (holds_ret Q).
Qed.

End Mutators.

(** ** The pass as a whole *)

Section Pass.

Context {W : Type} {R : Remote W}.
Variable cfg : Config.

Lemma event_field_some {B} event key called missing v (f : string -> M W B) w :
  event !! key = Some v ->
  bind (event_field cfg event key called missing) f w =
    after (log_events cfg (called v) 1 false) (f v w).
Proof.
  intros E. unfold event_field. rewrite E, bind_assoc, bind_log.
  by rewrite bind_ret.
Qed.

Lemma event_field_none {B} event key called missing (f : string -> M W B) w :
  event !! key = None ->
  bind (event_field cfg event key called missing) f w =
    (SysExit, w, log_events cfg missing 3 true).
Proof.
  intros E. unfold event_field. by rewrite E, bind_assoc, bind_log_exit.
Qed.

Lemma get_ips_in_sg_run {B} sg (f : list string -> M W B) w :
  bind (get_ips_in_sg cfg sg) f w =
    after (DescribeENIs sg
             :: log_events cfg (MsgIpsInSg (describe_network_interfaces w sg))
                  1 false)
      (f (describe_network_interfaces w sg) w).
Proof.
  unfold get_ips_in_sg, call_describe_network_interfaces.
  rewrite bind_assoc, (bind_run_ret _ _ w _ _ _ eq_refl), bind_assoc, bind_log.
  rewrite bind_ret, after_after. reflexivity.
Qed.

Lemma get_ips_in_pl_run {B} pl (f : list string -> M W B) w :
  bind (get_ips_in_pl cfg pl) f w =
    match ips_of_entries (get_managed_prefix_list_entries w pl) with
    | Ret pliplist =>
        after (GetEntries pl :: log_events cfg (MsgIpsInPl pliplist) 1 false)
          (f pliplist w)
    | SysExit => (SysExit, w, [GetEntries pl])
    | Raised e => (Raised e, w, [GetEntries pl])
    | Timeout => (Timeout, w, [GetEntries pl])
    end.
Proof.
  unfold get_ips_in_pl, call_get_managed_prefix_list_entries.
  rewrite bind_assoc, (bind_run_ret _ _ w _ _ _ eq_refl), bind_assoc.
  destruct (ips_of_entries _) as [l| |e|] eqn:E.
  - rewrite (bind_run_ret _ _ w l w [] eq_refl), after_nil.
    rewrite bind_assoc, bind_log, bind_ret, after_after. reflexivity.
  - reflexivity.
  - reflexivity.
  - reflexivity.
Qed.

Lemma get_sg_max_entries_quota_value_run {B} (f : Z -> M W B) w :
  bind (get_sg_max_entries_quota_value cfg) f w =
    after (GetQuota (get_service_quota w)
             :: log_events cfg (MsgQuotaResult (get_service_quota w)) 1 false)
      (f (get_service_quota w) w).
Proof.
  unfold get_sg_max_entries_quota_value, call_get_service_quota.
  rewrite bind_assoc, (bind_run_ret _ _ w _ _ _ eq_refl), bind_assoc, bind_log.
  rewrite bind_ret, after_after. reflexivity.
Qed.

(** A pass whose event is complete and whose prefix list reads well is its
    reads followed by [finish_pass] on what they returned. *)
Lemma lambda_handler_run fuel event w sg pl region pliplist :
  event !! "sg" = Some sg -> event !! "pl" = Some pl ->
  event !! "region" = Some region ->
  ips_of_entries (get_managed_prefix_list_entries w pl) = Ret pliplist ->
  let sgiplist := describe_network_interfaces w sg in
  let plinfo := describe_managed_prefix_lists w pl in
  let currentquota := get_service_quota w in
  lambda_handler cfg fuel event w =
    after (reads_trace cfg sg pl region sgiplist pliplist plinfo currentquota)
      (finish_pass cfg fuel sg pl region (itemstoadd sgiplist pliplist)
         (itemstoremove sgiplist pliplist) (newpllength sgiplist pliplist)
         plinfo currentquota w).
Proof.
  intros Hsg Hpl Hregion Hips. simpl. unfold lambda_handler.
  rewrite (event_field_some _ _ _ _ _ _ _ Hsg).
  rewrite (event_field_some _ _ _ _ _ _ _ Hpl).
  rewrite (event_field_some _ _ _ _ _ _ _ Hregion).
  rewrite !bind_log, get_ips_in_sg_run, get_ips_in_pl_run, Hips, !bind_log.
  rewrite (bind_run_ret _ _ _ _ _ _ (pl_info_run cfg pl w)).
  rewrite get_sg_max_entries_quota_value_run.
  rewrite !after_after. reflexivity.
Qed.

Lemma reads_trace_routine sg pl region sgiplist pliplist plinfo currentquota :
  Forall (fun e => routine e = true)
    (reads_trace cfg sg pl region sgiplist pliplist plinfo currentquota).
Proof. unfold reads_trace, log_events. simpl. repeat constructor. Qed.

(** What holds of the reads and is admitted for the sets they yield holds
    of the pass. *)
Lemma holds_lambda_handler (Q : W -> W -> list Event -> Prop) `{!Stepwise Q}
    fuel event w :
  (forall sg pl region pliplist,
     event !! "sg" = Some sg -> event !! "pl" = Some pl ->
     event !! "region" = Some region ->
     ips_of_entries (get_managed_prefix_list_entries w pl) = Ret pliplist ->
     let sgiplist := describe_network_interfaces w sg in
     Admits cfg Q pl region (itemstoadd sgiplist pliplist)
       (itemstoremove sgiplist pliplist) (newpllength sgiplist pliplist)
       (get_service_quota w)) ->
  Q w (lambda_handler cfg fuel event w).1.2 (lambda_handler cfg fuel event w).2.
Proof.
  intros HA.
  destruct (event !! "sg") as [sg|] eqn:Hsg; cycle 1.
  { unfold lambda_handler. rewrite (event_field_none _ _ _ _ _ _ Hsg). simpl.
    by apply (holds_log_events cfg Q). }
  destruct (event !! "pl") as [pl|] eqn:Hpl; cycle 1.
  { unfold lambda_handler. rewrite (event_field_some _ _ _ _ _ _ _ Hsg).
    rewrite (event_field_none _ _ _ _ _ _ Hpl).
    apply (holds_after Q _ _ w); by apply (holds_log_events cfg Q). }
  destruct (event !! "region") as [region|] eqn:Hregion; cycle 1.
  { unfold lambda_handler. rewrite (event_field_some _ _ _ _ _ _ _ Hsg).
    rewrite (event_field_some _ _ _ _ _ _ _ Hpl).
    rewrite (event_field_none _ _ _ _ _ _ Hregion).
    apply (holds_after Q _ _ w); [by apply (holds_log_events cfg Q)|].
    apply (holds_after Q _ _ w); by apply (holds_log_events cfg Q). }
  destruct (ips_of_entries (get_managed_prefix_list_entries w pl))
    as [pliplist| |e|] eqn:Hips.
  - rewrite (lambda_handler_run _ _ _ _ _ _ _ Hsg Hpl Hregion Hips).
    apply (holds_after Q _ _ w).
    + apply (step_all Q), reads_trace_routine.
    + eapply holds_finish_pass; [done|]. by eapply HA.
  - unfold lambda_handler.
    rewrite (event_field_some _ _ _ _ _ _ _ Hsg).
    rewrite (event_field_some _ _ _ _ _ _ _ Hpl).
    rewrite (event_field_some _ _ _ _ _ _ _ Hregion).
    rewrite !bind_log, get_ips_in_sg_run, get_ips_in_pl_run, Hips.
    rewrite !after_after. simpl. apply (step_all Q).
    unfold log_events. simpl. repeat constructor.
  - unfold lambda_handler.
    rewrite (event_field_some _ _ _ _ _ _ _ Hsg).
    rewrite (event_field_some _ _ _ _ _ _ _ Hpl).
    rewrite (event_field_some _ _ _ _ _ _ _ Hregion).
    rewrite !bind_log, get_ips_in_sg_run, get_ips_in_pl_run, Hips.
    rewrite !after_after. simpl. apply (step_all Q).
    unfold log_events. simpl. repeat constructor.
  - unfold lambda_handler.
    rewrite (event_field_some _ _ _ _ _ _ _ Hsg).
    rewrite (event_field_some _ _ _ _ _ _ _ Hpl).
    rewrite (event_field_some _ _ _ _ _ _ _ Hregion).
    rewrite !bind_log, get_ips_in_sg_run, get_ips_in_pl_run, Hips.
    rewrite !after_after. simpl. apply (step_all Q).
    unfold log_events. simpl. repeat constructor.
Qed.

End Pass.

(** ** Reading the entries of a prefix list *)

Section Entries.

Lemma str_split_head (s : string) :
  exists h t, str_split "/" s = h :: t /\ no_slash h = true.
Proof.
  induction s as [|c s (h & t & E & Hh)]; simpl.
  - by exists "", [].
  - destruct (Ascii.eqb c "/") eqn:Ec.
    + by exists "", (str_split "/" s).
    + rewrite E. exists (String c h), t. simpl. by rewrite Ec, Hh.
Qed.

(** The part before the slash always exists and holds no slash. *)
Lemma entry_addr_ret (cidr : string) :
  exists a, entry_addr cidr = Ret a /\ no_slash a = true.
Proof.
  destruct (str_split_head cidr) as (h & t & E & Hh).
  exists h. unfold entry_addr. by rewrite E.
Qed.

Lemma str_split_host (a : string) :
  no_slash a = true -> str_split "/" (a +:+ "/32") = [a; "32"].
Proof.
  induction a as [|c a IH]; simpl; [done|].
  intros [Hc Ha]%andb_prop. apply negb_true_iff in Hc. rewrite Hc.
  by rewrite (IH Ha).
Qed.

(** [a/32] reads as the host address [a]. *)
Lemma host_entry (a : string) :
  no_slash a = true ->
  entry_mask (a +:+ "/32") = Ret 32 /\ entry_addr (a +:+ "/32") = Ret a.
Proof.
  intros Ha. unfold entry_mask, entry_addr. by rewrite (str_split_host a Ha).
Qed.

Lemma length_append (a s : string) :
  String.length (a +:+ s) = (String.length a + String.length s)%nat.
Proof. induction a as [|c a IH]; simpl; [done|]. by rewrite IH. Qed.

Lemma append_inj_l (a b s : string) : a +:+ s = b +:+ s -> a = b.
Proof.
  intros H. apply (f_equal String.length) in H as Hlen.
  rewrite !length_append in Hlen.
  revert b H Hlen. induction a as [|c a IH]; intros [|d b]; simpl; try lia.
  - done.
  - intros [= -> H] Hl. f_equal. apply IH; [done|lia].
Qed.

Lemma ips_of_entries_cons cidr rest l :
  ips_of_entries (cidr :: rest) = Ret l ->
  exists mask l',
    entry_mask cidr = Ret mask /\ ips_of_entries rest = Ret l' /\
    ((mask = 32 /\ exists a, entry_addr cidr = Ret a /\ l = a :: l') \/
     (mask <> 32 /\ l = l')).
Proof.
  simpl. destruct (entry_mask cidr) as [mask| | |]; simpl; try done.
  destruct (mask =? 32) eqn:Em.
  - apply Z.eqb_eq in Em.
    destruct (entry_addr cidr) as [a| | |]; simpl; try done.
    destruct (ips_of_entries rest) as [l'| | |]; simpl; try done.
    intros [= <-]. exists mask, l'. repeat split; try done.
    left. split; [done|]. by exists a.
  - apply Z.eqb_neq in Em. intros E. exists mask, l. by eauto 10.
Qed.

(** The addresses read are the address parts of the entries whose mask
    reads 32, and of no other entry. *)
Lemma ips_of_entries_elem entries : forall l a,
  ips_of_entries entries = Ret l ->
  a ∈ l <->
  exists cidr, cidr ∈ entries /\ entry_mask cidr = Ret 32
               /\ entry_addr cidr = Ret a.
Proof.
  induction entries as [|cidr rest IH]; intros l a.
  - intros [= <-]. split; [by intros ?%elem_of_nil|].
    by intros (c & ?%elem_of_nil & _).
  - intros (mask & l' & Hm & Hr & Hcase)%ips_of_entries_cons.
    specialize (IH l' a Hr).
    destruct Hcase as [[-> (a' & Ha' & ->)]|[Hne ->]].
    + rewrite elem_of_cons, IH. split.
      * intros [->|(c & Hc & ?)]; [exists cidr|exists c];
          rewrite elem_of_cons; naive_solver.
      * intros (c & [->|Hc]%elem_of_cons & Hcm & Hca).
        -- left. congruence.
        -- right. by exists c.
    + rewrite IH. split.
      * intros (c & Hc & ?). exists c. rewrite elem_of_cons. naive_solver.
      * intros (c & [->|Hc]%elem_of_cons & Hcm & Hca); [congruence|].
        by exists c.
Qed.

(** Every entry of a list that reads well has a mask that reads. *)
Lemma ips_of_entries_masks entries : forall l cidr,
  ips_of_entries entries = Ret l -> cidr ∈ entries ->
  exists mask, entry_mask cidr = Ret mask.
Proof.
  induction entries as [|c rest IH]; intros l cidr.
  - by intros _ ?%elem_of_nil.
  - intros (mask & l' & Hm & Hr & _)%ips_of_entries_cons [->|Hc]%elem_of_cons.
    + by exists mask.
    + by eapply IH.
Qed.

(** A list whose entries all have a mask that reads reads well. *)
Lemma ips_of_entries_total entries :
  (forall cidr, cidr ∈ entries -> exists mask, entry_mask cidr = Ret mask) ->
  exists l, ips_of_entries entries = Ret l.
Proof.
  induction entries as [|c rest IH]; intros H; [by exists []|].
  destruct IH as [l' Hl'].
  { intros cidr Hc. apply H. by right. }
  destruct (H c) as [mask Hm]; [by left|].
  simpl. rewrite Hm, Hl'. simpl.
  destruct (mask =? 32); [|by exists l'].
  destruct (entry_addr_ret c) as (a & -> & _). simpl. by exists (a :: l').
Qed.

(** Entries whose mask does not read 32 are not seen. *)
Lemma ips_of_entries_filter entries : forall l,
  ips_of_entries entries = Ret l ->
  ips_of_entries
    (filter (fun cidr => entry_mask cidr = Ret 32) entries) = Ret l.
Proof.
  induction entries as [|c rest IH]; intros l; [done|].
  intros (mask & l' & Hm & Hr & Hcase)%ips_of_entries_cons.
  specialize (IH l' Hr).
  destruct Hcase as [[-> (a' & Ha' & ->)]|[Hne ->]].
  - rewrite filter_cons_True by done. simpl. rewrite Hm, Ha', IH. done.
  - rewrite filter_cons_False; [done|]. rewrite Hm. congruence.
Qed.

(** Addresses read from a prefix list hold no slash. *)
Lemma ips_of_entries_no_slash entries l a :
  ips_of_entries entries = Ret l -> a ∈ l -> no_slash a = true.
Proof.
  intros Hl Ha. apply (ips_of_entries_elem _ _ _ Hl) in Ha as (c & _ & _ & Hc).
  destruct (entry_addr_ret c) as (a' & E & Ha'). congruence.
Qed.

Lemma elem_of_as_cidrs (s : gset string) cidr :
  cidr ∈ as_cidrs s <-> exists ip, ip ∈ s /\ cidr = ip +:+ "/32".
Proof.
  unfold as_cidrs. rewrite list_elem_of_fmap.
  split; intros (ip & ? & ?); exists ip; by rewrite ?elem_of_elements in *.
Qed.


Lemma elem_of_paginate {A} (l : list A) page x :
  page ∈ paginate l -> x ∈ page -> x ∈ l.
Proof.
  intros Hp Hx. rewrite <- (concat_paginate l).
  apply list_elem_of_In, in_concat. exists page.
  split; by apply list_elem_of_In.
Qed.

End Entries.

(** ** Properties of the requests of a pass *)

Section Requests.

Context {W : Type} {R : Remote W}.
Variable cfg : Config.

Lemma mods_routine e : routine e = true -> mods [e] = [].
Proof. by destruct e. Qed.

Lemma mods_page pl info req resp :
  mods (Describe pl info :: log_events cfg (MsgDescribeResult info) 1 false
          ++ [Modify req resp]) = [req].
Proof. reflexivity. Qed.

(** A property of every request of a trace is a property of runs. *)
Lemma stepwise_requests (ψ : ModifyRequest -> Prop) :
  Stepwise (W:=W) (fun _ _ t => Forall ψ (mods t)).
Proof.
  split.
  - intros _. constructor.
  - intros _ _ _ t1 t2 H1 H2. rewrite mods_app. by apply Forall_app.
  - intros _ e He. rewrite (mods_routine e He). constructor.
  - intros _. constructor.
Qed.

(** It holds of every pass when it holds of the four requests. *)
Lemma admits_requests (ψ : ModifyRequest -> Prop) pl region toadd toremove
    newlength currentquota :
  (forall newmaxent, ψ (resize_request pl newmaxent)) ->
  (forall version,
     (size toadd < 100)%nat -> (size toremove < 100)%nat ->
     ψ (update_request pl version (as_cidrs toadd) (as_cidrs toremove))) ->
  (forall version page,
     page ∈ paginate (as_cidrs toremove) ->
     ψ (remove_request pl version page)) ->
  (forall version page,
     page ∈ paginate (as_cidrs toadd) -> ψ (add_request pl version page)) ->
  Admits (W:=W) cfg (fun _ _ t => Forall ψ (mods t)) pl region toadd toremove
    newlength currentquota.
Proof.
  intros Hresize Hupdate Hremove Hadd. split.
  - intros _ _. rewrite mods_log. constructor.
  - intros _ newmaxent resp _ _. repeat constructor. apply Hresize.
  - intros _ version resp _ Ha Hr req _. repeat constructor. by apply Hupdate.
  - intros w page resp _ Hp info _ req _. rewrite mods_page.
    repeat constructor. by apply Hremove.
  - intros w page resp _ Hp info _ req _. rewrite mods_page.
    repeat constructor. by apply Hadd.
Qed.


End Requests.

(** ** Versions *)

Section Versions.

Context {W : Type} {R : Remote W}.
Variable cfg : Config.

Lemma versions_reread_app t1 t2 : forall last,
  versions_reread last t1 = true ->
  (forall l, versions_reread l t2 = true) ->
  versions_reread last (t1 ++ t2) = true.
Proof.
  induction t1 as [|e t1 IH]; intros last H1 H2; simpl; [apply H2|].
  destruct e; simpl in *; try by apply IH.
  apply andb_prop in H1 as [-> H1]. simpl. by apply IH.
Qed.

Lemma stepwise_reread :
  Stepwise (W:=W) (fun _ _ t => forall last, versions_reread last t = true).
Proof.
  split.
  - done.
  - intros _ _ _ t1 t2 H1 H2 last. by apply versions_reread_app.
  - intros _ e He last. by destruct e as [l m|l m| | | | | |].
  - done.
Qed.

Lemma admits_reread pl region toadd toremove newlength currentquota :
  Admits (W:=W) cfg (fun _ _ t => forall last, versions_reread last t = true)
    pl region toadd toremove newlength currentquota.
Proof.
  split.
  - done.
  - done.
  - done.
  - intros w page resp w' _ info Hready req _ last. simpl.
    rewrite Hready. by rewrite bool_decide_true.
  - intros w page resp w' _ info Hready req _ last. simpl.
    rewrite Hready. by rewrite bool_decide_true.
Qed.

End Versions.

(** ** Entries whose mask is not 32 *)

Section Masks.

Context {W : Type} {R : Remote W}.
Variable cfg : Config.

(** Whatever a pass asks to remove reads as a host address. *)
Lemma removed_are_hosts sgiplist pliplist entries cidr :
  ips_of_entries entries = Ret pliplist ->
  cidr ∈ as_cidrs (itemstoremove sgiplist pliplist) ->
  entry_mask cidr = Ret 32.
Proof.
  intros Hl (ip & Hip & ->)%elem_of_as_cidrs.
  apply host_entry. apply (ips_of_entries_no_slash _ _ _ Hl).
  unfold itemstoremove in Hip. set_solver.
Qed.

Lemma removals_are_hosts fuel event (w : W) :
  Forall (fun req =>
            Forall (fun cidr => entry_mask cidr = Ret 32)
              (default [] (RemoveEntries req)))
    (mods (lambda_handler cfg fuel event w).2).
Proof.
  apply (holds_lambda_handler cfg _ (Stepwise0 := stepwise_requests _)).
  intros sg pl region pliplist _ _ _ Hl sgiplist.
  apply admits_requests; simpl.
  - intros _. constructor.
  - intros _ _ _. apply Forall_forall. intros cidr Hc.
    by eapply removed_are_hosts.
  - intros _ page Hp. apply Forall_forall. intros cidr Hc.
    eapply removed_are_hosts; [done|]. by eapply elem_of_paginate.
  - intros _ page _. constructor.
Qed.

Context `{!Faithful W}.

Lemma stepwise_spared pl : Stepwise (spared (W:=W) pl).
Proof.
  split; unfold spared.
  - done.
  - intros w1 w2 w3 _ _ H1 H2 cidr Hc Hm. apply H2; [|done]. by apply H1.
  - done.
  - intros w cidr Hc _. by rewrite sleep_entries.
Qed.

Lemma spared_modify w req resp w' t :
  modify_managed_prefix_list w req = (resp, w') ->
  Forall (fun cidr => entry_mask cidr = Ret 32)
    (default [] (RemoveEntries req)) ->
  spared (PrefixListId req) w w' t.
Proof.
  intros Em Hr cidr Hc Hm. destruct resp as [v|].
  - rewrite (accepted_entries _ _ _ _ Em).
    apply elem_of_union_l, elem_of_difference. split; [done|].
    rewrite elem_of_list_to_set. intros Hin.
    rewrite Forall_forall in Hr. by apply Hm, Hr.
  - by rewrite (refused_entries _ _ _ _ Em).
Qed.

Lemma admits_spared pl region sgiplist pliplist entries newlength currentquota :
  ips_of_entries entries = Ret pliplist ->
  Admits cfg (spared (W:=W) pl) pl region (itemstoadd sgiplist pliplist)
    (itemstoremove sgiplist pliplist) newlength currentquota.
Proof.
  intros Hl. split.
  - by intros w _ cidr.
  - intros w newmaxent resp w' Em.
    apply (spared_modify _ _ _ _ _ Em). constructor.
  - intros w version resp w' _ _ req Em.
    apply (spared_modify _ _ _ _ _ Em). simpl. apply Forall_forall.
    intros cidr Hc. by eapply removed_are_hosts.
  - intros w page resp w' Hp info _ req Em.
    apply (spared_modify _ _ _ _ _ Em). simpl. apply Forall_forall.
    intros cidr Hc. eapply removed_are_hosts; [done|].
    by eapply elem_of_paginate.
  - intros w page resp w' Hp info _ req Em.
    apply (spared_modify _ _ _ _ _ Em). constructor.
Qed.

(** No pass removes an entry whose mask is not 32. *)
Lemma pass_spares fuel event (w : W) pl :
  event !! "pl" = Some pl ->
  spared pl w (lambda_handler cfg fuel event w).1.2
    (lambda_handler cfg fuel event w).2.
Proof.
  intros Hpl.
  apply (holds_lambda_handler cfg _ (Stepwise0 := stepwise_spared pl)).
  intros sg pl' region pliplist _ Hpl' _ Hl sgiplist.
  assert (pl' = pl) as -> by congruence. by eapply admits_spared.
Qed.

End Masks.

(** ** What a pass that returns leaves in the prefix list *)

Section Mirror.

Context {W : Type} {R : Remote W} `{!Faithful W}.
Variable cfg : Config.

Lemma stepwise_kept pl :
  Stepwise (W:=W) (fun w w' _ => entry_set w' pl = entry_set w pl).
Proof.
  split.
  - done.
  - intros w1 w2 w3 _ _ H1 H2. congruence.
  - done.
  - intros w. apply sleep_entries.
Qed.

(** Waiting changes no entry. *)
Lemma wait_until_ready_kept fuel pl w o w' t :
  wait_until_ready cfg fuel pl w = (o, w', t) ->
  entry_set w' pl = entry_set w pl.
Proof.
  intros E.
  pose proof (holds_wait_until_ready cfg _ (Stepwise0 := stepwise_kept pl)
                fuel pl w) as H.
  by rewrite E in H.
Qed.

Lemma pl_info_ret pl w info w' t :
  pl_info cfg pl w = (Ret info, w', t) -> w' = w.
Proof. rewrite pl_info_run. by intros [= _ <- _]. Qed.

Lemma call_modify_ret req w resp w' t :
  call_modify_managed_prefix_list req w = (Ret resp, w', t) ->
  modify_managed_prefix_list w req = (resp, w').
Proof.
  unfold call_modify_managed_prefix_list.
  destruct (modify_managed_prefix_list w req) as [r w'']. by intros [= -> ->].
Qed.

Lemma log_ret {A} message severity sendmessage terminate (k : M W A)
    w a w' t :
  bind (log_handler cfg message severity sendmessage terminate) (fun _ => k) w
    = (Ret a, w', t) ->
  terminate = false /\ exists t', k w = (Ret a, w', t').
Proof.
  intros ([] & w1 & t1 & t2 & Hl & Hk & _)%bind_ret_inv.
  rewrite log_handler_run in Hl. destruct terminate; [done|].
  simplify_eq. eauto.
Qed.

Lemma remove_pages_ret fuel pl pages : forall version w version' w' t,
  remove_pages cfg fuel pl pages version w = (Ret version', w', t) ->
  entry_set w' pl = entry_set w pl ∖ list_to_set (concat pages).
Proof.
  induction pages as [|page rest IH]; intros version w version' w' t; simpl.
  { intros [= _ <- _]. set_solver. }
  intros ([] & w1 & t1 & t2 & Hw & H & _)%bind_ret_inv.
  apply wait_until_ready_kept in Hw.
  apply bind_ret_inv in H as (info & w2 & t3 & t4 & Hi & H & _).
  apply pl_info_ret in Hi as ->.
  apply bind_ret_inv in H as (resp & w3 & t5 & t6 & Hm & H & _).
  apply call_modify_ret in Hm. destruct resp as [v|].
  - apply log_ret in H as [_ [t' H]]. apply IH in H.
    apply accepted_entries in Hm. simpl in Hm.
    rewrite H, Hm, Hw, list_to_set_app_L. set_solver.
  - by apply log_ret in H as [? _].
Qed.

Lemma add_pages_ret fuel pl pages : forall version w version' w' t,
  add_pages cfg fuel pl pages version w = (Ret version', w', t) ->
  entry_set w' pl = entry_set w pl ∪ list_to_set (concat pages).
Proof.
  induction pages as [|page rest IH]; intros version w version' w' t; simpl.
  { intros [= _ <- _]. set_solver. }
  intros ([] & w1 & t1 & t2 & Hw & H & _)%bind_ret_inv.
  apply wait_until_ready_kept in Hw.
  apply bind_ret_inv in H as (info & w2 & t3 & t4 & Hi & H & _).
  apply pl_info_ret in Hi as ->.
  apply bind_ret_inv in H as (resp & w3 & t5 & t6 & Hm & H & _).
  apply call_modify_ret in Hm. destruct resp as [v|].
  - apply log_ret in H as [_ [t' H]]. apply IH in H.
    apply accepted_entries in Hm. simpl in Hm.
    rewrite H, Hm, Hw, list_to_set_app_L. set_solver.
  - by apply log_ret in H as [? _].
Qed.

Lemma update_cidrs_in_pl_ret pl toremove toadd version w r w' t :
  update_cidrs_in_pl cfg pl toremove toadd version w = (Ret r, w', t) ->
  entry_set w' pl =
    (entry_set w pl ∖ list_to_set (as_cidrs toremove))
    ∪ list_to_set (as_cidrs toadd).
Proof.
  unfold update_cidrs_in_pl.
  intros [_ [t1 H]]%log_ret. apply log_ret in H as [_ [t2 H]].
  apply bind_ret_inv in H as (resp & w3 & t5 & t6 & Hm & H & _).
  apply call_modify_ret in Hm. destruct resp as [v|].
  - apply log_ret in H as [_ [t' H]]. injection H as _ <- _.
    by apply accepted_entries in Hm.
  - by apply log_ret in H as [? _].
Qed.

Lemma as_cidrs_empty (s : gset string) : size s = 0%nat -> as_cidrs s = [].
Proof.
  intros ->%size_empty_inv%leibniz_equiv. unfold as_cidrs.
  by rewrite elements_empty.
Qed.

(** When neither set has exactly 100 addresses while the other has at most
    100, a returning [apply_changes] has removed the one set and added the
    other. *)
Lemma apply_changes_ret fuel pl toadd toremove plinfo w w' t :
  apply_changes cfg fuel pl toadd toremove plinfo w = (Ret tt, w', t) ->
  Z.max (len toadd) (len toremove) <> 100 ->
  entry_set w' pl =
    (entry_set w pl ∖ list_to_set (as_cidrs toremove))
    ∪ list_to_set (as_cidrs toadd).
Proof.
  unfold apply_changes, remove_phase, add_phase, when, len. intros H Hgap.
  destruct (((Z.of_nat (size toadd) >? 0) || (Z.of_nat (size toremove) >? 0))
            && (Z.of_nat (size toadd) <? 100)
            && (Z.of_nat (size toremove) <? 100)) eqn:Hc;
    [|destruct (((Z.of_nat (size toadd) >? 0)
                 || (Z.of_nat (size toremove) >? 0))
                && ((Z.of_nat (size toadd) >? 100)
                    || (Z.of_nat (size toremove) >? 100))) eqn:Hp].
  - apply bind_ret_inv in H as ([] & w1 & t1 & t2 & Hw & H & _).
    apply wait_until_ready_kept in Hw.
    apply log_ret in H as [_ [t3 H]].
    apply bind_ret_inv in H as (r & w2 & t4 & t5 & Hu & H & _).
    injection H as <- _. apply update_cidrs_in_pl_ret in Hu.
    by rewrite Hu, Hw.
  - apply bind_ret_inv in H as ([] & w1 & t1 & t2 & Hr & Ha & _).
    assert (entry_set w1 pl =
            entry_set w pl ∖ list_to_set (as_cidrs toremove)) as E1.
    { destruct (Z.of_nat (size toremove) >? 0) eqn:Hz.
      - apply bind_ret_inv in Hr as ([] & w2 & t3 & t4 & Hw & H & _).
        apply wait_until_ready_kept in Hw.
        apply log_ret in H as [_ [t5 H]].
        apply bind_ret_inv in H as (r & w3 & t6 & t7 & Hrm & H & _).
        injection H as <- _. unfold remove_cidr_from_pl in Hrm.
        apply log_ret in Hrm as [_ [t8 Hrm]].
        apply log_ret in Hrm as [_ [t9 Hrm]].
        apply remove_pages_ret in Hrm.
        by rewrite Hrm, concat_paginate, Hw.
      - injection Hr as <- _. rewrite as_cidrs_empty by lia. set_solver. }
    destruct (Z.of_nat (size toadd) >? 0) eqn:Hz.
    + apply bind_ret_inv in Ha as ([] & w2 & t3 & t4 & Hw & H & _).
      apply wait_until_ready_kept in Hw.
      apply log_ret in H as [_ [t5 H]].
      apply bind_ret_inv in H as (info & w3 & t6 & t7 & Hi & H & _).
      apply pl_info_ret in Hi as ->.
      apply bind_ret_inv in H as (r & w4 & t8 & t9 & Had & H & _).
      injection H as <- _. unfold add_cidr_to_pl in Had.
      apply log_ret in Had as [_ [t10 Had]].
      apply log_ret in Had as [_ [t11 Had]].
      apply add_pages_ret in Had.
      by rewrite Had, concat_paginate, Hw, E1.
    + injection Ha as <- _. rewrite E1, (as_cidrs_empty toadd) by lia.
      set_solver.
  - rewrite log_handler_run in H. injection H as <- _.
    rewrite (as_cidrs_empty toadd), (as_cidrs_empty toremove) by lia.
    set_solver.
Qed.

Lemma check_quota_world pl region currentquota newlength (w : W) :
  (check_quota cfg pl region currentquota newlength w).1.2 = w.
Proof.
  unfold check_quota, when, bind, lift.
  destruct (currentquota - newlength <? 1); [by rewrite log_handler_run|].
  destruct (over_threshold cfg newlength currentquota) as [[|]| |e|];
    simpl; by rewrite ?log_handler_run.
Qed.

(** The entries after that removal and that addition read as the addresses of
    the group, when the entries before are spelled canonically and no address
    of the group holds a slash. *)
Lemma mirrored (entries0 entries1 sgiplist pliplist : list string) :
  ips_of_entries entries0 = Ret pliplist ->
  Forall canonical entries0 ->
  Forall (fun a => no_slash a = true) sgiplist ->
  list_to_set entries1 =@{gset string}
    (list_to_set entries0
       ∖ list_to_set (as_cidrs (itemstoremove sgiplist pliplist)))
    ∪ list_to_set (as_cidrs (itemstoadd sgiplist pliplist)) ->
  exists l,
    ips_of_entries entries1 = Ret l /\
    list_to_set l =@{gset string} list_to_set sgiplist.
Proof.
  intros Hl0 Hcan Hsg Hset.
  rewrite Forall_forall in Hcan. rewrite Forall_forall in Hsg.
  assert (forall c, c ∈ entries1 <->
            (c ∈ entries0 /\ c ∉ as_cidrs (itemstoremove sgiplist pliplist))
            \/ c ∈ as_cidrs (itemstoadd sgiplist pliplist)) as Hmem.
  { intros c. rewrite <- (elem_of_list_to_set (C:=gset string) c entries1).
    rewrite Hset. set_solver. }
  assert (forall ip, ip ∈ itemstoadd sgiplist pliplist ->
            ip ∈ sgiplist /\ ip ∉ pliplist) as Hadd.
  { intros ip. unfold itemstoadd. set_solver. }
  assert (forall ip, ip ∈ itemstoremove sgiplist pliplist <->
            ip ∈ pliplist /\ ip ∉ sgiplist) as Hrem.
  { intros ip. unfold itemstoremove. set_solver. }
  destruct (ips_of_entries_total entries1) as [l Hl1].
  { intros c [[Hc _]|Hc]%Hmem.
    - by eapply ips_of_entries_masks.
    - apply elem_of_as_cidrs in Hc as (ip & [Hip _]%Hadd & ->).
      exists 32. by apply host_entry, Hsg. }
  exists l. split; [done|]. apply set_eq. intros a.
  rewrite !elem_of_list_to_set, (ips_of_entries_elem _ _ _ Hl1). split.
  - intros (c & [[Hc Hnr]|Hc]%Hmem & Hm & Ha).
    + destruct (Hcan c Hc Hm) as (a' & Ha' & Hspell).
      assert (a' = a) as -> by congruence.
      destruct (decide (a ∈ sgiplist)) as [|Hns]; [done|].
      exfalso. apply Hnr, elem_of_as_cidrs. exists a. split; [|done].
      apply Hrem. split; [|done].
      apply (ips_of_entries_elem _ _ _ Hl0). by exists c.
    + apply elem_of_as_cidrs in Hc as (ip & [Hip _]%Hadd & ->).
      destruct (host_entry ip (Hsg ip Hip)) as [_ Hip']. congruence.
  - intros Ha. destruct (decide (a ∈ pliplist)) as [Hp|Hnp].
    + destruct (proj1 (ips_of_entries_elem _ _ _ Hl0) Hp)
        as (c & Hc & Hm & Hca).
      exists c. split; [|done]. apply Hmem. left. split; [done|].
      intros (ip & [Hip Hnip]%Hrem & ->)%elem_of_as_cidrs.
      destruct (host_entry ip (ips_of_entries_no_slash _ _ _ Hl0 Hip))
        as [_ Hip'].
      congruence.
    + exists (a +:+ "/32"). destruct (host_entry a (Hsg a Ha)) as [Hm Haddr].
      split; [|done]. apply Hmem. right. apply elem_of_as_cidrs.
      exists a. split; [|done]. unfold itemstoadd. set_solver.
Qed.

(** A pass that returns without resizing, and without the sets being at
    exactly 100, leaves the host addresses of the group in the list. *)
Lemma pass_mirrors fuel event w sg pl pliplist msg w' t :
  event !! "sg" = Some sg -> event !! "pl" = Some pl ->
  ips_of_entries (get_managed_prefix_list_entries w pl) = Ret pliplist ->
  let sgiplist := describe_network_interfaces w sg in
  Forall canonical (get_managed_prefix_list_entries w pl) ->
  Forall (fun a => no_slash a = true) sgiplist ->
  newpllength sgiplist pliplist
    <= MaxEntries (describe_managed_prefix_lists w pl) ->
  Z.max (len (itemstoadd sgiplist pliplist))
        (len (itemstoremove sgiplist pliplist)) <> 100 ->
  lambda_handler cfg fuel event w = (Ret msg, w', t) ->
  host_set w' pl = Ret (list_to_set sgiplist).
Proof.
  intros Hsg Hpl Hl sgiplist Hcan Hslash Hcap Hgap Hrun.
  destruct (event !! "region") as [region|] eqn:Hregion; cycle 1.
  { unfold lambda_handler in Hrun.
    rewrite (event_field_some _ _ _ _ _ _ _ _ Hsg) in Hrun.
    rewrite (event_field_some _ _ _ _ _ _ _ _ Hpl) in Hrun.
    by rewrite (event_field_none _ _ _ _ _ _ _ Hregion) in Hrun. }
  rewrite (lambda_handler_run _ _ _ _ _ _ _ _ Hsg Hpl Hregion Hl) in Hrun.
  fold sgiplist in Hrun. unfold finish_pass in Hrun.
  match type of Hrun with after _ ?r = _ =>
    destruct r as [[o w2] t2] eqn:Hf end.
  injection Hrun as -> -> _.
  apply bind_ret_inv in Hf as ([] & w1 & t1 & t3 & Hq & Hf & _).
  pose proof (check_quota_world pl region (get_service_quota w)
                (newpllength sgiplist pliplist) w) as Hw1.
  rewrite Hq in Hw1. simpl in Hw1. subst w1.
  apply bind_ret_inv in Hf as ([] & w1 & t4 & t5 & Hb & Hf & _).
  apply log_ret in Hf as [_ [t6 Hf]]. injection Hf as _ <- _.
  destruct (MaxEntries (describe_managed_prefix_lists w pl)
            <? newpllength sgiplist pliplist) eqn:Hres; [lia|].
  apply apply_changes_ret in Hb; [|done].
  destruct (mirrored _ (get_managed_prefix_list_entries w1 pl) _ _
              Hl Hcan Hslash Hb) as (l & Hl1 & Hset).
  unfold host_set. rewrite Hl1. simpl. by rewrite Hset.
Qed.

End Mirror.

(** ** The order of the requests *)

Section Order.

Context {W : Type} {R : Remote W}.
Variable cfg : Config.

Lemma mods_after {A} t0 (r : outcome A * W * list Event) :
  mods (after t0 r).2 = mods t0 ++ mods r.2.
Proof. destruct r as [[o w] t]. apply mods_app. Qed.

Lemma mods_bind {A B} (m : M W A) (f : A -> M W B) w :
  mods (bind m f w).2 =
    mods (m w).2 ++
    match (m w).1.1 with
    | Ret a => mods (f a (m w).1.2).2
    | _ => []
    end.
Proof.
  unfold bind. destruct (m w) as [[[a| |e|] w1] t1]; simpl;
    rewrite ?app_nil_r; try done.
  destruct (f a w1) as [[o w2] t2]; simpl. apply mods_app.
Qed.

Lemma Forall_False_nil {A} (l : list A) : Forall (fun _ => False) l -> l = [].
Proof. by destruct 1. Qed.

(** Waiting sends no request. *)
Lemma wait_until_ready_quiet fuel pl w :
  mods (wait_until_ready cfg fuel pl w).2 = [].
Proof.
  apply Forall_False_nil.
  apply (holds_wait_until_ready cfg _ (Stepwise0 := stepwise_requests _)).
Qed.

Lemma check_quota_quiet pl region currentquota newlength (w : W) :
  mods (check_quota cfg pl region currentquota newlength w).2 = [].
Proof.
  unfold check_quota, when, bind, lift.
  destruct (currentquota - newlength <? 1);
    [rewrite log_handler_run; apply mods_log|].
  destruct (over_threshold cfg newlength currentquota) as [[|]| |e|];
    simpl; done.
Qed.

(** The combined path sends one request, with both sets in full. *)
Lemma update_cidrs_in_pl_mods pl toremove toadd version w :
  mods (update_cidrs_in_pl cfg pl toremove toadd version w).2 =
    [update_request pl version (as_cidrs toadd) (as_cidrs toremove)].
Proof.
  unfold update_cidrs_in_pl. rewrite !bind_log.
  destruct (modify_managed_prefix_list w
              (update_request pl version (as_cidrs toadd) (as_cidrs toremove)))
    as [resp w'] eqn:Em.
  rewrite (bind_run_ret _ _ _ _ _ _ (call_modify_run _ _ _ _ Em)).
  rewrite !mods_after, !mods_log. destruct resp as [v|].
  - rewrite bind_log, mods_after, mods_log. reflexivity.
  - rewrite bind_log_exit. reflexivity.
Qed.

(** The resizer sends at most one request, and it carries no entry. *)
Lemma pl_resize_mods pl currentquota newplsize w :
  (length (mods (pl_resize cfg pl currentquota newplsize w).2) <= 1)%nat.
Proof.
  unfold pl_resize. rewrite mods_bind. simpl.
  destruct (optimal_size cfg newplsize) as [newmaxent| |e|]; simpl; try lia.
  rewrite mods_bind.
  assert (forall (w : W) (c : bool) (x y : Z),
    let r := (if c then
                bind (log_handler cfg (MsgResizeClipped pl x) 2 true false)
                  (fun _ => ret y)
              else ret x) w in
    mods r.2 = [] /\ r.1.2 = w /\ exists z, r.1.1 = Ret z) as Hclip.
  { intros w0 [|] x y; cbv zeta; [|simpl; by eauto].
    rewrite bind_log. simpl. by eauto. }
  destruct (Hclip w (newmaxent >? currentquota) newmaxent (currentquota - 1))
    as (-> & -> & z & ->).
  simpl. unfold call_modify_managed_prefix_list at 1.
  rewrite mods_bind. simpl.
  destruct (modify_managed_prefix_list w (resize_request pl z))
    as [[v|] w'] eqn:Em; simpl; lia.
Qed.

Lemma removes_first_short l : (length l <= 1)%nat -> removes_first l = true.
Proof.
  destruct l as [|x [|y l]]; simpl; intros H.
  - done.
  - by destruct (AddEntries x).
  - lia.
Qed.

Lemma removes_first_phases l1 l2 :
  Forall (fun req => AddEntries req = None) l1 ->
  Forall (fun req => RemoveEntries req = None) l2 ->
  removes_first (l1 ++ l2) = true.
Proof.
  intros H1 H2. induction H1 as [|x l1 Hx _ IH]; simpl.
  - induction H2 as [|y l2 Hy H2 IH]; simpl; [done|].
    rewrite IH, andb_true_r. destruct (AddEntries y); [|done].
    apply forallb_forall. intros r Hr%list_elem_of_In.
    rewrite Forall_forall in H2. by rewrite (H2 r Hr), bool_decide_true.
  - by rewrite Hx, IH.
Qed.

(** The remove loop adds nothing. *)
Lemma remove_cidr_from_pl_adds_none fuel pl toremove version w :
  Forall (fun req => AddEntries req = None)
    (mods (remove_cidr_from_pl cfg fuel pl toremove version w).2).
Proof.
  set (Q := fun (_ _ : W) (t : list Event) =>
              Forall (fun req => AddEntries req = None) (mods t)).
  assert (Stepwise Q) as HS by apply stepwise_requests.
  revert w. change (holds Q (remove_cidr_from_pl cfg fuel pl toremove version)).
  unfold remove_cidr_from_pl.
  apply (holds_bind Q); [by apply (holds_log cfg Q)|]. intros _.
  apply (holds_bind Q); [by apply (holds_log cfg Q)|]. intros _.
  apply (holds_remove_pages_with cfg Q).
  intros w page resp w' _ info _ req _. unfold Q. rewrite mods_page.
  by repeat constructor.
Qed.

(** The add loop removes nothing. *)
Lemma add_cidr_to_pl_removes_none fuel pl toadd version w :
  Forall (fun req => RemoveEntries req = None)
    (mods (add_cidr_to_pl cfg fuel pl toadd version w).2).
Proof.
  set (Q := fun (_ _ : W) (t : list Event) =>
              Forall (fun req => RemoveEntries req = None) (mods t)).
  assert (Stepwise Q) as HS by apply stepwise_requests.
  revert w. change (holds Q (add_cidr_to_pl cfg fuel pl toadd version)).
  unfold add_cidr_to_pl.
  apply (holds_bind Q); [by apply (holds_log cfg Q)|]. intros _.
  apply (holds_bind Q); [by apply (holds_log cfg Q)|]. intros _.
  apply (holds_add_pages_with cfg Q).
  intros w page resp w' _ info _ req _. unfold Q. rewrite mods_page.
  by repeat constructor.
Qed.

(** When the remove loop returns, it has sent every page, in order. *)
Lemma remove_pages_issued fuel pl pages : forall version w version' w' t,
  remove_pages cfg fuel pl pages version w = (Ret version', w', t) ->
  omap RemoveEntries (mods t) = pages.
Proof.
  induction pages as [|page rest IH]; intros version w version' w' t; simpl.
  { by intros [= _ _ <-]. }
  intros ([] & w1 & t1 & t2 & Hw & H & ->)%bind_ret_inv.
  pose proof (wait_until_ready_quiet fuel pl w) as Hq.
  rewrite Hw in Hq. simpl in Hq.
  apply bind_ret_inv in H as (info & w2 & t3 & t4 & Hi & H & ->).
  rewrite pl_info_run in Hi. injection Hi as <- <- <-.
  apply bind_ret_inv in H as (resp & w3 & t5 & t6 & Hm & H & ->).
  unfold call_modify_managed_prefix_list in Hm.
  destruct (modify_managed_prefix_list w1 _) as [resp' w3'].
  injection Hm as <- <- <-. destruct resp' as [v|].
  - rewrite bind_log in H.
    destruct (remove_pages cfg fuel pl rest v w3') as [[o w4] t7] eqn:Hrest.
    simpl in H. injection H as -> -> <-. apply IH in Hrest.
    rewrite !mods_app, Hq.
    change (mods (Print _ _ :: t7)) with (mods t7).
    change (mods [Modify ?req _]) with [req].
    change (mods (Describe _ _ :: log_events _ _ _ _))
      with (@nil ModifyRequest).
    rewrite <- Hrest. reflexivity.
  - by rewrite bind_log_exit in H.
Qed.

(** The remove phase adds nothing, and when it returns it has sent every
    page of the set to remove. *)
Lemma remove_phase_requests fuel pl toremove plinfo w :
  let r := remove_phase cfg fuel pl toremove plinfo w in
  Forall (fun req => AddEntries req = None) (mods r.2) /\
  (r.1.1 = Ret tt ->
   omap RemoveEntries (mods r.2) = paginate (as_cidrs toremove)).
Proof.
  unfold remove_phase, when, len.
  destruct (Z.of_nat (size toremove) >? 0) eqn:Hz; cycle 1.
  { simpl. split; [constructor|]. intros _.
    rewrite as_cidrs_empty by lia. reflexivity. }
  cbv zeta. split.
  - rewrite mods_bind, wait_until_ready_quiet. simpl.
    destruct (wait_until_ready cfg fuel pl w) as [[[[]| |e|] w1] t1];
      simpl; try constructor.
    rewrite bind_log, mods_after, mods_log, mods_bind. simpl.
    apply Forall_app. split; [apply remove_cidr_from_pl_adds_none|].
    by destruct (remove_cidr_from_pl cfg fuel pl toremove (Version plinfo) w1)
      as [[[v| |e|] w2] t2].
  - destruct (bind _ _ w) as [[o w'] t] eqn:H. simpl. intros ->.
    apply bind_ret_inv in H as ([] & w1 & t1 & t2 & Hw & H & ->).
    pose proof (wait_until_ready_quiet fuel pl w) as Hq.
    rewrite Hw in Hq. simpl in Hq.
    rewrite bind_log in H.
    destruct (bind _ _ w1) as [[o2 w2] t3] eqn:H2.
    cbn [after] in H. injection H as -> -> <-.
    apply bind_ret_inv in H2 as (v & w3 & t4 & t5 & Hr & H2 & ->).
    injection H2 as _ <-.
    unfold remove_cidr_from_pl in Hr. rewrite !bind_log, after_after in Hr.
    destruct (remove_pages cfg fuel pl _ _ w1) as [[o4 w4] t6] eqn:Hp.
    cbn [after] in Hr. injection Hr as -> _ <-.
    apply remove_pages_issued in Hp.
    rewrite app_nil_r, mods_app, Hq. exact Hp.
Qed.

(** The add phase removes nothing. *)
Lemma add_phase_requests fuel pl toadd w :
  Forall (fun req => RemoveEntries req = None)
    (mods (add_phase cfg fuel pl toadd w).2).
Proof.
  unfold add_phase, when, len.
  destruct (Z.of_nat (size toadd) >? 0); [|constructor].
  rewrite mods_bind, wait_until_ready_quiet. simpl.
  destruct (wait_until_ready cfg fuel pl w) as [[[[]| |e|] w1] t1];
    simpl; try constructor.
  rewrite bind_log, mods_after, mods_log.
  rewrite (bind_run_ret _ _ _ _ _ _ (pl_info_run cfg pl w1)).
  rewrite mods_after, mods_bind. simpl.
  apply Forall_app. split; [apply add_cidr_to_pl_removes_none|].
  by destruct (add_cidr_to_pl cfg fuel pl toadd _ w1) as [[[v| |e|] w2] t2].
Qed.

Lemma omap_removes_none l :
  Forall (fun req => RemoveEntries req = None) l ->
  omap RemoveEntries l = [].
Proof. induction 1 as [|x l Hx _ IH]; simpl; [done|]. by rewrite Hx. Qed.

(** In [apply_changes] no removal follows an addition, and a page of
    additions is only sent once every page of removals has been. *)
Lemma apply_changes_order fuel pl toadd toremove plinfo w :
  let l := mods (apply_changes cfg fuel pl toadd toremove plinfo w).2 in
  removes_first l = true /\
  (Exists (fun req => is_page req = true /\ AddEntries req <> None) l ->
   omap RemoveEntries l = paginate (as_cidrs toremove)).
Proof.
  unfold apply_changes.
  destruct (((len toadd >? 0) || (len toremove >? 0))
            && (len toadd <? 100) && (len toremove <? 100));
    [|destruct (((len toadd >? 0) || (len toremove >? 0))
               && ((len toadd >? 100) || (len toremove >? 100)))].
  - cbv zeta. rewrite mods_bind, wait_until_ready_quiet. simpl.
    destruct (wait_until_ready cfg fuel pl w) as [[[[]| |e|] w1] t1]; simpl;
      try (split; [done|by intros ?%Exists_nil]).
    rewrite bind_log, mods_after, mods_log, mods_bind. simpl.
    rewrite update_cidrs_in_pl_mods.
    destruct (update_cidrs_in_pl cfg pl toremove toadd (Version plinfo) w1)
      as [[[v| |e|] w2] t2]; simpl;
      (split; [done|]); intros [[? _]|?%Exists_nil]%Exists_cons; done.
  - cbv zeta. rewrite mods_bind.
    destruct (remove_phase_requests fuel pl toremove plinfo w) as [Hna Hall].
    pose proof (add_phase_requests fuel pl toadd) as Hnr.
    destruct (remove_phase cfg fuel pl toremove plinfo w)
      as [[[[]| |e|] w1] t1]; simpl in *.
    + specialize (Hnr w1). split; [by apply removes_first_phases|].
      intros _. rewrite omap_app, (Hall eq_refl), omap_removes_none by done.
      by rewrite app_nil_r.
    + rewrite app_nil_r. split.
      * rewrite <- (app_nil_r (mods t1)). by apply removes_first_phases.
      * intros Hex. apply Exists_exists in Hex as (req & Hin & _ & Hadd).
        rewrite Forall_forall in Hna. by specialize (Hna req Hin).
    + rewrite app_nil_r. split.
      * rewrite <- (app_nil_r (mods t1)). by apply removes_first_phases.
      * intros Hex. apply Exists_exists in Hex as (req & Hin & _ & Hadd).
        rewrite Forall_forall in Hna. by specialize (Hna req Hin).
    + rewrite app_nil_r. split.
      * rewrite <- (app_nil_r (mods t1)). by apply removes_first_phases.
      * intros Hex. apply Exists_exists in Hex as (req & Hin & _ & Hadd).
        rewrite Forall_forall in Hna. by specialize (Hna req Hin).
  - cbv zeta. rewrite log_handler_run. simpl.
    split; [done|by intros ?%Exists_nil].
Qed.

(** No pass sends a removal after an addition. *)
Lemma pass_order fuel event (w : W) :
  removes_first (mods (lambda_handler cfg fuel event w).2) = true.
Proof.
  destruct (event !! "sg") as [sg|] eqn:Hsg;
    [destruct (event !! "pl") as [pl|] eqn:Hpl;
     [destruct (event !! "region") as [region|] eqn:Hregion;
      [destruct (ips_of_entries (get_managed_prefix_list_entries w pl))
         as [pliplist| |e|] eqn:Hl|]|]|].
  2-7: (replace (mods (lambda_handler cfg fuel event w).2) with
          (@nil ModifyRequest); [done|]; symmetry; apply Forall_False_nil;
        apply (holds_lambda_handler cfg _
                 (Stepwise0 := stepwise_requests _));
        intros; congruence).
  rewrite (lambda_handler_run _ _ _ _ _ _ _ _ Hsg Hpl Hregion Hl).
  rewrite mods_after.
  replace (mods (reads_trace _ _ _ _ _ _ _ _)) with (@nil ModifyRequest)
    by reflexivity.
  simpl. unfold finish_pass. rewrite mods_bind, check_quota_quiet. simpl.
  destruct (check_quota _ _ _ _ _ w) as [[[[]| |e|] w1] t1] eqn:Hq;
    simpl; try done.
  rewrite mods_bind.
  set (branch := if _ <? _ then _ else _).
  assert (removes_first (mods (branch w1).2) = true) as Hb.
  { unfold branch. destruct (_ <? _).
    - apply removes_first_short. rewrite mods_bind.
      pose proof (pl_resize_mods pl (get_service_quota w)
        (newpllength (describe_network_interfaces w sg) pliplist) w1) as Hr.
      destruct (pl_resize cfg pl _ _ w1) as [[[v| |e|] w2] t2]; simpl in *;
        rewrite ?wait_until_ready_quiet, ?app_nil_r; lia.
    - apply apply_changes_order. }
  destruct (branch w1) as [[[[]| |e|] w2] t2]; simpl in *;
    rewrite ?app_nil_r; done.
Qed.

End Order.

(** ** The quota check *)

Section Quota.

Context {W : Type} {R : Remote W}.
Variable cfg : Config.

Lemma stepwise_no_alarm :
  Stepwise (W:=W) (fun _ _ t => Forall (fun e => quota_alarm e = false) t).
Proof.
  split.
  - constructor.
  - intros _ _ _ t1 t2 H1 H2. by apply Forall_app.
  - intros _ e He. repeat constructor. destruct e as [l m|l m| | | | | |];
      try done; by destruct m.
  - by repeat constructor.
Qed.

(** A pass whose quota check fails stops there, on the alarm. *)
Lemma pass_over_quota fuel event w sg pl region pliplist :
  event !! "sg" = Some sg -> event !! "pl" = Some pl ->
  event !! "region" = Some region ->
  ips_of_entries (get_managed_prefix_list_entries w pl) = Ret pliplist ->
  let sgiplist := describe_network_interfaces w sg in
  let currentquota := get_service_quota w in
  currentquota - newpllength sgiplist pliplist < 1 ->
  lambda_handler cfg fuel event w =
    (SysExit, w,
     reads_trace cfg sg pl region sgiplist pliplist
       (describe_managed_prefix_lists w pl) currentquota
     ++ log_events cfg (MsgQuotaExceeded pl currentquota region) 3 true).
Proof.
  intros Hsg Hpl Hregion Hl sgiplist currentquota Hq.
  rewrite (lambda_handler_run _ _ _ _ _ _ _ _ Hsg Hpl Hregion Hl).
  unfold finish_pass, check_quota. fold sgiplist currentquota.
  destruct (Z.ltb_spec (currentquota - newpllength sgiplist pliplist) 1);
    [|lia].
  by rewrite bind_log_exit.
Qed.

(** A pass whose quota check succeeds never raises the alarm. *)
Lemma pass_under_quota fuel event w sg pl region pliplist :
  event !! "sg" = Some sg -> event !! "pl" = Some pl ->
  event !! "region" = Some region ->
  ips_of_entries (get_managed_prefix_list_entries w pl) = Ret pliplist ->
  let sgiplist := describe_network_interfaces w sg in
  1 <= get_service_quota w - newpllength sgiplist pliplist ->
  Forall (fun e => quota_alarm e = false) (lambda_handler cfg fuel event w).2.
Proof.
  intros Hsg Hpl Hregion Hl sgiplist Hq.
  apply (holds_lambda_handler cfg _ (Stepwise0 := stepwise_no_alarm)).
  intros sg' pl' region' pliplist' Hsg' Hpl' Hregion' Hl' sgiplist'.
  assert (sg' = sg) as -> by congruence.
  assert (pl' = pl) as -> by congruence.
  assert (pliplist' = pliplist) as -> by congruence.
  split.
  - intros _ ?. subst sgiplist sgiplist'. lia.
  - by repeat constructor.
  - by repeat constructor.
  - by repeat constructor.
  - by repeat constructor.
Qed.

End Quota.

(** ** The resizer *)

Section Resizer.

Context {W : Type} {R : Remote W}.
Variable cfg : Config.




End Resizer.

(** ** The three in-progress states *)

Section InProgress.

Context {W : Type} {R : Remote W}.
Variable cfg : Config.

Lemma pl_ready_run_state pl w st :
  State (describe_managed_prefix_lists w pl) = st ->
  let info := describe_managed_prefix_lists w pl in
  (st = "modify-in-progress" \/ st = "restore-in-progress" ->
   pl_ready cfg pl w =
     (Ret (Some false), w,
      Describe pl info :: log_events cfg (MsgReadyProbe info) 1 false)) /\
  (st = "create-in-progress" ->
   pl_ready cfg pl w =
     (SysExit, w,
      Describe pl info :: log_events cfg (MsgReadyProbe info) 1 false
      ++ log_events cfg (MsgCreating pl) 3 false)).
Proof.
  intros Hst info. unfold pl_ready, call_describe_managed_prefix_lists.
  rewrite (bind_run_ret _ _ w _ _ _ eq_refl), bind_log.
  rewrite Hst. split.
  - by intros [-> | ->].
  - intros ->. rewrite String.eqb_refl. by rewrite bind_log_exit.
Qed.

(** A caller that finds the list busy sleeps once and polls again. *)
Lemma wait_until_ready_retry fuel pl w :
  let info := describe_managed_prefix_lists w pl in
  State info = "modify-in-progress" \/ State info = "restore-in-progress" ->
  wait_until_ready cfg (S fuel) pl w =
    after (Describe pl info :: log_events cfg (MsgReadyProbe info) 1 false
           ++ [Sleep])
      (wait_until_ready cfg fuel pl (sleep w)).
Proof.
  intros info Hst. unfold wait_until_ready.
  destruct (pl_ready_run_state pl w _ eq_refl) as [Hbusy _].
  rewrite (bind_run_ret _ _ _ _ _ _ (Hbusy Hst)). simpl.
  unfold time_sleep at 1. rewrite (bind_run_ret _ _ w tt (sleep w) [Sleep] eq_refl).
  rewrite after_after. reflexivity.
Qed.

End InProgress.

(** ** The simulated remote is faithful *)

Lemma sim_faithful : Faithful Sim.world.
Proof.
  split.
  - intros w pl. unfold entry_set. simpl. unfold Sim.tick.
    by destruct (Sim.busy w) as [|[|n]].
  - intros w req w' pl. simpl. unfold Sim.modify.
    match goal with |- context [if ?c then _ else _] => destruct c end;
      [done|]. by intros [= <-].
  - intros w req v w'. simpl. unfold Sim.modify.
    match goal with |- context [if ?c then _ else _] => destruct c end;
      [|done].
    intros [= _ <-]. unfold entry_set. apply set_eq. intros x.
    rewrite elem_of_union, elem_of_difference, !elem_of_list_to_set.
    destruct (Sim.lag w); simpl;
      rewrite list_elem_of_union, list_elem_of_difference; tauto.
Qed.

(** * The specification, claim by claim *)

(** C1, as the code has it: a pass that reports success without having taken
    the resize branch (the list could hold the final size), and whose sets
    are not at exactly 100 addresses with the other at most 100, leaves in the
    prefix list exactly the host addresses of the group as read at the start
    of the pass.  The remote applies what it accepts and nothing else; the
    entries of the list that read as hosts are spelled [address/32] and the
    addresses of the group hold no slash. *)
Theorem pass_mirrors_group (W : Type) (R : Remote W) (F : Faithful W)
    (cfg : Config) (fuel : nat) (event : gmap string string) (w : W)
    (sg pl : string) (pliplist : list string) (msg : Message) :
  event !! "sg" = Some sg -> event !! "pl" = Some pl ->
  ips_of_entries (get_managed_prefix_list_entries w pl) = Ret pliplist ->
  Forall canonical (get_managed_prefix_list_entries w pl) ->
  Forall (fun a => no_slash a = true) (describe_network_interfaces w sg) ->
  newpllength (describe_network_interfaces w sg) pliplist
    <= MaxEntries (describe_managed_prefix_lists w pl) ->
  Z.max (len (itemstoadd (describe_network_interfaces w sg) pliplist))
        (len (itemstoremove (describe_network_interfaces w sg) pliplist))
    <> 100 ->
  (lambda_handler cfg fuel event w).1.1 = Ret msg ->
  host_set (lambda_handler cfg fuel event w).1.2 pl =
    Ret (list_to_set (describe_network_interfaces w sg)).
Proof.
  intros Hsg Hpl Hl Hcan Hslash Hcap Hgap Hret.
  destruct (lambda_handler cfg fuel event w) as [[o w'] t] eqn:Hrun.
  simpl in *. subst o. by eapply pass_mirrors.
Qed.

(** The end-to-end example: the group holds .1 .2 .3 and the list .2 .3 .4,
    quota 1000, capacity 100, padding 10 percent; one combined request adds
    .1 and removes .4, and the list then holds .1 .2 .3. *)
Lemma pass_mirrors_group_witness :
  mods (lambda_handler Sim.cfg 5 Sim.example_event Sim.end_to_end).2 =
    [update_request "pl-1" 1 ["10.0.0.1/32"] ["10.0.0.4/32"]] /\
  host_set (lambda_handler Sim.cfg 5 Sim.example_event Sim.end_to_end).1.2
    "pl-1" = Ret (list_to_set (Sim.addresses 3)).
Proof.
  split; [vm_compute; reflexivity|].
  apply (pass_mirrors_group Sim.world Sim.remote sim_faithful Sim.cfg 5
           Sim.example_event Sim.end_to_end "sg-1" "pl-1"
           ["10.0.0.2"; "10.0.0.3"; "10.0.0.4"]
           (MsgSyncCompleted "sg-1" "pl-1")).
  - reflexivity.
  - reflexivity.
  - reflexivity.
  - repeat constructor; intros _; eexists; split; reflexivity.
  - repeat constructor.
  - vm_compute. discriminate.
  - vm_compute. discriminate.
  - vm_compute. reflexivity.
Defined.

(** C1 as stated fails: a pass that finds the list too small resizes it,
    changes no entry and still reports success. *)
Lemma pass_success_without_mirror :
  (lambda_handler Sim.cfg 5 Sim.example_event Sim.undersized).1.1 =
    Ret (MsgSyncCompleted "sg-1" "pl-1") /\
  mods (lambda_handler Sim.cfg 5 Sim.example_event Sim.undersized).2 =
    [resize_request "pl-1" 4] /\
  host_set (lambda_handler Sim.cfg 5 Sim.example_event Sim.undersized).1.2
    "pl-1" <> Ret (list_to_set (Sim.addresses 3)).
Proof.
  split; [vm_compute; reflexivity|].
  split; [vm_compute; reflexivity|].
  vm_compute. discriminate.
Qed.

(** C2, at the boundary the code misses: with exactly 100 addresses to add
    and none to remove the pass sends no request at all, leaves the list
    empty and reports success; with 150 it sends two pages of additions, of
    99 and of 51 entries, and no removal. *)
Theorem hundred_additions_are_dropped :
  (size (itemstoadd (Sim.addresses 100) []) = 100%nat /\
   (lambda_handler Sim.cfg 5 Sim.example_event Sim.hundred).1.1 =
     Ret (MsgSyncCompleted "sg-1" "pl-1") /\
   mods (lambda_handler Sim.cfg 5 Sim.example_event Sim.hundred).2 = [] /\
   Sim.entries (lambda_handler Sim.cfg 5 Sim.example_event Sim.hundred).1.2
     = []) /\
  (size (itemstoadd (Sim.addresses 150) []) = 150%nat /\
   map (fun req => (length <$> AddEntries req, RemoveEntries req))
     (mods (lambda_handler Sim.cfg 5 Sim.example_event Sim.hundred_fifty).2)
     = [(Some 99%nat, None); (Some 51%nat, None)]).
Proof. vm_compute. repeat split; reflexivity. Qed.

(** C3, as the code has it: for modify-in-progress and restore-in-progress
    the poller answers "not ready" without a log line of its own, an alert or
    a change to the remote, and the caller sleeps once and polls again; for
    create-in-progress it logs a critical line, sends no alert and ends the
    process. *)
Theorem in_progress_states (W : Type) (R : Remote W) (cfg : Config)
    (pl : string) (w : W) :
  let info := describe_managed_prefix_lists w pl in
  (State info = "modify-in-progress" \/ State info = "restore-in-progress" ->
   pl_ready cfg pl w =
     (Ret (Some false), w,
      Describe pl info :: log_events cfg (MsgReadyProbe info) 1 false) /\
   forall fuel,
     wait_until_ready cfg (S fuel) pl w =
       after (Describe pl info :: log_events cfg (MsgReadyProbe info) 1 false
              ++ [Sleep])
         (wait_until_ready cfg fuel pl (sleep w))) /\
  (State info = "create-in-progress" ->
   pl_ready cfg pl w =
     (SysExit, w,
      Describe pl info :: log_events cfg (MsgReadyProbe info) 1 false
      ++ log_events cfg (MsgCreating pl) 3 false)).
Proof.
  intros info. destruct (pl_ready_run_state cfg pl w _ eq_refl) as [Hb Hc].
  split; [|exact Hc]. intros Hst. split; [by apply Hb|].
  intros fuel. by apply wait_until_ready_retry.
Qed.

(** A list under modification is reported busy; the caller sleeps and finds
    it ready. *)
Lemma in_progress_states_witness :
  State (describe_managed_prefix_lists Sim.modifying "pl-1")
    = "modify-in-progress" /\
  (pl_ready Sim.cfg "pl-1" Sim.modifying).1.1 = Ret (Some false) /\
  (wait_until_ready Sim.cfg 1 "pl-1" Sim.modifying).1.1 = Ret tt.
Proof.
  split; [reflexivity|].
  destruct (in_progress_states Sim.world Sim.remote Sim.cfg "pl-1"
              Sim.modifying) as [Hbusy _].
  destruct (Hbusy (or_introl eq_refl)) as [Hp Hw].
  split; [by rewrite Hp|]. rewrite (Hw 0%nat). vm_compute. reflexivity.
Defined.

(** C3 as stated fails for create-in-progress: the poller does not answer
    "not ready", it ends the process. *)
Lemma create_in_progress_is_fatal :
  State (describe_managed_prefix_lists Sim.creating "pl-1")
    = "create-in-progress" /\
  (pl_ready Sim.cfg "pl-1" Sim.creating).1.1 = SysExit /\
  (pl_ready Sim.cfg "pl-1" Sim.creating).1.1 <> Ret (Some false).
Proof.
  split; [reflexivity|]. split; [vm_compute; reflexivity|].
  vm_compute. discriminate.
Qed.

(** C4, as the code has it: in every pass each page of removals or of
    additions is sent with the version that a describe call returned just
    before it, no other call in between, and that call found the list in a
    ready state; the resize request carries no version. *)
Theorem pages_carry_reread_version (W : Type) (R : Remote W) (cfg : Config)
    (fuel : nat) (event : gmap string string) (w : W)
    (last : option PrefixListInfo) :
  versions_reread last (lambda_handler cfg fuel event w).2 = true.
Proof.
  revert last.
  apply (holds_lambda_handler cfg _ (Stepwise0 := stepwise_reread)).
  intros. apply admits_reread.
Qed.

(** C4 as stated fails: the resize request carries no version; and when a
    modification lands while the combined path waits, the combined request
    carries the version read at the start of the pass (5), older than the one
    the last describe call returned (6). *)
Lemma version_missing_or_stale :
  versions_fresh None
    (lambda_handler Sim.cfg 5 Sim.example_event Sim.undersized).2 = false /\
  versions_fresh None
    (lambda_handler Sim.cfg 5 Sim.example_event Sim.modifying).2 = false /\
  CurrentVersion <$>
    mods (lambda_handler Sim.cfg 5 Sim.example_event Sim.modifying).2
    = [Some 5] /\
  Sim.version (lambda_handler Sim.cfg 5 Sim.example_event Sim.modifying).1.2
    = 6.
Proof. vm_compute. repeat split; reflexivity. Qed.

(** C5: once the reads are done, a pass whose quota minus final size is
    below 1 ends there: it prints and publishes the quota alarm, exits, and
    has sent no request; a pass whose quota minus final size is at least 1
    never raises that alarm. *)
Theorem quota_gate (W : Type) (R : Remote W) (cfg : Config) (fuel : nat)
    (event : gmap string string) (w : W) (sg pl region : string)
    (pliplist : list string) :
  event !! "sg" = Some sg -> event !! "pl" = Some pl ->
  event !! "region" = Some region ->
  ips_of_entries (get_managed_prefix_list_entries w pl) = Ret pliplist ->
  let sgiplist := describe_network_interfaces w sg in
  let currentquota := get_service_quota w in
  let alarm := MsgQuotaExceeded pl currentquota region in
  (currentquota - newpllength sgiplist pliplist < 1 ->
   lambda_handler cfg fuel event w =
     (SysExit, w,
      reads_trace cfg sg pl region sgiplist pliplist
        (describe_managed_prefix_lists w pl) currentquota
      ++ log_events cfg alarm 3 true) /\
   mods (lambda_handler cfg fuel event w).2 = [] /\
   snd <$> alerts (lambda_handler cfg fuel event w).2 = [alarm]) /\
  (~ currentquota - newpllength sgiplist pliplist < 1 ->
   Forall (fun e => quota_alarm e = false) (lambda_handler cfg fuel event w).2).
Proof.
  intros Hsg Hpl Hregion Hl sgiplist currentquota alarm. split.
  - intros Hq.
    rewrite (pass_over_quota cfg fuel _ _ _ _ _ _ Hsg Hpl Hregion Hl Hq).
    split; [done|]. split; reflexivity.
  - intros Hq. eapply pass_under_quota; eauto. fold sgiplist currentquota. lia.
Qed.

(** Final size 200 under a quota of 200 aborts; final size 199 proceeds, and
    the pass completes. *)
Lemma quota_gate_witness :
  (newpllength (Sim.addresses 200) [] = 200 /\
   (lambda_handler Sim.cfg 5 Sim.example_event Sim.full).1.1 = SysExit /\
   snd <$> alerts (lambda_handler Sim.cfg 5 Sim.example_event Sim.full).2
     = [MsgQuotaExceeded "pl-1" 200 "eu-west-1"]) /\
  (newpllength (Sim.addresses 199) [] = 199 /\
   (lambda_handler Sim.cfg 5 Sim.example_event Sim.nearly_full).1.1
     = Ret (MsgSyncCompleted "sg-1" "pl-1") /\
   Forall (fun e => quota_alarm e = false)
     (lambda_handler Sim.cfg 5 Sim.example_event Sim.nearly_full).2).
Proof.
  split.
  - destruct (quota_gate Sim.world Sim.remote Sim.cfg 5 Sim.example_event
                Sim.full "sg-1" "pl-1" "eu-west-1" []
                eq_refl eq_refl eq_refl eq_refl) as [Habort _].
    destruct Habort as (Hrun & _ & Halerts); [vm_compute; reflexivity|].
    split; [vm_compute; reflexivity|]. split; [by rewrite Hrun|exact Halerts].
  - destruct (quota_gate Sim.world Sim.remote Sim.cfg 5 Sim.example_event
                Sim.nearly_full "sg-1" "pl-1" "eu-west-1" []
                eq_refl eq_refl eq_refl eq_refl) as [_ Hgo].
    split; [vm_compute; reflexivity|]. split; [vm_compute; reflexivity|].
    apply Hgo. vm_compute. discriminate.
Defined.




(** C7: for all address lists read from the group and from the prefix list,
    the set to add holds exactly the addresses of the group that the list
    lacks, the set to remove exactly the addresses of the list that the group
    lacks, and the two share no address; both are total functions of the two
    lists. *)
Theorem diff_is_set_difference (sgiplist pliplist : list string) :
  itemstoadd sgiplist pliplist
    = list_to_set sgiplist ∖ list_to_set pliplist /\
  itemstoremove sgiplist pliplist
    = list_to_set pliplist ∖ list_to_set sgiplist /\
  (forall ip, ip ∈ itemstoadd sgiplist pliplist <->
              ip ∈ sgiplist /\ ip ∉ pliplist) /\
  (forall ip, ip ∈ itemstoremove sgiplist pliplist <->
              ip ∈ pliplist /\ ip ∉ sgiplist) /\
  itemstoadd sgiplist pliplist ∩ itemstoremove sgiplist pliplist = ∅.
Proof.
  unfold itemstoadd, itemstoremove. repeat split; try done; set_solver.
Qed.

(** C8: in every pass no request that removes entries follows a request
    that adds entries; and in the branch that applies the sets, once a page
    of additions has been sent every page of the set to remove has been sent
    before it, in order. *)
Theorem removals_before_additions (W : Type) (R : Remote W) (cfg : Config)
    (fuel : nat) :
  (forall (event : gmap string string) (w : W),
     removes_first (mods (lambda_handler cfg fuel event w).2) = true) /\
  (forall (pl : string) (toadd toremove : gset string)
          (plinfo : PrefixListInfo) (w : W),
     let l := mods (apply_changes cfg fuel pl toadd toremove plinfo w).2 in
     removes_first l = true /\
     (Exists (fun req => is_page req = true /\ AddEntries req <> None) l ->
      omap RemoveEntries l = paginate (as_cidrs toremove))).
Proof.
  split.
  - intros event w. apply pass_order.
  - intros pl toadd toremove plinfo w. apply apply_changes_order.
Qed.

(** One entry to remove and 101 addresses to add: the removal goes first,
    then two pages of additions. *)
Lemma removals_before_additions_witness :
  let l := mods (apply_changes Sim.cfg 5 "pl-1"
                   (itemstoadd (Sim.addresses 101) ["10.0.1.1"])
                   (itemstoremove (Sim.addresses 101) ["10.0.1.1"])
                   (Sim.info Sim.swap) Sim.swap).2 in
  map (fun req => (length <$> AddEntries req, RemoveEntries req)) l
    = [(None, Some ["10.0.1.1/32"]); (Some 99%nat, None); (Some 2%nat, None)]
  /\ omap RemoveEntries l
    = paginate (as_cidrs (itemstoremove (Sim.addresses 101) ["10.0.1.1"])).
Proof.
  cbv zeta. split; [vm_compute; reflexivity|].
  destruct (removals_before_additions Sim.world Sim.remote Sim.cfg 5)
    as [_ H].
  apply H. apply Exists_exists.
  exists (add_request "pl-1" 2
            (take 99 (as_cidrs (itemstoadd (Sim.addresses 101) ["10.0.1.1"])))).
  split; [|split; [reflexivity|discriminate]].
  apply list_elem_of_In. vm_compute. right. left. reflexivity.
Defined.


(** C10: the addresses read from a prefix list are the address parts of the
    entries whose mask reads 32 and of no other, and reading the list without
    its other entries gives the same addresses, hence the same sets and the
    same final size; whatever a pass asks to remove reads as a host address;
    and on a remote that applies what it accepts and nothing else, an entry
    whose mask does not read 32 is still in the list after any pass. *)
Theorem other_masks_left_alone :
  (forall (entries l : list string),
     ips_of_entries entries = Ret l ->
     (forall a, a ∈ l <->
        exists cidr, cidr ∈ entries /\ entry_mask cidr = Ret 32
                     /\ entry_addr cidr = Ret a) /\
     ips_of_entries (filter (fun cidr => entry_mask cidr = Ret 32) entries)
       = Ret l) /\
  (forall (W : Type) (R : Remote W) (cfg : Config) (fuel : nat)
          (event : gmap string string) (w : W),
     Forall (fun req =>
               Forall (fun cidr => entry_mask cidr = Ret 32)
                 (default [] (RemoveEntries req)))
       (mods (lambda_handler cfg fuel event w).2)) /\
  (forall (W : Type) (R : Remote W) (F : Faithful W) (cfg : Config)
          (fuel : nat) (event : gmap string string) (w : W)
          (pl cidr : string),
     event !! "pl" = Some pl ->
     cidr ∈ entry_set w pl -> entry_mask cidr <> Ret 32 ->
     cidr ∈ entry_set (lambda_handler cfg fuel event w).1.2 pl).
Proof.
  split; [|split].
  - intros entries l Hl. split.
    + intros a. by apply ips_of_entries_elem.
    + by apply ips_of_entries_filter.
  - intros. apply removals_are_hosts.
  - intros W R F cfg fuel event w pl cidr Hpl Hin Hmask.
    by eapply (pass_spares cfg fuel event w pl Hpl).
Qed.

(** A list that holds 10.0.0.0/24 and 10.0.0.9/32 for a group that holds
    10.0.0.1: the pass reads 10.0.0.9 alone, removes 10.0.0.9/32, adds
    10.0.0.1/32 and leaves the /24 entry. *)
Lemma other_masks_left_alone_witness :
  ips_of_entries (Sim.entries Sim.mixed) = Ret ["10.0.0.9"] /\
  mods (lambda_handler Sim.cfg 5 Sim.example_event Sim.mixed).2
    = [update_request "pl-1" 1 ["10.0.0.1/32"] ["10.0.0.9/32"]] /\
  "10.0.0.0/24" ∈
    entry_set (lambda_handler Sim.cfg 5 Sim.example_event Sim.mixed).1.2
      "pl-1".
Proof.
  split; [vm_compute; reflexivity|]. split; [vm_compute; reflexivity|].
  destruct other_masks_left_alone as (_ & _ & H).
  apply (H Sim.world Sim.remote sim_faithful Sim.cfg 5%nat Sim.example_event
           Sim.mixed "pl-1" "10.0.0.0/24").
  - reflexivity.
  - unfold entry_set. apply elem_of_list_to_set. simpl. by left.
  - vm_compute. discriminate.
Defined.

(** * Further properties of the module *)

Section LogHandler.

Context {W : Type} {R : Remote W}.
Variable cfg : Config.

(** X1: every call of [log_handler] prints exactly one line, whatever the
    log level; it publishes that line exactly when asked to, and ends the
    process exactly when asked to.  The log level only decides the label: a
    line below the level, or of a severity other than 1, 2, 3, goes out as
    UNKNOWN. *)
Theorem log_level_never_silences (message : Message) (severity : Z)
    (sendmessage terminate : bool) (w : W) :
  exists label,
    log_handler cfg message severity sendmessage terminate w =
      (if terminate then SysExit else Ret tt, w,
       Print label message
         :: if sendmessage then [Publish label message] else []) /\
    (label = UNKNOWN <->
     ~ (1 <= severity <= 3 /\ log_level cfg <= severity)) /\
    (label = INFO -> severity = 1) /\
    (label = WARNING -> severity = 2) /\
    (label = CRITICAL -> severity = 3).
Proof.
  rewrite log_handler_run. unfold log_events.
  destruct (Z.eqb_spec severity 1) as [->|H1]; simpl.
  { destruct (Z.leb_spec (log_level cfg) 1); simpl.
    - exists INFO. repeat split; try done. lia.
    - exists UNKNOWN. repeat split; try done. lia. }
  destruct (Z.eqb_spec severity 2) as [->|H2]; simpl.
  { destruct (Z.leb_spec (log_level cfg) 2); simpl.
    - exists WARNING. repeat split; try done. lia.
    - exists UNKNOWN. repeat split; try done. lia. }
  destruct (Z.eqb_spec severity 3) as [->|H3]; simpl.
  { destruct (Z.leb_spec (log_level cfg) 3); simpl.
    - exists CRITICAL. repeat split; try done. lia.
    - exists UNKNOWN. repeat split; try done. lia. }
  exists UNKNOWN. repeat split; try done. lia.
Qed.

End LogHandler.

Section EventChecks.

Context {W : Type} {R : Remote W}.
Variable cfg : Config.

Lemma is_log_log_events message severity sendmessage :
  forallb is_log (log_events cfg message severity sendmessage) = true.
Proof. unfold log_events. by destruct sendmessage. Qed.

(** X2: a pass whose event lacks the security group, the prefix list or the
    region ends the process after one published alert, naming the first key
    that is missing in that order; it has made no API call and the remote is
    as it was. *)
Theorem incomplete_event_stops (fuel : nat) (event : gmap string string)
    (w : W) :
  event !! "sg" = None \/ event !! "pl" = None \/ event !! "region" = None ->
  let r := lambda_handler cfg fuel event w in
  r.1.1 = SysExit /\ r.1.2 = w /\ forallb is_log r.2 = true /\
  snd <$> alerts r.2 =
    [match event !! "sg", event !! "pl" with
     | None, _ => MsgNoSg
     | Some _, None => MsgNoPl
     | Some _, Some _ => MsgNoRegion
     end].
Proof.
  intros Hmiss. cbv zeta. unfold lambda_handler.
  destruct (event !! "sg") as [sg|] eqn:Hsg; cycle 1.
  { rewrite (event_field_none _ _ _ _ _ _ _ Hsg). cbn [fst snd].
    split; [done|]. split; [done|].
    split; [apply is_log_log_events|reflexivity]. }
  rewrite (event_field_some _ _ _ _ _ _ _ _ Hsg).
  destruct (event !! "pl") as [pl|] eqn:Hpl; cycle 1.
  { rewrite (event_field_none _ _ _ _ _ _ _ Hpl). cbn [after fst snd].
    split; [done|]. split; [done|].
    split; [by rewrite forallb_app, !is_log_log_events|reflexivity]. }
  rewrite (event_field_some _ _ _ _ _ _ _ _ Hpl).
  destruct (event !! "region") as [region|] eqn:Hregion; cycle 1.
  { rewrite (event_field_none _ _ _ _ _ _ _ Hregion). cbn [after fst snd].
    split; [done|]. split; [done|].
    split; [by rewrite !forallb_app, !is_log_log_events|reflexivity]. }
  by destruct Hmiss as [?|[?|?]].
Qed.

(** X3: the entries of the prefix list read well exactly when every entry
    has a part after a slash that reads as an integer; when one does not, the
    pass raises, having sent no request and left the remote as it was. *)
Theorem unreadable_entry_raises (fuel : nat) (event : gmap string string)
    (w : W) (sg pl region : string) :
  event !! "sg" = Some sg -> event !! "pl" = Some pl ->
  event !! "region" = Some region ->
  let entries := get_managed_prefix_list_entries w pl in
  ((exists l, ips_of_entries entries = Ret l) <->
   (forall cidr, cidr ∈ entries -> exists mask, entry_mask cidr = Ret mask)) /\
  ((exists cidr, cidr ∈ entries /\
      forall mask, entry_mask cidr <> Ret mask) ->
   let r := lambda_handler cfg fuel event w in
   (exists e, r.1.1 = Raised e) /\ r.1.2 = w /\ mods r.2 = []).
Proof.
  intros Hsg Hpl Hregion entries. split.
  - split.
    + intros [l Hl] cidr Hc. by eapply ips_of_entries_masks.
    + apply ips_of_entries_total.
  - intros (cidr & Hc & Hbad). cbv zeta. unfold lambda_handler.
    rewrite (event_field_some _ _ _ _ _ _ _ _ Hsg).
    rewrite (event_field_some _ _ _ _ _ _ _ _ Hpl).
    rewrite (event_field_some _ _ _ _ _ _ _ _ Hregion).
    rewrite !bind_log, get_ips_in_sg_run, get_ips_in_pl_run.
    fold entries.
    assert (forall e, entry_mask e <> SysExit /\ entry_mask e <> Timeout)
      as Hmask.
    { intros e. unfold entry_mask, index.
      destruct (str_split "/" e !! 1%nat) as [m|]; cbn [and_then]; [|done].
      unfold int.
      match goal with
      | |- context [match ?b with Some z => Ret z | None => _ end] =>
          by destruct b
      end. }
    assert (forall l, ips_of_entries l <> SysExit /\
                      ips_of_entries l <> Timeout) as Hno.
    { induction l as [|e l [IH1 IH2]]; [done|]. simpl.
      destruct (Hmask e) as [He1 He2].
      destruct (entry_mask e) as [mask| | |]; cbn [and_then]; try done.
      destruct (mask =? 32); [|done].
      destruct (entry_addr_ret e) as (a & -> & _). cbn [and_then].
      by destruct (ips_of_entries l). }
    destruct (ips_of_entries entries) as [l| |e|] eqn:Hl.
    + destruct (ips_of_entries_masks _ _ _ Hl Hc) as [mask Hm].
      by destruct (Hbad mask).
    + by destruct (Hno entries).
    + rewrite !after_after. simpl. split; [by exists e|]. split; [done|].
      unfold log_events. reflexivity.
    + by destruct (Hno entries).
Qed.

End EventChecks.

(** An event without a region stops the pass before it reads the group. *)
Lemma incomplete_event_stops_witness :
  (lambda_handler Sim.cfg 5 {[ "sg" := "sg-1"; "pl" := "pl-1" ]}
     Sim.end_to_end).1.1 = SysExit /\
  snd <$> alerts (lambda_handler Sim.cfg 5 {[ "sg" := "sg-1"; "pl" := "pl-1" ]}
                    Sim.end_to_end).2 = [MsgNoRegion].
Proof.
  destruct (incomplete_event_stops Sim.cfg 5
              {[ "sg" := "sg-1"; "pl" := "pl-1" ]} Sim.end_to_end)
    as (Ho & _ & _ & Ha).
  - right. right. reflexivity.
  - split; [exact Ho|exact Ha].
Defined.


(** An entry without a slash makes the pass raise IndexError. *)
Lemma unreadable_entry_raises_witness :
  (lambda_handler Sim.cfg 5 Sim.example_event
     (Sim.steady (Sim.addresses 1) ["10.0.0.9"] 100 1000)).1.1
    = Raised IndexError.
Proof.
  destruct (unreadable_entry_raises Sim.cfg 5 Sim.example_event
              (Sim.steady (Sim.addresses 1) ["10.0.0.9"] 100 1000)
              "sg-1" "pl-1" "eu-west-1" eq_refl eq_refl eq_refl) as [_ H].
  destruct H as ([e He] & _ & _).
  - exists "10.0.0.9". split; [simpl; by left|]. intros mask. vm_compute.
    discriminate.
  - vm_compute. reflexivity.
Defined.


Section PollerStates.

Context {W : Type} {R : Remote W}.
Variable cfg : Config.

(** X4: the poller sorts every state.  The three complete states answer
    [True]; modify- and restore-in-progress answer [False]; every other
    state, known or not, ends the process, and apart from create-in-progress
    it does so after one published alert, which for modify-failed carries the
    state message of the list.  No probe changes the remote or sends a
    request. *)
Theorem poller_sorts_states (pl : string) (w : W) :
  let info := describe_managed_prefix_lists w pl in
  let r := pl_ready cfg pl w in
  r.1.2 = w /\ mods r.2 = [] /\
  (ready_state (State info) = true ->
   r.1.1 = Ret (Some true) /\ alerts r.2 = []) /\
  (busy_state (State info) = true ->
   r.1.1 = Ret (Some false) /\ alerts r.2 = []) /\
  (ready_state (State info) = false -> busy_state (State info) = false ->
   r.1.1 = SysExit /\
   (State info <> "create-in-progress" -> length (alerts r.2) = 1%nat) /\
   (State info = "modify-failed" ->
    snd <$> alerts r.2 = [MsgModifyFailed pl (StateMessage info)])).
Proof.
  cbv zeta. unfold pl_ready, call_describe_managed_prefix_lists.
  rewrite (bind_run_ret _ _ w _ _ _ eq_refl), bind_log.
  unfold ready_state, busy_state.
  set (info := describe_managed_prefix_lists w pl).
  repeat match goal with
  | |- context [if String.eqb ?a ?b then _ else _] =>
      let E := fresh "E" in destruct (String.eqb a b) eqn:E
  end;
  rewrite ?bind_log_exit, ?bind_ret; cbn [after fst snd];
  try match goal with
  | H : String.eqb _ _ = true |- _ => apply String.eqb_eq in H; rewrite H
  end;
  (split; [done|]); (split; [reflexivity|]);
  (split; [intros H; try (vm_compute in H; discriminate); split; reflexivity|]);
  (split; [intros H; try (vm_compute in H; discriminate); split; reflexivity|]);
  intros H1 H2; try (vm_compute in H1; discriminate);
  try (vm_compute in H2; discriminate); clear H1 H2; (split; [done|]);
  (split; [intros Hne; try reflexivity; congruence|]);
  intros Hst; try reflexivity; try discriminate;
  apply String.eqb_eq in Hst; congruence.
Qed.

Lemma pl_ready_ready pl w :
  ready_state (State (describe_managed_prefix_lists w pl)) = true ->
  pl_ready cfg pl w =
    (Ret (Some true), w,
     Describe pl (describe_managed_prefix_lists w pl)
       :: log_events cfg
            (MsgReadyProbe (describe_managed_prefix_lists w pl)) 1 false).
Proof.
  unfold pl_ready, call_describe_managed_prefix_lists, ready_state.
  rewrite (bind_run_ret _ _ w _ _ _ eq_refl), bind_log.
  repeat match goal with
  | |- context [if String.eqb ?a ?b then _ else _] =>
      let E := fresh "E" in destruct (String.eqb a b) eqn:E
  end; intros H; try reflexivity; exfalso;
  try match goal with
  | E : String.eqb _ _ = true |- _ => apply String.eqb_eq in E; rewrite E in H
  end; vm_compute in H; discriminate.
Qed.

Lemma sleeps_app t1 t2 : sleeps (t1 ++ t2) = (sleeps t1 + sleeps t2)%nat.
Proof.
  induction t1 as [|e t1 IH]; simpl; [done|]. destruct e; simpl; lia.
Qed.

Lemma busy_state_cases st :
  busy_state st = true ->
  st = "modify-in-progress" \/ st = "restore-in-progress".
Proof.
  unfold busy_state. intros [H|H]%orb_prop; apply String.eqb_eq in H; auto.
Qed.

(** X5: when the list is busy for the next [k] seconds and ready after them,
    the polling block returns for any fuel of at least [k], having slept
    exactly [k] times and sent no request; the remote is where [k] seconds
    took it. *)
Theorem wait_returns_when_ready (pl : string) (k : nat) : forall (w : W)
    (fuel : nat),
  (forall i, (i < k)%nat ->
     busy_state (State (describe_managed_prefix_lists (Nat.iter i sleep w) pl))
       = true) ->
  ready_state (State (describe_managed_prefix_lists (Nat.iter k sleep w) pl))
    = true ->
  (k <= fuel)%nat ->
  let r := wait_until_ready cfg fuel pl w in
  r.1.1 = Ret tt /\ r.1.2 = Nat.iter k sleep w /\
  sleeps r.2 = k /\ mods r.2 = [].
Proof.
  induction k as [|k IH]; intros w fuel Hbusy Hready Hfuel; cbv zeta.
  - simpl in Hready. unfold wait_until_ready.
    rewrite (bind_run_ret _ _ _ _ _ _ (pl_ready_ready pl w Hready)).
    destruct fuel; simpl; repeat split; reflexivity.
  - destruct fuel as [|fuel]; [lia|].
    assert (busy_state (State (describe_managed_prefix_lists w pl)) = true)
      as Hb by (apply (Hbusy 0%nat); lia).
    rewrite (wait_until_ready_retry cfg fuel pl w (busy_state_cases _ Hb)).
    destruct (IH (sleep w) fuel) as (Ho & Hw & Hs & Hm).
    + intros i Hi. rewrite <- Nat.iter_succ_r. apply Hbusy. lia.
    + by rewrite <- Nat.iter_succ_r.
    + lia.
    + destruct (wait_until_ready cfg fuel pl (sleep w)) as [[o w'] t].
      cbn [after fst snd] in *. subst o w'.
      rewrite Nat.iter_succ_r. split; [done|]. split; [done|].
      rewrite sleeps_app, mods_app, Hs, Hm. unfold log_events. simpl.
      split; [lia|done].
Qed.

(** X6: the polling block sets no bound of its own: while the list stays
    busy it sleeps and polls again, so that any fuel is used up, one sleep per
    unit, without a request being sent. *)
Theorem wait_has_no_bound (pl : string) (fuel : nat) : forall (w : W),
  (forall i,
     busy_state (State (describe_managed_prefix_lists (Nat.iter i sleep w) pl))
       = true) ->
  let r := wait_until_ready cfg fuel pl w in
  r.1.1 = Timeout /\ sleeps r.2 = fuel /\ mods r.2 = [].
Proof.
  induction fuel as [|fuel IH]; intros w Hbusy; cbv zeta.
  - pose proof (Hbusy 0%nat) as Hb. simpl in Hb.
    unfold wait_until_ready.
    destruct (pl_ready_run_state cfg pl w _ eq_refl) as [Hrun _].
    rewrite (bind_run_ret _ _ _ _ _ _ (Hrun (busy_state_cases _ Hb))).
    unfold log_events. simpl. done.
  - pose proof (Hbusy 0%nat) as Hb. simpl in Hb.
    rewrite (wait_until_ready_retry cfg fuel pl w (busy_state_cases _ Hb)).
    destruct (IH (sleep w)) as (Ho & Hs & Hm).
    + intros i. rewrite <- Nat.iter_succ_r. apply Hbusy.
    + destruct (wait_until_ready cfg fuel pl (sleep w)) as [[o w'] t].
      cbn [after fst snd] in *. subst o.
      split; [done|]. rewrite sleeps_app, mods_app, Hs, Hm.
      unfold log_events. simpl. split; [lia|done].
Qed.

End PollerStates.

Lemma wait_returns_when_ready_witness :
  let r := wait_until_ready Sim.cfg 5 "pl-1" Sim.modifying in
  r.1.1 = Ret tt /\ r.1.2 = Sim.land Sim.modifying /\
  sleeps r.2 = 1%nat /\ mods r.2 = [].
Proof.
  change (Sim.land Sim.modifying) with (Nat.iter 1 sleep Sim.modifying).
  apply (wait_returns_when_ready Sim.cfg "pl-1" 1 Sim.modifying 5).
  - intros i Hi. assert (i = 0%nat) as -> by lia. reflexivity.
  - reflexivity.
  - lia.
Defined.

Lemma stuck_stays (i : nat) : Nat.iter i sleep stuck = stuck.
Proof. induction i as [|i IH]; [done|]. by rewrite Nat.iter_succ, IH. Qed.

Lemma wait_has_no_bound_witness :
  let r := wait_until_ready Sim.cfg 7 "pl-1" stuck in
  r.1.1 = Timeout /\ sleeps r.2 = 7%nat /\ mods r.2 = [].
Proof.
  apply (wait_has_no_bound Sim.cfg "pl-1" 7 stuck).
  intros i. rewrite stuck_stays. reflexivity.
Defined.

Section FinalSize.

Lemma size_list_to_set_le (l : list string) :
  (size (list_to_set l : gset string) <= length l)%nat.
Proof.
  induction l as [|x l IH]; [by rewrite list_to_set_nil, size_empty|].
  rewrite list_to_set_cons, size_union_alt, size_singleton. simpl.
  pose proof (subseteq_size (list_to_set l ∖ {[x]}) (list_to_set l : gset string)
                ltac:(set_solver)).
  lia.
Qed.

(** X7: the final size that a pass computes is the number of distinct
    addresses of the group plus the number of repeated host addresses of the
    list: [len] counts the list with its repetitions while the two sets do
    not.  It is never below the number of distinct addresses of the group. *)
Theorem final_size_counts_repetitions (sgiplist pliplist : list string) :
  newpllength sgiplist pliplist =
    Z.of_nat (size (list_to_set sgiplist : gset string))
    + (Z.of_nat (length pliplist)
       - Z.of_nat (size (list_to_set pliplist : gset string))) /\
  Z.of_nat (size (list_to_set sgiplist : gset string))
    <= newpllength sgiplist pliplist.
Proof.
  assert (newpllength sgiplist pliplist =
    Z.of_nat (size (list_to_set sgiplist : gset string))
    + (Z.of_nat (length pliplist)
       - Z.of_nat (size (list_to_set pliplist : gset string)))) as E.
  { unfold newpllength, itemstoadd, itemstoremove.
    set (S := list_to_set sgiplist : gset string).
    set (P := list_to_set pliplist : gset string).
    pose proof (size_union_alt S P) as H1.
    pose proof (size_union_alt P S) as H2.
    assert (S ∪ P = P ∪ S) as E by set_solver.
    rewrite E in H1. lia. }
  split; [exact E|]. rewrite E.
  pose proof (size_list_to_set_le pliplist). lia.
Qed.

End FinalSize.

Section SilentPass.

Context {W : Type} {R : Remote W}.
Variable cfg : Config.

Lemma apply_changes_nothing fuel pl toadd toremove plinfo (w : W) :
  Z.max (len toadd) (len toremove) = 0 \/
  Z.max (len toadd) (len toremove) = 100 ->
  apply_changes cfg fuel pl toadd toremove plinfo w =
    (Ret tt, w, log_events cfg (MsgNoUpdate pl) 1 false).
Proof.
  intros H. unfold apply_changes.
  assert (0 <= len toadd /\ 0 <= len toremove) as [? ?]
    by (unfold len; lia).
  replace (((len toadd >? 0) || (len toremove >? 0))
           && (len toadd <? 100) && (len toremove <? 100)) with false by lia.
  replace (((len toadd >? 0) || (len toremove >? 0))
           && ((len toadd >? 100) || (len toremove >? 100))) with false by lia.
  apply log_handler_run.
Qed.

(** X8: a pass reports success without sending a request, sleeping or
    changing the remote exactly when there is nothing to do, and also when the
    larger of the two sets has exactly 100 addresses, whatever they are: the
    combined path asks for fewer than 100 and the paginated path for more
    than 100.  The list holds the final size and the quota check passes. *)
Theorem nothing_sent_at_zero_and_at_hundred (fuel : nat)
    (event : gmap string string) (w : W) (sg pl region : string)
    (pliplist : list string) (over : bool) :
  event !! "sg" = Some sg -> event !! "pl" = Some pl ->
  event !! "region" = Some region ->
  ips_of_entries (get_managed_prefix_list_entries w pl) = Ret pliplist ->
  let sgiplist := describe_network_interfaces w sg in
  let plinfo := describe_managed_prefix_lists w pl in
  let currentquota := get_service_quota w in
  let newlength := newpllength sgiplist pliplist in
  1 <= currentquota - newlength ->
  over_threshold cfg newlength currentquota = Ret over ->
  newlength <= MaxEntries plinfo ->
  Z.max (len (itemstoadd sgiplist pliplist))
        (len (itemstoremove sgiplist pliplist)) = 0 \/
  Z.max (len (itemstoadd sgiplist pliplist))
        (len (itemstoremove sgiplist pliplist)) = 100 ->
  lambda_handler cfg fuel event w =
    (Ret (MsgSyncCompleted sg pl), w,
     reads_trace cfg sg pl region sgiplist pliplist plinfo currentquota
     ++ (if over
         then log_events cfg (MsgThresholdExceeded pl region) 3 true else [])
     ++ log_events cfg (MsgNoUpdate pl) 1 false
     ++ log_events cfg (MsgSyncCompleted sg pl) 1 false).
Proof.
  intros Hsg Hpl Hregion Hl sgiplist plinfo currentquota newlength Hq Ho Hmax
    Hsizes.
  rewrite (lambda_handler_run _ _ _ _ _ _ _ _ Hsg Hpl Hregion Hl).
  fold sgiplist plinfo currentquota newlength.
  unfold finish_pass.
  assert (check_quota cfg pl region currentquota newlength w =
            (Ret tt, w,
             if over
             then log_events cfg (MsgThresholdExceeded pl region) 3 true
             else [])) as Eq.
  { unfold check_quota.
    destruct (Z.ltb_spec (currentquota - newlength) 1); [lia|].
    unfold bind, lift. rewrite Ho. unfold when.
    destruct over; [by rewrite log_handler_run|done]. }
  rewrite (bind_run_ret _ _ _ _ _ _ Eq).
  destruct (Z.ltb_spec (MaxEntries plinfo) newlength); [lia|].
  rewrite (bind_run_ret _ _ _ _ _ _
             (apply_changes_nothing fuel pl _ _ plinfo w Hsizes)).
  rewrite bind_log. unfold ret. cbn [after]. by rewrite app_nil_r.
Qed.

End SilentPass.

Lemma nothing_sent_at_zero_and_at_hundred_witness :
  size (itemstoadd (Sim.addresses 100) []) = 100%nat /\
  (lambda_handler Sim.cfg 5 Sim.example_event Sim.hundred).1.1
    = Ret (MsgSyncCompleted "sg-1" "pl-1") /\
  mods (lambda_handler Sim.cfg 5 Sim.example_event Sim.hundred).2 = [].
Proof.
  split; [by vm_compute|].
  rewrite (nothing_sent_at_zero_and_at_hundred Sim.cfg 5 Sim.example_event
             Sim.hundred "sg-1" "pl-1" "eu-west-1" [] false).
  - split; [reflexivity|]. by vm_compute.
  - reflexivity.
  - reflexivity.
  - reflexivity.
  - reflexivity.
  - by vm_compute.
  - by vm_compute.
  - by vm_compute.
  - right. by vm_compute.
Defined.

Section ResizePass.

Context {W : Type} {R : Remote W} `{!Faithful W}.
Variable cfg : Config.

Lemma stepwise_resized_only pl : Stepwise (resized_only pl).
Proof.
  split.
  - intros w. split; [done|constructor].
  - intros w1 w2 w3 t1 t2 [H1 F1] [H2 F2]. split; [congruence|].
    rewrite mods_app. by apply Forall_app.
  - intros w e He. split; [done|]. rewrite (mods_routine e He). constructor.
  - intros w. split; [apply sleep_entries|constructor].
Qed.

Lemma resized_only_logs pl w message severity sendmessage :
  resized_only pl w w (log_events cfg message severity sendmessage).
Proof. split; [done|]. rewrite mods_log. constructor. Qed.

Lemma holds_resize_branch fuel sg pl region toadd toremove newlength plinfo
    currentquota :
  MaxEntries plinfo < newlength ->
  holds (resized_only pl)
    (finish_pass cfg fuel sg pl region toadd toremove newlength plinfo
       currentquota).
Proof.
  intros Hres. set (Q := resized_only pl).
  assert (Stepwise Q) as HQ by apply stepwise_resized_only.
  assert (forall message severity sendmessage terminate,
            holds Q (log_handler cfg message severity sendmessage terminate))
    as Hlog.
  { intros message severity sendmessage terminate w.
    rewrite log_handler_run. apply resized_only_logs. }
  unfold finish_pass.
  destruct (Z.ltb_spec (MaxEntries plinfo) newlength); [|lia].
  apply (holds_bind Q).
  { unfold check_quota, when. destruct (currentquota - newlength <? 1);
      [apply Hlog|].
    apply (holds_bind Q); [apply (holds_lift Q)|].
    intros [|]; [apply Hlog|apply (holds_ret Q)]. }
  intros _. apply (holds_bind Q).
  - apply (holds_bind Q); [|intros _; apply (holds_wait_until_ready cfg Q)].
    unfold pl_resize. apply (holds_bind Q); [apply (holds_lift Q)|].
    intros newmaxent. apply (holds_bind Q).
    { destruct (newmaxent >? currentquota); [|apply (holds_ret Q)].
      apply (holds_bind Q); [apply Hlog|]. intros _. apply (holds_ret Q). }
    intros newmaxent'. apply (holds_bind Q).
    { intros w. unfold call_modify_managed_prefix_list.
      destruct (modify_managed_prefix_list w (resize_request pl newmaxent'))
        as [resp w'] eqn:Em. cbn [fst snd]. split.
      - destruct resp as [v|].
        + rewrite (accepted_entries _ _ _ _ Em
                   : entry_set w' pl = _). simpl. set_solver.
        + apply (refused_entries _ _ _ _ Em).
      - simpl. by repeat constructor. }
    intros [v|]; (apply (holds_bind Q); [apply Hlog|]); intros _;
      apply (holds_ret Q).
  - intros _. apply (holds_bind Q); [apply Hlog|]. intros _.
    apply (holds_ret Q).
Qed.

(** X9: a pass that finds the list too small for the final size moves no
    entry: it sends at most one request, which only sets the maximum size of
    that list, and on a remote that applies what it accepts and nothing else
    the entries of the list are afterwards what they were, however many
    addresses were to add or to remove. *)
Theorem resize_pass_moves_no_entry (fuel : nat) (event : gmap string string)
    (w : W) (sg pl region : string) (pliplist : list string) :
  event !! "sg" = Some sg -> event !! "pl" = Some pl ->
  event !! "region" = Some region ->
  ips_of_entries (get_managed_prefix_list_entries w pl) = Ret pliplist ->
  MaxEntries (describe_managed_prefix_lists w pl)
    < newpllength (describe_network_interfaces w sg) pliplist ->
  let r := lambda_handler cfg fuel event w in
  entry_set r.1.2 pl = entry_set w pl /\
  Forall (fun req => is_resize req = true) (mods r.2) /\
  (length (mods r.2) <= 1)%nat.
Proof.
  intros Hsg Hpl Hregion Hl Hres. cbv zeta.
  rewrite (lambda_handler_run _ _ _ _ _ _ _ _ Hsg Hpl Hregion Hl).
  set (sgiplist := describe_network_interfaces w sg) in *.
  set (plinfo := describe_managed_prefix_lists w pl) in *.
  set (f := finish_pass _ _ _ _ _ _ _ _ _ _).
  pose proof (holds_resize_branch fuel sg pl region
                (itemstoadd sgiplist pliplist)
                (itemstoremove sgiplist pliplist) _ plinfo
                (get_service_quota w) Hres w) as [Hk Hr].
  fold f in Hk, Hr.
  assert ((length (mods (f w).2) <= 1)%nat) as Hlen.
  { unfold f, finish_pass.
    destruct (Z.ltb_spec (MaxEntries plinfo) (newpllength sgiplist pliplist));
      [|lia].
    rewrite mods_bind, check_quota_quiet. simpl.
    destruct (check_quota _ _ _ _ _ w) as [[[[]| |e|] w1] t1]; simpl;
      try lia.
    set (X := bind (pl_resize cfg pl _ _) _).
    rewrite (mods_bind X).
    assert (mods (X w1).2 = mods (pl_resize cfg pl (get_service_quota w)
                                    (newpllength sgiplist pliplist) w1).2)
      as ->.
    { unfold X. rewrite mods_bind.
      destruct (pl_resize cfg pl _ _ w1) as [[[v| |e|] w2] t2]; simpl;
        rewrite ?wait_until_ready_quiet, ?app_nil_r; done. }
    pose proof (pl_resize_mods cfg pl (get_service_quota w)
                  (newpllength sgiplist pliplist) w1) as Hp.
    destruct (X w1).1.1; rewrite ?app_nil_r; done. }
  destruct (f w) as [[o w'] t]. cbn [after fst snd] in *.
  rewrite mods_app.
  replace (mods (reads_trace _ _ _ _ _ _ _ _)) with (@nil ModifyRequest)
    by reflexivity.
  done.
Qed.

End ResizePass.

Lemma resize_pass_moves_no_entry_witness :
  let r := lambda_handler Sim.cfg 5 Sim.example_event Sim.undersized in
  entry_set r.1.2 "pl-1" = entry_set Sim.undersized "pl-1" /\
  Forall (fun req => is_resize req = true) (mods r.2) /\
  (length (mods r.2) <= 1)%nat.
Proof.
  apply (resize_pass_moves_no_entry (Faithful0 := sim_faithful) Sim.cfg 5
           Sim.example_event Sim.undersized "sg-1" "pl-1" "eu-west-1" []).
  - reflexivity.
  - reflexivity.
  - reflexivity.
  - reflexivity.
  - by vm_compute.
Defined.

Section Provenance.

Context {W : Type} {R : Remote W}.
Variable cfg : Config.

Lemma NoDup_as_cidrs (s : gset string) : NoDup (as_cidrs s).
Proof.
  unfold as_cidrs.
  change (NoDup ((fun ip => ip +:+ "/32") <$> elements s)).
  apply NoDup_fmap_2; [|apply NoDup_elements].
  intros a b. apply append_inj_l.
Qed.

Lemma NoDup_page {A} (l page : list A) :
  NoDup l -> page ∈ paginate l -> NoDup page.
Proof.
  intros Hl. rewrite paginate_unfold.
  intros (k & -> & _)%list_elem_of_fmap.
  eapply sublist_NoDup; [exact Hl|].
  etrans; [apply sublist_take|apply sublist_drop].
Qed.

(** X10: whatever a pass sends goes to the list named in the event and is
    drawn from the difference of the two reads: every entry it adds is
    [a/32] for an address [a] of the group that was not read from the list,
    every entry it removes is [a/32] for an address read from the list that
    the group does not hold, and no request names an entry twice. *)
Theorem requests_come_from_the_reads (fuel : nat)
    (event : gmap string string) (w : W) (sg pl : string)
    (pliplist : list string) :
  event !! "sg" = Some sg -> event !! "pl" = Some pl ->
  ips_of_entries (get_managed_prefix_list_entries w pl) = Ret pliplist ->
  let sgiplist := describe_network_interfaces w sg in
  Forall (fun req =>
            PrefixListId req = pl /\
            Forall (fun cidr => exists a, cidr = a +:+ "/32" /\
                                          a ∈ sgiplist /\ a ∉ pliplist)
              (default [] (AddEntries req)) /\
            Forall (fun cidr => exists a, cidr = a +:+ "/32" /\
                                          a ∈ pliplist /\ a ∉ sgiplist)
              (default [] (RemoveEntries req)) /\
            NoDup (default [] (AddEntries req)) /\
            NoDup (default [] (RemoveEntries req)))
    (mods (lambda_handler cfg fuel event w).2).
Proof.
  intros Hsg Hpl Hl sgiplist.
  assert (forall cidr, cidr ∈ as_cidrs (itemstoadd sgiplist pliplist) ->
            exists a, cidr = a +:+ "/32" /\ a ∈ sgiplist /\ a ∉ pliplist)
    as Hadds.
  { intros cidr (a & Ha & ->)%elem_of_as_cidrs. exists a. split; [done|].
    unfold itemstoadd in Ha. set_solver. }
  assert (forall cidr, cidr ∈ as_cidrs (itemstoremove sgiplist pliplist) ->
            exists a, cidr = a +:+ "/32" /\ a ∈ pliplist /\ a ∉ sgiplist)
    as Hremoves.
  { intros cidr (a & Ha & ->)%elem_of_as_cidrs. exists a. split; [done|].
    unfold itemstoremove in Ha. set_solver. }
  apply (holds_lambda_handler cfg _ (Stepwise0 := stepwise_requests _)).
  intros sg' pl' region pliplist' Hsg' Hpl' _ Hl' sgiplist'.
  assert (sg' = sg) as -> by congruence.
  assert (pl' = pl) as -> by congruence.
  assert (pliplist' = pliplist) as -> by congruence.
  subst sgiplist'. fold sgiplist.
  apply admits_requests; simpl.
  - intros _. repeat split; constructor.
  - intros _ _ _. repeat split.
    + apply Forall_forall, Hadds.
    + apply Forall_forall, Hremoves.
    + apply NoDup_as_cidrs.
    + apply NoDup_as_cidrs.
  - intros _ page Hp. repeat split; try constructor.
    + apply Forall_forall. intros cidr Hc. apply Hremoves.
      by eapply elem_of_paginate.
    + eapply NoDup_page; [apply NoDup_as_cidrs|done].
  - intros _ page Hp. repeat split; try constructor.
    + apply Forall_forall. intros cidr Hc. apply Hadds.
      by eapply elem_of_paginate.
    + eapply NoDup_page; [apply NoDup_as_cidrs|done].
Qed.

End Provenance.

Lemma requests_come_from_the_reads_witness :
  Forall (fun req =>
            PrefixListId req = "pl-1" /\
            Forall (fun cidr => exists a, cidr = a +:+ "/32" /\
                                          a ∈ describe_network_interfaces Sim.swap "sg-1" /\
                                          a ∉ ["10.0.1.1"])
              (default [] (AddEntries req)) /\
            Forall (fun cidr => exists a, cidr = a +:+ "/32" /\
                                          a ∈ ["10.0.1.1"] /\
                                          a ∉ describe_network_interfaces Sim.swap "sg-1")
              (default [] (RemoveEntries req)) /\
            NoDup (default [] (AddEntries req)) /\
            NoDup (default [] (RemoveEntries req)))
    (mods (lambda_handler Sim.cfg 5 Sim.example_event Sim.swap).2).
Proof.
  apply (requests_come_from_the_reads Sim.cfg 5 Sim.example_event Sim.swap
           "sg-1" "pl-1" ["10.0.1.1"]); reflexivity.
Defined.

Section FailFast.

Context {W : Type} {R : Remote W}.
Variable cfg : Config.

Lemma refused_last_app t1 t2 :
  Forall (fun e => refused e = false) t1 ->
  refused_last (t1 ++ t2) = refused_last t2.
Proof.
  induction 1 as [|e t1 He _ IH]; [done|].
  destruct e as [| | | | | |req [v|]|]; simpl in *; done.
Qed.

Lemma refused_last_accepted t :
  Forall (fun e => refused e = false) t -> refused_last t = true.
Proof.
  induction 1 as [|e t He _ IH]; [done|].
  destruct e as [| | | | | |req [v|]|]; simpl in *; done.
Qed.

Lemma alerts_app t1 t2 : alerts (t1 ++ t2) = alerts t1 ++ alerts t2.
Proof. apply omap_app. Qed.

Lemma accepted_quiet t : mods t = [] -> Forall (fun e => refused e = false) t.
Proof.
  induction t as [|e t IH]; [constructor|].
  destruct e; simpl; try discriminate; intros H; constructor; auto.
Qed.

Lemma failfast_quiet {A} (r : outcome A * W * list Event) :
  mods r.2 = [] -> failfast r.
Proof. intros H. left. by apply accepted_quiet. Qed.

Lemma failfast_after {A} t0 (r : outcome A * W * list Event) :
  Forall (fun e => refused e = false) t0 -> failfast r ->
  failfast (after t0 r).
Proof.
  destruct r as [[o w] t].
  intros H0 [H|(Ho & Hl & Ha)]; unfold failfast; cbn [after fst snd] in *.
  - left. by apply Forall_app.
  - right. split; [done|]. rewrite refused_last_app by done.
    split; [done|]. rewrite alerts_app. intros [_ E]%app_eq_nil. done.
Qed.

Lemma failfast_bind {A B} (m : M W A) (f : A -> M W B) w :
  failfast (m w) -> (forall a w', failfast (f a w')) ->
  failfast (bind m f w).
Proof.
  intros Hm Hf. unfold bind.
  destruct (m w) as [[[a| |e|] w1] t1] eqn:Em;
    try (destruct Hm as [Hm|(Ho & Hm)]; [by left|by right]).
  destruct Hm as [Hm|(Ho & _)]; [|done]. cbn [fst snd] in Hm.
  specialize (Hf a w1). destruct (f a w1) as [[o w2] t2].
  by apply (failfast_after t1 (o, w2, t2)).
Qed.

Lemma failfast_log {B} message severity sendmessage terminate
    (f : unit -> M W B) w :
  (forall w', failfast (f tt w')) ->
  failfast (bind (log_handler cfg message severity sendmessage terminate) f w).
Proof.
  intros Hf. apply failfast_bind; [|by intros []].
  apply failfast_quiet. rewrite log_handler_run. apply mods_log.
Qed.

(** A mutating call followed by the test of its answer. *)
Lemma failfast_modify {B} req message (k1 : Z -> M W B) (k2 : unit -> M W B)
    w :
  (forall v w', failfast (k1 v w')) ->
  failfast
    (bind (call_modify_managed_prefix_list req)
       (fun response =>
          match response with
          | Some version' => k1 version'
          | None => bind (log_handler cfg message 3 true true) k2
          end) w).
Proof.
  intros Hk. destruct (modify_managed_prefix_list w req) as [[v|] w'] eqn:Em.
  - rewrite (bind_run_ret _ _ _ _ _ _ (call_modify_run _ _ _ _ Em)).
    apply failfast_after; [by repeat constructor|apply Hk].
  - rewrite (bind_run_ret _ _ _ _ _ _ (call_modify_run _ _ _ _ Em)).
    rewrite bind_log_exit. right. unfold log_events. simpl. done.
Qed.

Lemma failfast_wait {B} fuel pl (f : unit -> M W B) w :
  (forall w', failfast (f tt w')) ->
  failfast (bind (wait_until_ready cfg fuel pl) f w).
Proof.
  intros Hf. apply failfast_bind; [|by intros []].
  apply failfast_quiet, wait_until_ready_quiet.
Qed.

Lemma failfast_pl_info {B} pl (f : PrefixListInfo -> M W B) w :
  (forall info w', failfast (f info w')) ->
  failfast (bind (pl_info cfg pl) f w).
Proof.
  intros Hf. apply failfast_bind; [|done].
  apply failfast_quiet. by rewrite pl_info_run.
Qed.

Lemma failfast_ret {A} (a : A) (w : W) : failfast (ret a w).
Proof. left. constructor. Qed.

Lemma failfast_remove_pages fuel pl pages : forall version w,
  failfast (remove_pages cfg fuel pl pages version w).
Proof.
  induction pages as [|page rest IH]; intros version w; simpl;
    [apply failfast_ret|].
  apply failfast_wait. intros w1. apply failfast_pl_info. intros info w2.
  apply (failfast_modify _ _
           (fun version' =>
              bind (log_handler cfg (MsgModifyResult version') 1 false false)
                (fun _ => remove_pages cfg fuel pl rest version'))).
  intros v w3. apply failfast_log. intros w4. apply IH.
Qed.

Lemma failfast_add_pages fuel pl pages : forall version w,
  failfast (add_pages cfg fuel pl pages version w).
Proof.
  induction pages as [|page rest IH]; intros version w; simpl;
    [apply failfast_ret|].
  apply failfast_wait. intros w1. apply failfast_pl_info. intros info w2.
  apply (failfast_modify _ _
           (fun version' =>
              bind (log_handler cfg (MsgModifyResult version') 1 false false)
                (fun _ => add_pages cfg fuel pl rest version'))).
  intros v w3. apply failfast_log. intros w4. apply IH.
Qed.

Lemma failfast_apply_changes fuel pl toadd toremove plinfo w :
  failfast (apply_changes cfg fuel pl toadd toremove plinfo w).
Proof.
  unfold apply_changes.
  destruct (_ && _ && _); [|destruct (_ && _)].
  - apply failfast_wait. intros w1. apply failfast_log. intros w2.
    apply failfast_bind; [|intros; apply failfast_ret].
    unfold update_cidrs_in_pl. apply failfast_log. intros w3.
    apply failfast_log. intros w4.
    apply (failfast_modify _ _
             (fun version' =>
                bind (log_handler cfg (MsgModifyResult version') 1 false false)
                  (fun _ => ret (Some version')))).
    intros v w5. apply failfast_log. intros w6. apply failfast_ret.
  - apply failfast_bind.
    + unfold remove_phase, when. destruct (len toremove >? 0);
        [|apply failfast_ret].
      apply failfast_wait. intros w1. apply failfast_log. intros w2.
      apply failfast_bind; [|intros; apply failfast_ret].
      unfold remove_cidr_from_pl. apply failfast_log. intros w3.
      apply failfast_log. intros w4. apply failfast_remove_pages.
    + intros [] w1. unfold add_phase, when. destruct (len toadd >? 0);
        [|apply failfast_ret].
      apply failfast_wait. intros w2. apply failfast_log. intros w3.
      apply failfast_pl_info. intros info w4.
      apply failfast_bind; [|intros; apply failfast_ret].
      unfold add_cidr_to_pl. apply failfast_log. intros w5.
      apply failfast_log. intros w6. apply failfast_add_pages.
  - apply failfast_quiet. rewrite log_handler_run. apply mods_log.
Qed.

Lemma failfast_pl_resize pl currentquota newplsize w :
  failfast (pl_resize cfg pl currentquota newplsize w).
Proof.
  unfold pl_resize. apply failfast_bind; [by apply failfast_quiet|].
  intros newmaxent w1. apply failfast_bind.
  { destruct (newmaxent >? currentquota); [|apply failfast_ret].
    apply failfast_log. intros w2. apply failfast_ret. }
  intros newmaxent' w2.
  apply (failfast_modify _ _
           (fun version' =>
              bind (log_handler cfg (MsgResizeResult version') 1 false false)
                (fun _ => ret (Some version')))).
  intros v w3. apply failfast_log. intros w4. apply failfast_ret.
Qed.

Lemma failfast_finish_pass fuel sg pl region toadd toremove newlength plinfo
    currentquota w :
  failfast (finish_pass cfg fuel sg pl region toadd toremove newlength plinfo
              currentquota w).
Proof.
  unfold finish_pass. apply failfast_bind;
    [apply failfast_quiet, check_quota_quiet|].
  intros [] w1. apply failfast_bind.
  - destruct (MaxEntries plinfo <? newlength);
      [|apply failfast_apply_changes].
    apply failfast_bind; [apply failfast_pl_resize|].
    intros _ w2. apply failfast_quiet, wait_until_ready_quiet.
  - intros [] w2. apply failfast_log. intros w3. apply failfast_ret.
Qed.

(** X11: a mutating call that the remote refuses is the last call of the
    pass: nothing but log lines follows it, an alert is published and the
    process ends.  No pass goes on to the next page, to the additions or to
    the success message after a refusal. *)
Theorem refusal_ends_the_pass (fuel : nat) (event : gmap string string)
    (w : W) :
  let r := lambda_handler cfg fuel event w in
  refused_last r.2 = true /\
  (Exists (fun e => refused e = true) r.2 ->
   r.1.1 = SysExit /\ alerts r.2 <> []).
Proof.
  cbv zeta.
  assert (failfast (lambda_handler cfg fuel event w)) as H.
  { destruct (event !! "sg") as [sg|] eqn:Hsg;
      [destruct (event !! "pl") as [pl|] eqn:Hpl;
       [destruct (event !! "region") as [region|] eqn:Hregion;
        [destruct (ips_of_entries (get_managed_prefix_list_entries w pl))
           as [pliplist| |e|] eqn:Hl|]|]|].
    2-7: (apply failfast_quiet, Forall_False_nil;
          apply (holds_lambda_handler cfg _
                   (Stepwise0 := stepwise_requests _));
          intros; congruence).
    rewrite (lambda_handler_run _ _ _ _ _ _ _ _ Hsg Hpl Hregion Hl).
    apply failfast_after; [|apply failfast_finish_pass].
    by apply accepted_quiet. }
  destruct H as [H|(Ho & Hl & Ha)].
  - split; [by apply refused_last_accepted|].
    intros (e & He & Hr)%Exists_exists.
    rewrite Forall_forall in H. specialize (H e He). congruence.
  - done.
Qed.

End FailFast.

Lemma refusal_ends_the_pass_witness :
  let r := lambda_handler Sim.cfg 5 Sim.example_event crowded in
  newpllength (Sim.addresses 2) [] = 2 /\
  Exists (fun e => refused e = true) r.2 /\
  r.1.1 = SysExit /\ alerts r.2 <> [].
Proof.
  cbv zeta.
  destruct (refusal_ends_the_pass Sim.cfg 5 Sim.example_event crowded)
    as [_ H].
  assert (Exists (fun e => refused e = true)
            (lambda_handler Sim.cfg 5 Sim.example_event crowded).2) as He.
  { apply Exists_exists.
    exists (Modify (update_request "pl-1" 1 ["10.0.0.1/32"; "10.0.0.2/32"] [])
              None).
    split; [|reflexivity]. vm_compute. repeat (first [left | right]). }
  split; [by vm_compute|]. split; [exact He|]. exact (H He).
Defined.

Section SecondPass.

Context {W : Type} {R : Remote W} `{!Faithful W}.
Variable cfg : Config.

(** A pass whose two sets are empty keeps the entries and sends at most a
    resize. *)
Lemma holds_in_sync fuel sg pl region toadd toremove newlength plinfo
    currentquota :
  toadd = ∅ -> toremove = ∅ ->
  holds (resized_only pl)
    (finish_pass cfg fuel sg pl region toadd toremove newlength plinfo
       currentquota).
Proof.
  intros -> ->.
  destruct (Z.ltb_spec (MaxEntries plinfo) newlength) as [Hres|Hres];
    [by apply holds_resize_branch|].
  set (Q := resized_only pl).
  assert (Stepwise Q) as HQ by apply stepwise_resized_only.
  assert (forall message severity sendmessage terminate,
            holds Q (log_handler cfg message severity sendmessage terminate))
    as Hlog.
  { intros message severity sendmessage terminate w.
    rewrite log_handler_run. apply resized_only_logs. }
  unfold finish_pass.
  destruct (Z.ltb_spec (MaxEntries plinfo) newlength); [lia|].
  apply (holds_bind Q).
  { unfold check_quota, when. destruct (currentquota - newlength <? 1);
      [apply Hlog|].
    apply (holds_bind Q); [apply (holds_lift Q)|].
    intros [|]; [apply Hlog|apply (holds_ret Q)]. }
  intros _. apply (holds_bind Q).
  - intros w. rewrite apply_changes_nothing; [apply resized_only_logs|].
    left. unfold len. by rewrite size_empty.
  - intros _. apply (holds_bind Q); [apply Hlog|]. intros _.
    apply (holds_ret Q).
Qed.

(** X12: a pass that has mirrored the group leaves nothing for the next
    one.  After a pass that returns, under the conditions in which it mirrors
    the group, a second pass for the same event that reads the same addresses
    from the group finds both sets empty: it sends no request that carries an
    entry and leaves the entries of the list as they are. *)
Theorem second_pass_moves_no_entry (fuel fuel' : nat)
    (event : gmap string string) (w : W) (sg pl : string)
    (pliplist : list string) (msg : Message) :
  event !! "sg" = Some sg -> event !! "pl" = Some pl ->
  ips_of_entries (get_managed_prefix_list_entries w pl) = Ret pliplist ->
  let sgiplist := describe_network_interfaces w sg in
  Forall canonical (get_managed_prefix_list_entries w pl) ->
  Forall (fun a => no_slash a = true) sgiplist ->
  newpllength sgiplist pliplist
    <= MaxEntries (describe_managed_prefix_lists w pl) ->
  Z.max (len (itemstoadd sgiplist pliplist))
        (len (itemstoremove sgiplist pliplist)) <> 100 ->
  let first := lambda_handler cfg fuel event w in
  first.1.1 = Ret msg ->
  describe_network_interfaces first.1.2 sg = sgiplist ->
  let second := lambda_handler cfg fuel' event first.1.2 in
  (exists pliplist',
     ips_of_entries (get_managed_prefix_list_entries first.1.2 pl)
       = Ret pliplist' /\
     itemstoadd sgiplist pliplist' = ∅ /\
     itemstoremove sgiplist pliplist' = ∅) /\
  Forall (fun req => is_resize req = true) (mods second.2) /\
  entry_set second.1.2 pl = entry_set first.1.2 pl.
Proof.
  intros Hsg Hpl Hl sgiplist Hcan Hslash Hcap Hgap first Hret Hgroup second.
  destruct first as [[o w'] t] eqn:Hfirst. cbn [fst snd] in *. subst o.
  pose proof (pass_mirrors cfg fuel event w sg pl pliplist msg w' t
                Hsg Hpl Hl Hcan Hslash Hcap Hgap Hfirst) as Hm.
  unfold host_set in Hm.
  destruct (ips_of_entries (get_managed_prefix_list_entries w' pl))
    as [pliplist'| |e|] eqn:Hl'; try discriminate.
  cbn [and_then] in Hm. injection Hm as Hm. fold sgiplist in Hm.
  assert (itemstoadd sgiplist pliplist' = ∅) as Ha
    by (unfold itemstoadd; set_solver).
  assert (itemstoremove sgiplist pliplist' = ∅) as Hr
    by (unfold itemstoremove; set_solver).
  split; [by exists pliplist'|].
  assert (resized_only pl w' second.1.2 second.2) as [Hk Hres].
  { subst second.
    destruct (event !! "region") as [region|] eqn:Hregion; cycle 1.
    { unfold lambda_handler.
      rewrite (event_field_some _ _ _ _ _ _ _ _ Hsg).
      rewrite (event_field_some _ _ _ _ _ _ _ _ Hpl).
      rewrite (event_field_none _ _ _ _ _ _ _ Hregion).
      cbn [after fst snd]. split; [done|].
      unfold log_events. simpl. constructor. }
    rewrite (lambda_handler_run _ _ _ _ _ _ _ _ Hsg Hpl Hregion Hl').
    rewrite Hgroup.
    apply (holds_after (resized_only pl)
             (Stepwise0 := stepwise_resized_only pl) _ _ w').
    - apply (step_all (resized_only pl)
               (Stepwise0 := stepwise_resized_only pl)).
      apply reads_trace_routine.
    - by apply holds_in_sync. }
  done.
Qed.

End SecondPass.

Lemma second_pass_moves_no_entry_witness :
  let first := lambda_handler Sim.cfg 5 Sim.example_event Sim.end_to_end in
  let second := lambda_handler Sim.cfg 5 Sim.example_event first.1.2 in
  mods first.2 = [update_request "pl-1" 1 ["10.0.0.1/32"] ["10.0.0.4/32"]] /\
  mods second.2 = [] /\
  entry_set second.1.2 "pl-1" = entry_set first.1.2 "pl-1".
Proof.
  cbv zeta.
  destruct (second_pass_moves_no_entry (Faithful0 := sim_faithful) Sim.cfg
              5 5 Sim.example_event Sim.end_to_end "sg-1" "pl-1"
              ["10.0.0.2"; "10.0.0.3"; "10.0.0.4"]
              (MsgSyncCompleted "sg-1" "pl-1"))
    as (_ & _ & Hk).
  - reflexivity.
  - reflexivity.
  - reflexivity.
  - repeat constructor; intros _; eexists; split; reflexivity.
  - repeat constructor.
  - by vm_compute.
  - by vm_compute.
  - reflexivity.
  - reflexivity.
  - split; [reflexivity|]. split; [reflexivity|]. exact Hk.
Defined.

(** * Properties of the two companion handlers *)

Section RunLemmas.

Context {Msg Call W : Type}.
Abbreviation E := (Run.Ev Msg Call).

Lemma run_bind_ok {A B} (m : Run.T E W A) (f : A -> Run.T E W B) w a w1 t1 :
  m w = (Run.Ok a, w1, t1) -> Run.bind m f w = Run.after t1 (f a w1).
Proof. intros H. unfold Run.bind. by rewrite H. Qed.

Lemma run_bind_exit {A B} (m : Run.T E W A) (f : A -> Run.T E W B) w w1 t1 :
  m w = (Run.Exit, w1, t1) -> Run.bind m f w = (Run.Exit, w1, t1).
Proof. intros H. unfold Run.bind. by rewrite H. Qed.

Lemma run_bind_raise {A B} (m : Run.T E W A) (f : A -> Run.T E W B) w e w1
    t1 :
  m w = (Run.Raise e, w1, t1) -> Run.bind m f w = (Run.Raise e, w1, t1).
Proof. intros H. unfold Run.bind. by rewrite H. Qed.

Lemma run_log loglevel (message : Msg) severity sendmessage terminate
    (w : W) :
  Run.log_handler (Call:=Call) loglevel message severity sendmessage
    terminate w =
    (if terminate then Run.Exit else Run.Ok tt, w,
     Run.log_events loglevel message severity sendmessage).
Proof.
  unfold Run.log_handler, Run.log_events. by destruct sendmessage, terminate.
Qed.

Lemma run_bind_log {B} loglevel (message : Msg) severity sendmessage
    (f : unit -> Run.T E W B) w :
  Run.bind (Run.log_handler loglevel message severity sendmessage false) f w
    = Run.after (Run.log_events loglevel message severity sendmessage)
        (f tt w).
Proof. apply run_bind_ok, run_log. Qed.

Lemma run_bind_log_exit {B} loglevel (message : Msg) severity sendmessage
    (f : unit -> Run.T E W B) w :
  Run.bind (Run.log_handler loglevel message severity sendmessage true) f w
    = (Run.Exit, w, Run.log_events loglevel message severity sendmessage).
Proof. apply run_bind_exit, run_log. Qed.

Lemma try_except_ok {A} (m : Run.T E W A) handler w a w1 t1 :
  m w = (Run.Ok a, w1, t1) -> Run.try_except m handler w = (Run.Ok a, w1, t1).
Proof. intros H. unfold Run.try_except. by rewrite H. Qed.

Lemma try_except_exit {A} (m : Run.T E W A) handler w w1 t1 :
  m w = (Run.Exit, w1, t1) -> Run.try_except m handler w = (Run.Exit, w1, t1).
Proof. intros H. unfold Run.try_except. by rewrite H. Qed.

Lemma try_except_raise {A} (m : Run.T E W A) handler w e w1 t1 :
  m w = (Run.Raise e, w1, t1) ->
  Run.try_except m handler w = Run.after t1 (handler e w1).
Proof.
  intros H. unfold Run.try_except. rewrite H.
  by destruct (handler e w1) as [[o w2] t2].
Qed.

Lemma calls_app (t1 t2 : list E) :
  Run.calls (t1 ++ t2) = Run.calls t1 ++ Run.calls t2.
Proof. apply omap_app. Qed.

Lemma published_app (t1 t2 : list E) :
  Run.published (t1 ++ t2) = Run.published t1 ++ Run.published t2.
Proof. apply omap_app. Qed.

Lemma calls_log loglevel (message : Msg) severity sendmessage :
  Run.calls (Call:=Call)
    (Run.log_events loglevel message severity sendmessage) = [].
Proof. unfold Run.log_events. by destruct sendmessage. Qed.

Lemma published_log loglevel (message : Msg) severity :
  Run.published (Call:=Call)
    (Run.log_events loglevel message severity false) = [].
Proof. reflexivity. Qed.

End RunLemmas.

Section Parsing.

Lemma getitem_from_end {A} (l : list A) (i : nat) (a : A) :
  reverse l !! i = Some a ->
  Run.getitem l (Z.of_nat (length l) - 1 - Z.of_nat i) = Ret a.
Proof.
  intros H. pose proof (lookup_lt_Some _ _ _ H) as Hi.
  rewrite length_reverse in Hi. rewrite reverse_lookup in H by done.
  unfold Run.getitem.
  assert ((Z.of_nat (length l) - 1 - Z.of_nat i <? 0) = false) as E by lia.
  rewrite !E.
  replace (Z.to_nat (Z.of_nat (length l) - 1 - Z.of_nat i))
    with (length l - S i)%nat by lia.
  by rewrite H.
Qed.

Lemma str_split_nonempty (s : string) : str_split "/" s <> [].
Proof. destruct (str_split_head s) as (h & t & -> & _). done. Qed.

Lemma str_split_no_slash (s : string) :
  no_slash s = true -> str_split "/" s = [s].
Proof.
  induction s as [|c s IH]; [done|]. simpl.
  destruct (Ascii.eqb c "/"); [done|]. intros H. by rewrite IH.
Qed.

Lemma str_split_slash (a b : string) :
  str_split "/" (a +:+ "/" +:+ b) = str_split "/" a ++ str_split "/" b.
Proof.
  induction a as [|c a IH]; [done|].
  change (String c a +:+ "/" +:+ b) with (String c (a +:+ "/" +:+ b)).
  cbn [str_split]. rewrite IH.
  destruct (Ascii.eqb c "/"); [done|].
  destruct (str_split "/" a) as [|h t] eqn:E; [|done].
  by destruct (str_split_nonempty a).
Qed.

(** The mapping read from one parameter. *)
Lemma paramparser_cons (parameter : Param) (rest : list Param) :
  Bulk.paramparser (parameter :: rest) =
    and_then (Bulk.paramparser rest)
      (fun params => Ret (Bulk.mapping_of parameter :: params)).
Proof.
  cbn [Bulk.paramparser]. unfold Bulk.mapping_of.
  set (name := str_split "/" (Name parameter)).
  destruct (reverse name) as [|region [|sg segments]] eqn:E.
  - apply (f_equal reverse) in E. rewrite reverse_involutive in E.
    by destruct (str_split_nonempty (Name parameter)).
  - apply (f_equal reverse) in E. rewrite reverse_involutive in E.
    rewrite E. reflexivity.
  - pose proof (getitem_from_end name 0 region) as H0.
    pose proof (getitem_from_end name 1 sg) as H1.
    replace (Z.of_nat (length name) - 1 - Z.of_nat 0)
      with (Z.of_nat (length name) - 1) in H0 by lia.
    replace (Z.of_nat (length name) - 1 - Z.of_nat 1)
      with (Z.of_nat (length name) - 2) in H1 by lia.
    rewrite H0, H1 by (by rewrite E). reflexivity.
Qed.

Lemma paramparser_map (parameters : list Param) :
  Bulk.paramparser parameters = Ret (map Bulk.mapping_of parameters).
Proof.
  induction parameters as [|parameter rest IH]; [done|].
  by rewrite paramparser_cons, IH.
Qed.

Lemma mapping_of_stored (path sg pl region : string) :
  no_slash sg = true -> no_slash region = true ->
  Bulk.mapping_of
    {| Name := Onboard.parameter_name path sg region; Value := pl |}
    = mapping sg pl region.
Proof.
  intros Hsg Hregion. unfold Bulk.mapping_of, Onboard.parameter_name.
  cbn [Name Value].
  rewrite !str_split_slash, (str_split_no_slash sg Hsg),
    (str_split_no_slash region Hregion).
  by rewrite !reverse_app.
Qed.

(** X13: [paramparser] never raises and gives one mapping for each
    parameter, in order: its prefix list is the value of the parameter, its
    region the last segment of the name and its security group the segment
    before it.  A name without a slash has one segment, and the index -1
    that results reads it again: it is taken for the security group and for
    the region. *)
Theorem paramparser_reads_the_last_segments (parameters : list Param) :
  Bulk.paramparser parameters = Ret (map Bulk.mapping_of parameters) /\
  (forall parameter : Param,
     no_slash (Name parameter) = true ->
     Bulk.mapping_of parameter =
       mapping (Name parameter) (Value parameter) (Name parameter)) /\
  (forall (parameter : Param) (segments : list string) (sg region : string),
     str_split "/" (Name parameter) = segments ++ [sg; region] ->
     Bulk.mapping_of parameter = mapping sg (Value parameter) region).
Proof.
  split; [apply paramparser_map|]. split.
  - intros parameter H. unfold Bulk.mapping_of.
    by rewrite (str_split_no_slash _ H).
  - intros parameter segments sg region H. unfold Bulk.mapping_of.
    rewrite H, reverse_app. reflexivity.
Qed.

(** X14: the name under which the onboarding handler stores a mapping reads
    back as that mapping, whatever the path of the parameter store: for a
    security group and a region without a slash, the parameter
    [path/sg/region] with the prefix list as its value is parsed into the
    event [{sg, pl, region}], which holds the three keys that the
    reconciliation pass asks for. *)
Theorem stored_mapping_reads_back (path sg pl region : string) :
  no_slash sg = true -> no_slash region = true ->
  let event := mapping sg pl region in
  Bulk.paramparser
    [{| Name := Onboard.parameter_name path sg region; Value := pl |}]
    = Ret [event] /\
  event !! "sg" = Some sg /\ event !! "pl" = Some pl /\
  event !! "region" = Some region.
Proof.
  intros Hsg Hregion event. split.
  - by rewrite paramparser_map; cbn [map]; rewrite mapping_of_stored.
  - done.
Qed.

End Parsing.

Lemma stored_mapping_reads_back_witness :
  Bulk.paramparser
    [{| Name := "/AutoSG2PL/prod/sg-1/eu-west-1"; Value := "pl-1" |}]
    = Ret [mapping "sg-1" "pl-1" "eu-west-1"] /\
  mapping "sg-1" "pl-1" "eu-west-1" !! "region" = Some "eu-west-1".
Proof.
  destruct (stored_mapping_reads_back "/AutoSG2PL/prod" "sg-1" "pl-1"
              "eu-west-1" eq_refl eq_refl) as (H & _ & _ & Hr).
  split; [exact H|exact Hr].
Defined.

Section BulkRuns.

Context {W : Type} {R : Bulk.Remote W}.
Variable cfg : Bulk.Config.

Abbreviation BulkEv := (Run.Ev Bulk.Message Bulk.Call).

Lemma invoked_app (t1 t2 : list BulkEv) :
  Bulk.invoked (t1 ++ t2) = Bulk.invoked t1 ++ Bulk.invoked t2.
Proof. unfold Bulk.invoked. by rewrite calls_app, omap_app. Qed.

Lemma refused_app (t1 t2 : list BulkEv) :
  Bulk.refused (t1 ++ t2) = Bulk.refused t1 ++ Bulk.refused t2.
Proof. unfold Bulk.refused. by rewrite calls_app, omap_app. Qed.

Lemma slept_app (t1 t2 : list BulkEv) :
  Bulk.slept (t1 ++ t2) = (Bulk.slept t1 + Bulk.slept t2)%nat.
Proof.
  unfold Bulk.slept. by rewrite calls_app, omap_app, length_app.
Qed.


(** One turn of the loop of [run_update]. *)
Lemma run_update_cons payload rest (w : W) :
  let batchsyncfn := Bulk.batch_sync_function_name cfg in
  Bulk.run_update cfg (payload :: rest) w =
    match Bulk.invoke w batchsyncfn payload with
    | (Some response, w') =>
        Run.after
          (Run.log_events (Bulk.log_level cfg)
             (Bulk.MsgInvoking batchsyncfn payload) 1 false
           ++ [Run.Called (Bulk.Invoke batchsyncfn payload (Some response));
               Run.Called Bulk.Sleep]
           ++ Run.log_events (Bulk.log_level cfg)
                (Bulk.MsgInvocationReturned response) 1 false)
          (Bulk.run_update cfg rest (Bulk.sleep w'))
    | (None, w') =>
        (Run.Raise Run.ClientError, w',
         Run.log_events (Bulk.log_level cfg)
           (Bulk.MsgInvoking batchsyncfn payload) 1 false
         ++ [Run.Called (Bulk.Invoke batchsyncfn payload None)])
    end.
Proof.
  cbv zeta. cbn [Bulk.run_update]. unfold Bulk.log_handler.
  rewrite run_bind_log. unfold Bulk.call_invoke.
  destruct (Bulk.invoke w (Bulk.batch_sync_function_name cfg) payload)
    as [[response|] w'] eqn:E.
  - rewrite (run_bind_ok _ _ w response w'
               [Run.Called (Bulk.Invoke _ payload (Some response))])
      by (by rewrite E).
    rewrite (run_bind_ok _ _ w' tt (Bulk.sleep w') [Run.Called Bulk.Sleep])
      by done.
    rewrite run_bind_log.
    destruct (Bulk.run_update cfg rest (Bulk.sleep w')) as [[o w2] t2].
    cbn [Run.after]. by rewrite <- !app_assoc.
  - rewrite (run_bind_raise _ _ w Run.ClientError w'
               [Run.Called (Bulk.Invoke _ payload None)])
      by (by rewrite E).
    reflexivity.
Qed.

Lemma run_update_spec paramsinput : forall (w : W),
  let r := Bulk.run_update cfg paramsinput w in
  Run.published r.2 = [] /\
  match r.1.1 with
  | Run.Ok _ =>
      Bulk.invoked r.2 = paramsinput /\ Bulk.refused r.2 = [] /\
      Bulk.slept r.2 = length paramsinput
  | Run.Raise e =>
      e = Run.ClientError /\
      exists done payload,
        Bulk.invoked r.2 = done ++ [payload] /\
        (done ++ [payload]) `prefix_of` paramsinput /\
        Bulk.refused r.2 = [payload] /\ Bulk.slept r.2 = length done
  | Run.Exit => False
  end.
Proof.
  induction paramsinput as [|payload rest IH]; intros w; cbv zeta.
  - done.
  - rewrite run_update_cons.
    destruct (Bulk.invoke w (Bulk.batch_sync_function_name cfg) payload)
      as [[response|] w'] eqn:E.
    + specialize (IH (Bulk.sleep w')). cbv zeta in IH.
      destruct (Bulk.run_update cfg rest (Bulk.sleep w')) as [[o w2] t2].
      cbn [Run.after fst snd] in *. destruct IH as [Hp IH].
      rewrite !published_app, !invoked_app, !refused_app, !slept_app.
      rewrite !published_log, Hp.
      split; [done|]. destruct o as [[]| |e].
      * destruct IH as (Hi & Hr & Hs). rewrite Hi, Hr, Hs. done.
      * done.
      * destruct IH as (He & done & last & Hi & Hpre & Hr & Hs).
        split; [done|]. exists (payload :: done), last.
        rewrite Hi, Hr, Hs. repeat split; try done.
        by apply prefix_cons.
    + cbn [fst snd]. rewrite published_app, invoked_app, refused_app,
        slept_app, published_log.
      split; [done|]. split; [done|]. exists [], payload.
      repeat split; try done. by apply prefix_cons, prefix_nil.
Qed.


(** The calls of a run of [run_update], one by one: an accepted invocation
    and a sleep for each mapping, up to the end of the list or to the
    invocation that raised, which is then the last call of the run. *)
Lemma run_update_trace paramsinput : forall (w : W),
  let r := Bulk.run_update cfg paramsinput w in
  let batchsyncfn := Bulk.batch_sync_function_name cfg in
  match r.1.1 with
  | Run.Ok _ =>
      exists responses,
        length paramsinput = length responses /\
        Run.calls r.2 = Bulk.accepted batchsyncfn paramsinput responses
  | Run.Raise e =>
      e = Run.ClientError /\
      exists done payload rest responses,
        paramsinput = done ++ payload :: rest /\
        length done = length responses /\
        Run.calls r.2
        = Bulk.accepted batchsyncfn done responses
          ++ [Bulk.Invoke batchsyncfn payload None]
  | Run.Exit => False
  end.
Proof.
  induction paramsinput as [|payload rest IH]; intros w; cbv zeta.
  - by exists [].
  - rewrite run_update_cons.
    destruct (Bulk.invoke w (Bulk.batch_sync_function_name cfg) payload)
      as [[response|] w'] eqn:E.
    + specialize (IH (Bulk.sleep w')). cbv zeta in IH.
      destruct (Bulk.run_update cfg rest (Bulk.sleep w')) as [[o w2] t2].
      cbn [Run.after fst snd] in *.
      rewrite !calls_app, !calls_log. cbn [app].
      destruct o as [[]| |e].
      * destruct IH as (responses & Hlen & ->).
        exists (response :: responses). split; [simpl; by rewrite Hlen|done].
      * done.
      * destruct IH as (He & done & last & rest' & responses & -> & Hlen & ->).
        split; [done|].
        exists (payload :: done), last, rest', (response :: responses).
        split; [done|]. split; [simpl; by rewrite Hlen|done].
    + cbn [fst snd]. rewrite calls_app, calls_log.
      split; [done|]. by exists [], payload, rest, [].
Qed.

(** X15: [run_update] invokes the reconciliation pass for the mappings in
    the order given, sleeps one second after each invocation that was
    accepted, and publishes nothing.  An invocation that raises ends the run
    with that error: it is the last call of the run, and the mappings after
    it are not invoked.  The calls of the run are exactly one accepted
    invocation and one sleep for each mapping, to the end of the list when
    the run returns, and to the mapping whose invocation raised otherwise.
    The run never ends the process by itself. *)
Theorem run_update_stops_at_first_refusal
    (paramsinput : list (gmap string string)) (w : W) :
  let r := Bulk.run_update cfg paramsinput w in
  let batchsyncfn := Bulk.batch_sync_function_name cfg in
  Bulk.invoked r.2 `prefix_of` paramsinput /\
  Run.published r.2 = [] /\ r.1.1 <> Run.Exit /\
  (r.1.1 = Run.Ok tt <->
   Bulk.invoked r.2 = paramsinput /\ Bulk.refused r.2 = []) /\
  Bulk.slept r.2 = (length (Bulk.invoked r.2) - length (Bulk.refused r.2))%nat
  /\
  match r.1.1 with
  | Run.Ok _ =>
      exists responses,
        length paramsinput = length responses /\
        Run.calls r.2 = Bulk.accepted batchsyncfn paramsinput responses
  | Run.Raise e =>
      e = Run.ClientError /\
      exists done payload rest responses,
        paramsinput = done ++ payload :: rest /\
        length done = length responses /\
        Run.calls r.2
        = Bulk.accepted batchsyncfn done responses
          ++ [Bulk.Invoke batchsyncfn payload None]
  | Run.Exit => False
  end.
Proof.
  cbv zeta. pose proof (run_update_spec paramsinput w) as [Hp H].
  pose proof (run_update_trace paramsinput w) as Ht.
  cbv zeta in H, Ht.
  destruct (Bulk.run_update cfg paramsinput w) as [[[[]| |e] w'] t];
    cbn [fst snd] in *.
  - destruct H as (Hi & Hr & Hs). rewrite Hi, Hr, Hs. simpl.
    split_and!; [done|done|done|done|lia|exact Ht].
  - done.
  - destruct H as (-> & done & payload & Hi & Hpre & Hr & Hs).
    rewrite Hi, Hr, Hs, length_app. simpl.
    split_and!; [done|done|done| |lia|done|apply Ht].
    split; [done|]. intros [_ [=]].
Qed.





End BulkRuns.

Section OnboardRuns.

Context {W : Type} {R : Onboard.Remote W}.
Variable cfg : Onboard.Config.

Abbreviation OnboardEv := (Run.Ev Onboard.Message Onboard.Call).

Lemma created_app (t1 t2 : list OnboardEv) :
  Onboard.created (t1 ++ t2) = Onboard.created t1 ++ Onboard.created t2.
Proof. unfold Onboard.created. by rewrite calls_app, omap_app. Qed.

Lemma stored_app (t1 t2 : list OnboardEv) :
  Onboard.stored (t1 ++ t2) = Onboard.stored t1 ++ Onboard.stored t2.
Proof. unfold Onboard.stored. by rewrite calls_app, omap_app. Qed.

Lemma onboard_invoked_app (t1 t2 : list OnboardEv) :
  Onboard.invoked (t1 ++ t2) = Onboard.invoked t1 ++ Onboard.invoked t2.
Proof. unfold Onboard.invoked. by rewrite calls_app, omap_app. Qed.

(** A trace without a call that writes created, invoked and stored
    nothing. *)
Lemma reads_only (t : list OnboardEv) :
  Forall (fun c => Onboard.writes c = false) (Run.calls t) ->
  Onboard.created t = [] /\ Onboard.invoked t = [] /\ Onboard.stored t = [].
Proof.
  unfold Onboard.created, Onboard.invoked, Onboard.stored.
  induction 1 as [|c l Hc _ (H1 & H2 & H3)]; [done|].
  destruct c; try discriminate Hc; cbn [omap list_omap]; done.
Qed.

Ltac run_unfold :=
  unfold Onboard.get_ips_in_sg, Onboard.get_sg_max_entries_quota_value,
    Onboard.call_describe_security_groups, Onboard.call_get_parameters,
    Onboard.call_describe_network_interfaces, Onboard.call_get_service_quota,
    Onboard.call_create_managed_prefix_list, Onboard.call_invoke,
    Onboard.call_put_parameter, Onboard.reading, Onboard.writing,
    Onboard.log_handler, Run.log_handler, Run.when, Run.emit, Run.sys_exit,
    Run.try_except, Run.bind, Run.ret, Run.raise, Run.lift.

Ltac run_cases := repeat (case_match; simplify_eq; cbn [fst snd] in * ).

Ltac not_cleared :=
  let sg' := fresh in
  intros (sg' & ? & ? & ? & ? & ? & (? & ?) & [?|?] & ? & ? & ? & ? & ?);
  simplify_eq; try congruence;
  try match goal with N : ~ _ |- _ => apply N; eauto 10 end.

Ltac use_answers :=
  try match goal with H : (_ <? _)%nat = _ |- _ => rewrite !H end;
  repeat match goal with
  | H : (_ <? _)%nat = _ |- _ => rewrite H
  | H : Onboard.create_managed_prefix_list _ _ = _ |- _ => rewrite H
  | H : Onboard.invoke _ _ _ = _ |- _ => rewrite H
  | H : Onboard.put_parameter _ _ _ = _ |- _ => rewrite H
  end.

(** The security group check returns, and answers [True] exactly when the
    call found one group. *)
Lemma sg_existence_check_run sg (w : W) :
  exists t,
    Onboard.sg_existence_check cfg sg w =
      (Run.Ok (match Onboard.describe_security_groups w sg with
               | Some [_] => true
               | _ => false
               end), w, t) /\
    Run.published t = [] /\
    Forall (fun c => Onboard.writes c = false) (Run.calls t).
Proof.
  unfold Onboard.sg_existence_check. run_unfold.
  destruct (Onboard.describe_security_groups w sg) as [[|g [|g' l]]|];
    cbn; eexists; (split; [reflexivity|]); split; try reflexivity;
    repeat constructor.
Qed.

(** The mapping check returns, and answers [False] exactly when the call
    found a parameter. *)
Lemma parameter_not_exist_check_run sg region (w : W) :
  exists t,
    Onboard.parameter_not_exist_check cfg sg region w =
      (Run.Ok (match Onboard.get_parameters w
                       (Onboard.parameter_name
                          (Onboard.parameter_store_path cfg) sg region) with
               | Some (_ :: _) => false
               | _ => true
               end), w, t) /\
    Run.published t = [] /\
    Forall (fun c => Onboard.writes c = false) (Run.calls t).
Proof.
  unfold Onboard.parameter_not_exist_check. run_unfold.
  destruct (Onboard.get_parameters w _) as [[|p l]|];
    cbn; eexists; (split; [reflexivity|]); split; try reflexivity;
    repeat constructor.
Qed.

(** The ways [create_prefixlist] can go. *)
Lemma create_prefixlist_paths sg region (w : W) :
  let r := Onboard.create_prefixlist cfg sg region w in
  Run.published r.2 = [] /\ Onboard.stored r.2 = [] /\
  ((r.1.1 <> Run.Ok None /\ (forall pl, r.1.1 <> Run.Ok (Some pl)) /\
    r.1.2 = w /\
    Forall (fun c => Onboard.writes c = false) (Run.calls r.2) /\
    ~ (exists cidrs pllen q,
         Onboard.describe_network_interfaces w sg = Some cidrs /\
         Onboard.required_length cfg (length cidrs) = Ret pllen /\
         Onboard.get_service_quota w = Some q /\ pllen <= q)) \/
   exists cidrs pllen q,
     Onboard.describe_network_interfaces w sg = Some cidrs /\
     Onboard.required_length cfg (length cidrs) = Ret pllen /\
     Onboard.get_service_quota w = Some q /\ pllen <= q /\
     let req := Onboard.create_request sg cidrs pllen in
     let small := (length cidrs <? 100)%nat in
     match Onboard.create_managed_prefix_list w req with
     | (None, w1) =>
         r.1.1 = Run.Raise Run.ClientError /\ r.1.2 = w1 /\
         Onboard.created r.2 = [] /\ Onboard.invoked r.2 = []
     | (Some pl, w1) =>
         Onboard.created r.2 = [(req, pl)] /\
         match
           (if small then (Some 0, w1)
            else Onboard.invoke w1 (Onboard.batch_sync_function_name cfg)
                   (mapping sg pl region))
         with
         | (None, w2) =>
             r.1.1 = Run.Raise Run.ClientError /\ r.1.2 = w2 /\
             Onboard.invoked r.2 = [mapping sg pl region]
         | (Some _, w2) =>
             r.1.1 = Run.Ok (Some pl) /\ r.1.2 = w2 /\
             Onboard.invoked r.2 =
               (if small then [] else [mapping sg pl region])
         end
     end).
Proof.
  cbv zeta. unfold Onboard.create_prefixlist. run_unfold. run_cases.
  all: split; [reflexivity|]; split; [reflexivity|].
  all: rewrite ?length_map in *.
  all: try (left; split_and!; try done; repeat constructor;
            intros (c' & p' & q' & ? & ? & ? & ?); simplify_eq;
            repeat match goal with
                   | H1 : ?x = _, H2 : ?x = _ |- _ =>
                       rewrite H1 in H2; simplify_eq
                   end; lia).
  all: right.
  all: eexists _, _, _.
  all: split; [first [eassumption|reflexivity]|].
  all: split; [first [eassumption|reflexivity]|].
  all: split; [first [eassumption|reflexivity]|].
  all: split; [lia|].
  all: cbv zeta; unfold Onboard.create_request; use_answers.
  all: repeat split; reflexivity.
Qed.

(** The ways [create_parameter] can go for a prefix list that was
    created. *)
Lemma create_parameter_paths sg pl region (w : W) :
  let r := Onboard.create_parameter cfg sg (Some pl) region w in
  let name :=
    Onboard.parameter_name (Onboard.parameter_store_path cfg) sg region in
  Run.published r.2 = [] /\ Onboard.created r.2 = [] /\
  Onboard.invoked r.2 = [] /\
  match Onboard.put_parameter w name pl with
  | (Some (Some version), w') =>
      r.1.1 = Run.Ok (version >? 0) /\ r.1.2 = w' /\
      Onboard.stored r.2 = [(name, pl)]
  | (Some None, w') =>
      r.1.1 = Run.Ok false /\ r.1.2 = w' /\ Onboard.stored r.2 = [(name, pl)]
  | (None, w') =>
      r.1.1 = Run.Ok false /\ r.1.2 = w' /\ Onboard.stored r.2 = []
  end.
Proof.
  cbv zeta. unfold Onboard.create_parameter. run_unfold. run_cases.
  all: repeat split; reflexivity.
Qed.

Lemma harmless_app t1 t2 : Onboard.harmless t1 -> Onboard.harmless t2 -> Onboard.harmless (t1 ++ t2).
Proof.
  intros [P1 F1] [P2 F2]. split.
  - by rewrite published_app, P1, P2.
  - rewrite calls_app. by apply Forall_app.
Qed.

Lemma harmless_log message severity :
  Onboard.harmless (Run.log_events (Onboard.log_level cfg) message severity false).
Proof. split; [done|constructor]. Qed.

Lemma harmless_nil : Onboard.harmless [].
Proof. split; [done|constructor]. Qed.

Lemma harmless_observed t :
  Onboard.harmless t ->
  Run.published t = [] /\ Onboard.created t = [] /\
  Onboard.invoked t = [] /\ Onboard.stored t = [].
Proof. intros [P F]. split; [done|]. by apply reads_only. Qed.

Lemma onboard_event_field_some {B} event key called missing v
    (f : string -> Run.T OnboardEv W B) w :
  event !! key = Some v ->
  Run.bind (Onboard.event_field cfg event key called missing) f w =
    Run.after (Run.log_events (Onboard.log_level cfg) (called v) 1 false)
      (f v w).
Proof.
  intros E. unfold Onboard.event_field, Onboard.log_handler. rewrite E.
  apply run_bind_ok. by rewrite run_bind_log.
Qed.

Lemma onboard_event_field_none {B} event key called missing
    (f : string -> Run.T OnboardEv W B) w :
  event !! key = None ->
  Run.bind (Onboard.event_field cfg event key called missing) f w =
    (Run.Exit, w, Run.log_events (Onboard.log_level cfg) missing 3 false).
Proof.
  intros E. unfold Onboard.event_field, Onboard.log_handler. rewrite E.
  apply run_bind_exit. by rewrite run_bind_log_exit.
Qed.

Lemma boto3_client_bind {B} service region
    (f : unit -> Run.T OnboardEv W B) w :
  Run.bind (Onboard.boto3_client service region) f w =
    if Onboard.new_client w service region
    then Run.after [Run.Called (Onboard.NewClient service region true)]
           (f tt w)
    else (Run.Raise Run.InvalidRegionError, w,
          [Run.Called (Onboard.NewClient service region false)]).
Proof.
  unfold Run.bind, Onboard.boto3_client.
  destruct (Onboard.new_client w service region); [|done].
  by destruct (f tt w) as [[o w'] t].
Qed.

Lemma run_after_after {A} (t1 t2 : list OnboardEv)
    (r : Run.result A * W * list OnboardEv) :
  Run.after t1 (Run.after t2 r) = Run.after (t1 ++ t2) r.
Proof. destruct r as [[o w] t]. cbn [Run.after]. by rewrite app_assoc. Qed.

Lemma harmless_client service region built :
  Onboard.harmless [Run.Called (Onboard.NewClient service region built)].
Proof. split; [done|by repeat constructor]. Qed.

(** A run that ended before any call that writes. *)
Lemma ended_early {A} (r : Run.result A * W * list OnboardEv) t0 o w t1 :
  Onboard.harmless t0 -> Onboard.harmless t1 ->
  r = Run.after t0 (o, w, t1) ->
  Run.published r.2 = [] /\ r.1.1 = o /\ r.1.2 = w /\
  Forall (fun c => Onboard.writes c = false) (Run.calls r.2).
Proof.
  intros H0 H1 ->. cbn [Run.after fst snd].
  destruct (harmless_app _ _ H0 H1) as [P F]. done.
Qed.

(** Every way the handler can go: it ends the process before any call that
    writes; or a client construction is refused and its exception escapes,
    before any service is called; or the clients are built, the checks have
    passed, and the creation, the invocation and the storing of the mapping
    decide the result. *)
Lemma onboard_paths (event : gmap string string) (w : W) :
  let r := Onboard.lambda_handler cfg event w in
  Run.published r.2 = [] /\
  (((r.1.1 = Run.Exit /\ r.1.2 = w /\
     Forall (fun c => Onboard.writes c = false) (Run.calls r.2) /\
     ~ (exists sg region cidrs pllen,
          event !! "sg" = Some sg /\ event !! "region" = Some region /\
          Onboard.cleared cfg w sg region cidrs pllen)) \/
    (exists sg region,
       event !! "sg" = Some sg /\ event !! "region" = Some region /\
       ~ Onboard.clients_built w region /\
       r.1.1 = Run.Raise Run.InvalidRegionError /\ r.1.2 = w /\
       Forall (fun c => Onboard.writes c = false) (Run.calls r.2))) \/
   exists sg region cidrs pllen,
     event !! "sg" = Some sg /\ event !! "region" = Some region /\
     Onboard.cleared cfg w sg region cidrs pllen /\
     Onboard.clients_built w region /\
     let req := Onboard.create_request sg cidrs pllen in
     let name :=
       Onboard.parameter_name (Onboard.parameter_store_path cfg) sg region in
     let small := (length cidrs <? 100)%nat in
     match Onboard.create_managed_prefix_list w req with
     | (None, w1) =>
         r.1.1 = Run.Exit /\ r.1.2 = w1 /\ Onboard.created r.2 = [] /\
         Onboard.invoked r.2 = [] /\ Onboard.stored r.2 = []
     | (Some pl, w1) =>
         Onboard.created r.2 = [(req, pl)] /\
         match
           (if small then (Some 0, w1)
            else Onboard.invoke w1 (Onboard.batch_sync_function_name cfg)
                   (mapping sg pl region))
         with
         | (None, w2) =>
             r.1.1 = Run.Exit /\ r.1.2 = w2 /\
             Onboard.invoked r.2 = [mapping sg pl region] /\
             Onboard.stored r.2 = []
         | (Some _, w2) =>
             Onboard.invoked r.2 =
               (if small then [] else [mapping sg pl region]) /\
             match Onboard.put_parameter w2 name pl with
             | (Some (Some version), w3) =>
                 r.1.2 = w3 /\ Onboard.stored r.2 = [(name, pl)] /\
                 r.1.1 = (if version >? 0
                          then Run.Ok (Some (Onboard.MsgConfigured sg pl))
                          else Run.Exit)
             | (Some None, w3) =>
                 r.1.2 = w3 /\ Onboard.stored r.2 = [(name, pl)] /\
                 r.1.1 = Run.Exit
             | (None, w3) =>
                 r.1.2 = w3 /\ Onboard.stored r.2 = [] /\ r.1.1 = Run.Exit
             end
         end
     end).
Proof.
  intros r. assert (r = Onboard.lambda_handler cfg event w) as Er by done.
  clearbody r. cbv zeta. unfold Onboard.lambda_handler in Er.
  set (lvl := Onboard.log_level cfg) in *.
  assert (forall (Q Q' : Prop) t0 t1,
            Onboard.harmless t0 -> Onboard.harmless t1 ->
            r = Run.after t0 (Run.Exit, w, t1) ->
            ~ (exists sg region cidrs pllen,
                 event !! "sg" = Some sg /\ event !! "region" = Some region /\
                 Onboard.cleared cfg w sg region cidrs pllen) ->
            Run.published r.2 = [] /\
            (((r.1.1 = Run.Exit /\ r.1.2 = w /\
               Forall (fun c => Onboard.writes c = false) (Run.calls r.2) /\
               ~ (exists sg region cidrs pllen,
                    event !! "sg" = Some sg /\
                    event !! "region" = Some region /\
                    Onboard.cleared cfg w sg region cidrs pllen)) \/
              Q') \/
             Q)) as Hstop.
  { intros Q Q' t0 t1 H0 H1 E N.
    destruct (ended_early r t0 Run.Exit w t1 H0 H1 E) as (? & ? & ? & ?).
    split; [done|]. left. by left. }
  destruct (event !! "sg") as [sg|] eqn:Hsg; cycle 1.
  { rewrite (onboard_event_field_none _ _ _ _ _ _ Hsg) in Er.
    eapply (Hstop _ _ [] _ harmless_nil (harmless_log Onboard.MsgNoSg 3));
      [done|not_cleared]. }
  rewrite (onboard_event_field_some _ _ _ _ _ _ _ Hsg) in Er.
  set (t1 := Run.log_events (Call:=Onboard.Call) lvl
               (Onboard.MsgSgCalled sg) 1 false) in *.
  assert (Onboard.harmless t1) as Ht1 by apply harmless_log.
  destruct (event !! "region") as [region|] eqn:Hregion; cycle 1.
  { rewrite (onboard_event_field_none _ _ _ _ _ _ Hregion) in Er.
    eapply (Hstop _ _ t1 _ Ht1 (harmless_log Onboard.MsgNoRegion 3));
      [done|not_cleared]. }
  rewrite (onboard_event_field_some _ _ _ _ _ _ _ Hregion) in Er.
  set (t2 := Run.log_events (Call:=Onboard.Call) lvl
               (Onboard.MsgRegionCalled region) 1 false) in *.
  assert (Onboard.harmless t2) as Ht2 by apply harmless_log.
  rewrite boto3_client_bind in Er.
  destruct (Onboard.new_client w "service-quotas" region) eqn:Hbuilt1;
    cycle 1.
  { destruct (ended_early r (t1 ++ t2) (Run.Raise Run.InvalidRegionError) w
                [Run.Called (Onboard.NewClient "service-quotas" region false)]
                (harmless_app _ _ Ht1 Ht2)
                (harmless_client "service-quotas" region false))
      as (P & ? & ? & ?).
    - by rewrite Er, run_after_after.
    - split; [exact P|]. left. right. exists sg, region.
      repeat (split; [done|]). split; [|done]. intros [? ?]; congruence. }
  rewrite boto3_client_bind in Er.
  destruct (Onboard.new_client w "ec2" region) eqn:Hbuilt2; cycle 1.
  { destruct (ended_early r
                (t1 ++ t2 ++ [Run.Called
                                (Onboard.NewClient "service-quotas"
                                   region true)])
                (Run.Raise Run.InvalidRegionError) w
                [Run.Called (Onboard.NewClient "ec2" region false)]
                (harmless_app _ _ Ht1
                   (harmless_app _ _ Ht2
                      (harmless_client "service-quotas" region true)))
                (harmless_client "ec2" region false))
      as (P & ? & ? & ?).
    - rewrite Er, !run_after_after. by rewrite <- !app_assoc.
    - split; [exact P|]. left. right. exists sg, region.
      repeat (split; [done|]). split; [|done]. intros [? ?]; congruence. }
  assert (Onboard.clients_built w region) as Hclients by done.
  rewrite (run_after_after [_] [_]), (run_after_after t2) in Er.
  assert (Onboard.harmless
            (t2 ++ [Run.Called (Onboard.NewClient "service-quotas" region true)]
                ++ [Run.Called (Onboard.NewClient "ec2" region true)]))
    as Ht2'
    by (repeat apply harmless_app; first [done|apply harmless_client]).
  clear Ht2. clearbody t2.
  set (t2' := t2 ++ _ ++ _) in *. clearbody t2'. clear t2.
  rename t2' into t2, Ht2' into Ht2.
  destruct (sg_existence_check_run sg w) as (t3 & E3 & P3 & F3).
  assert (Onboard.harmless t3) as Ht3 by done.
  rewrite (run_bind_ok _ _ _ _ _ _ E3) in Er.
  destruct (Onboard.describe_security_groups w sg) as [[|g [|g' gs]]|]
    eqn:Hgroups.
  1,3,4: (unfold Onboard.log_handler in Er; rewrite run_bind_log_exit in Er;
          eapply (Hstop _ _ (t1 ++ t2 ++ t3) _
                    (harmless_app _ _ Ht1 (harmless_app _ _ Ht2 Ht3))
                    (harmless_log (Onboard.MsgSgMissing sg) 3));
          [rewrite Er; cbn [Run.after]; by rewrite <- !app_assoc
          |not_cleared]).
  destruct (parameter_not_exist_check_run sg region w) as (t4 & E4 & P4 & F4).
  assert (Onboard.harmless t4) as Ht4 by done.
  rewrite (run_bind_ok _ _ _ _ _ _ E4) in Er.
  set (name := Onboard.parameter_name (Onboard.parameter_store_path cfg)
                 sg region) in *.
  assert (Onboard.harmless (t1 ++ t2 ++ t3 ++ t4)) as Hpre
    by (repeat apply harmless_app; done).
  destruct (harmless_observed _ Hpre) as (Ppre & Cpre & Ipre & Spre).
  assert (forall r',
            r = Run.after t1 (Run.after t2 (Run.after t3 (Run.after t4 r')))
            -> r = Run.after (t1 ++ t2 ++ t3 ++ t4) r') as Hflat.
  { intros [[o' w'] t'] ->. cbn [Run.after]. by rewrite <- !app_assoc. }
  destruct (Onboard.get_parameters w name) as [[|p ps]|] eqn:Hparams.
  2: (unfold Onboard.log_handler in Er; rewrite run_bind_log_exit in Er;
      eapply (Hstop _ _ (t1 ++ t2 ++ t3 ++ t4) _ Hpre
                (harmless_log (Onboard.MsgMappingExists sg region) 3));
      [by apply Hflat|subst name; not_cleared]).
  all: apply Hflat in Er; clear Hflat.
  all: set (pre := t1 ++ t2 ++ t3 ++ t4) in *; clearbody pre.
  all: pose proof (create_prefixlist_paths sg region w) as (Pc & Sc & Hc);
    cbv zeta in Pc, Sc, Hc;
    destruct (Onboard.create_prefixlist cfg sg region w) as [[o w1] tc] eqn:Ec;
    cbn [fst snd] in Pc, Sc, Hc.
  all: destruct Hc as [(Hn1 & Hn2 & -> & Fc & Hn3)|
                       (cidrs & pllen & q & Hips & Hlen & Hq & Hle & Hc)].
  (* nothing was written *)
  1,3: (assert (Onboard.harmless tc) as Htc by done;
        destruct o as [[pl|]| |e]; [by destruct (Hn2 pl)|done| |];
        [ rewrite (run_bind_exit _ _ _ _ _ (try_except_exit _ _ _ _ _ Ec))
            in Er;
          eapply (Hstop _ _ pre tc Hpre Htc); [done|not_cleared]
        | unfold Run.bind at 1 in Er;
          rewrite (try_except_raise _ _ _ _ _ _ Ec) in Er;
          unfold Onboard.log_handler in Er; rewrite run_bind_log_exit in Er;
          cbn [Run.after] in Er;
          eapply (Hstop _ _ pre _ Hpre
                    (harmless_app _ _ Htc
                       (harmless_log (Onboard.MsgNotCreated e) 3)));
          [done|not_cleared] ]).
  all: assert (Onboard.cleared cfg w sg region cidrs pllen) as Hclear
    by (unfold Onboard.cleared; fold name; rewrite Hgroups, Hparams;
        split_and!; eauto).
  all: cbv zeta in Hc.
  all: destruct (Onboard.create_managed_prefix_list w
                   (Onboard.create_request sg cidrs pllen))
    as [[pl|] wc] eqn:Ecreate.
  (* the creation raised *)
  2,4: (destruct Hc as (-> & -> & Cc & Ic);
        unfold Run.bind at 1 in Er;
        rewrite (try_except_raise _ _ _ _ _ _ Ec) in Er;
        unfold Onboard.log_handler in Er; rewrite run_bind_log_exit in Er;
        rewrite Er; cbn [Run.after fst snd];
        rewrite ?published_app, ?created_app, ?onboard_invoked_app,
          ?stored_app;
        split; [by rewrite Ppre, Pc|]; right;
        exists sg, region, cidrs, pllen;
        split; [done|]; split; [done|]; split; [done|]; split; [done|];
        cbv zeta; rewrite Ecreate;
        rewrite Cpre, Ipre, Spre, Cc, Ic, Sc; done).
  all: destruct Hc as (Cc & Hc).
  all: destruct (if (length cidrs <? 100)%nat then (Some 0, wc)
                 else Onboard.invoke wc (Onboard.batch_sync_function_name cfg)
                        (mapping sg pl region)) as [[resp|] wi] eqn:Einv.
  (* the invocation raised *)
  2,4: (destruct Hc as (-> & -> & Ic);
        unfold Run.bind at 1 in Er;
        rewrite (try_except_raise _ _ _ _ _ _ Ec) in Er;
        unfold Onboard.log_handler in Er; rewrite run_bind_log_exit in Er;
        rewrite Er; cbn [Run.after fst snd];
        rewrite ?published_app, ?created_app, ?onboard_invoked_app,
          ?stored_app;
        split; [by rewrite Ppre, Pc|]; right;
        exists sg, region, cidrs, pllen;
        split; [done|]; split; [done|]; split; [done|]; split; [done|];
        cbv zeta; rewrite Ecreate, Einv;
        rewrite Cpre, Ipre, Spre, Cc, Ic, Sc; done).
  (* the prefix list is there: the mapping is stored, or not *)
  all: destruct Hc as (-> & -> & Ic).
  all: rewrite (run_bind_ok _ _ _ _ _ _ (try_except_ok _ _ _ _ _ _ Ec)) in Er.
  all: pose proof (create_parameter_paths sg pl region wi)
    as (Pp & Cp & Ip & Hp);
    cbv zeta in Pp, Cp, Ip, Hp; fold name in Hp;
    destruct (Onboard.create_parameter cfg sg (Some pl) region wi)
      as [[o2 w3] tp] eqn:Ep; cbn [fst snd] in Pp, Cp, Ip, Hp.
  all: destruct (Onboard.put_parameter wi name pl) as [[[version|]|] wp]
    eqn:Eput; destruct Hp as (-> & -> & Sp);
    rewrite (run_bind_ok _ _ _ _ _ _ Ep) in Er;
    try destruct (version >? 0) eqn:Hv;
    unfold Onboard.log_handler in Er;
    rewrite ?run_bind_log, ?run_bind_log_exit in Er;
    rewrite Er; cbn [Run.after Run.ret fst snd];
    rewrite ?published_app, ?created_app, ?onboard_invoked_app, ?stored_app;
    (split; [by rewrite Ppre, Pc, Pp|]); right;
    exists sg, region, cidrs, pllen;
    (split; [done|]); (split; [done|]); (split; [done|]); (split; [done|]);
    cbv zeta; rewrite Ecreate, Einv; fold name; rewrite Eput, ?Hv;
    rewrite Cpre, Ipre, Spre, Cc, Ic, Sc, Cp, Ip, Sp;
    repeat split; try reflexivity;
    by destruct (length cidrs <? 100)%nat.
Qed.

(** A client that boto3 refuses to build ends the handler there: the two
    constructions of lines 395 and 398 stand outside every [try]. *)
Lemma onboard_refused_client (event : gmap string string) (w : W)
    (sg region : string) :
  event !! "sg" = Some sg -> event !! "region" = Some region ->
  ~ Onboard.clients_built w region ->
  (Onboard.lambda_handler cfg event w).1.1
    = Run.Raise Run.InvalidRegionError.
Proof.
  intros Hsg Hregion N. unfold Onboard.lambda_handler.
  rewrite (onboard_event_field_some _ _ _ _ _ _ _ Hsg).
  rewrite (onboard_event_field_some _ _ _ _ _ _ _ Hregion).
  rewrite boto3_client_bind.
  destruct (Onboard.new_client w "service-quotas" region) eqn:Hbuilt1;
    [|reflexivity].
  rewrite boto3_client_bind.
  destruct (Onboard.new_client w "ec2" region) eqn:Hbuilt2; [|reflexivity].
  by destruct N.
Qed.

(** X17: the onboarding handler ends in one of three ways, whatever the
    event and whatever the services answer: it returns the success message
    for the security group of the event, it ends the process, or the
    exception of a refused client construction escapes it.  The last happens
    exactly when the event holds both keys and boto3 refuses to build the
    Service Quotas or the EC2 client for the region of the event (lines 395
    and 398, outside every [try]); then no service was called: the world is
    as it was and nothing was written.  The handler never returns without a
    message, no other exception escapes it, and it never publishes to the
    topic: all of its alerts are log lines. *)
Theorem onboard_ends_three_ways (event : gmap string string) (w : W) :
  let r := Onboard.lambda_handler cfg event w in
  Run.published r.2 = [] /\
  (r.1.1 = Run.Exit \/
   (exists sg pl,
      event !! "sg" = Some sg /\
      r.1.1 = Run.Ok (Some (Onboard.MsgConfigured sg pl))) \/
   r.1.1 = Run.Raise Run.InvalidRegionError) /\
  (r.1.1 = Run.Raise Run.InvalidRegionError <->
   exists sg region,
     event !! "sg" = Some sg /\ event !! "region" = Some region /\
     ~ Onboard.clients_built w region) /\
  (r.1.1 = Run.Raise Run.InvalidRegionError ->
   r.1.2 = w /\ Forall (fun c => Onboard.writes c = false) (Run.calls r.2)).
Proof.
  cbv zeta.
  assert ((exists sg region,
             event !! "sg" = Some sg /\ event !! "region" = Some region /\
             ~ Onboard.clients_built w region) ->
          (Onboard.lambda_handler cfg event w).1.1
            = Run.Raise Run.InvalidRegionError) as Hback.
  { intros (sg & region & Hsg & Hregion & N).
    by apply (onboard_refused_client event w sg region). }
  destruct (onboard_paths event w) as [P [[(He & _)|B]|H]];
    (split; [exact P|]).
  - split; [by left|]. split; [|congruence].
    split; [congruence|exact Hback].
  - destruct B as (sg & region & Hsg & Hregion & N & He & Hw & F).
    split; [by right; right|]. split; [|done].
    split; [intros _; by exists sg, region|done].
  - destruct H as (sg & region & cidrs & pllen & Hsg & Hregion & _ & Hb & H).
    cbv zeta in H.
    assert ((Onboard.lambda_handler cfg event w).1.1
              <> Run.Raise Run.InvalidRegionError ->
            forall Q : Prop,
              ((Onboard.lambda_handler cfg event w).1.1
                 = Run.Raise Run.InvalidRegionError <->
               exists sg region,
                 event !! "sg" = Some sg /\ event !! "region" = Some region /\
                 ~ Onboard.clients_built w region) /\
              ((Onboard.lambda_handler cfg event w).1.1
                 = Run.Raise Run.InvalidRegionError -> Q)) as Hno.
    { intros Hne Q. split; [|done]. split; [done|].
      intros (sg' & region' & Hsg' & Hregion' & N).
      destruct N. congruence. }
    destruct (Onboard.create_managed_prefix_list w _) as [[pl|] w1].
    2: { destruct H as (He & _). split; [by left|]. apply Hno. congruence. }
    destruct H as [_ H].
    destruct (if (length cidrs <? 100)%nat then _ else _) as [[resp|] w2].
    2: { destruct H as (He & _). split; [by left|]. apply Hno. congruence. }
    destruct H as [_ H].
    destruct (Onboard.put_parameter w2 _ pl) as [[[version|]|] w3].
    2,3: (destruct H as (_ & _ & He); split; [by left|];
          apply Hno; congruence).
    destruct H as (_ & _ & He).
    destruct (version >? 0).
    + split; [right; left; by exists sg, pl|]. apply Hno. congruence.
    + split; [by left|]. apply Hno. congruence.
Qed.

(** X18: the handler creates, invokes and stores only once it is ready: a
    run that holds a call that writes had both keys in its event, had both
    clients built for the region, found the one security group, found no
    mapping for it (or could not look it up), read the addresses of the
    group and found the length required for them within the quota.  Without
    that the run ends the process, or the exception of the refused client
    construction escapes it, and either way the services are left as they
    were: nothing is created, invoked or stored. *)
Theorem onboard_writes_only_when_ready (event : gmap string string)
    (w : W) :
  let r := Onboard.lambda_handler cfg event w in
  let ready :=
    exists sg region cidrs pllen,
      event !! "sg" = Some sg /\ event !! "region" = Some region /\
      Onboard.clients_built w region /\
      Onboard.cleared cfg w sg region cidrs pllen in
  (Exists (fun c => Onboard.writes c = true) (Run.calls r.2) -> ready) /\
  (~ ready ->
   (r.1.1 = Run.Exit \/ r.1.1 = Run.Raise Run.InvalidRegionError) /\
   r.1.2 = w /\ Onboard.created r.2 = [] /\
   Onboard.invoked r.2 = [] /\ Onboard.stored r.2 = []).
Proof.
  cbv zeta.
  destruct (onboard_paths event w)
    as [P [[(He & Hw & F & N)|(? & ? & _ & _ & _ & He & Hw & F)]|H]].
  - split.
    + intros (c & Hc & Hwr)%Exists_exists.
      rewrite Forall_forall in F. specialize (F c Hc). congruence.
    + intros _. destruct (reads_only _ F) as (? & ? & ?).
      split; [by left|done].
  - split.
    + intros (c & Hc & Hwr)%Exists_exists.
      rewrite Forall_forall in F. specialize (F c Hc). congruence.
    + intros _. destruct (reads_only _ F) as (? & ? & ?).
      split; [by right|done].
  - destruct H as (sg & region & cidrs & pllen & Hsg & Hregion & Hc & Hb & _).
    split; [intros _|intros []]; by exists sg, region, cidrs, pllen.
Qed.

(** X19: a run that returns did every step, each once: the event held both
    keys and the checks passed; one prefix list was created, named after
    the security group, with the length required and with the addresses of
    the group as /32 entries when they are fewer than 100, and empty
    otherwise, in which case the reconciliation pass was invoked once, for
    the mapping of that list; and the mapping was stored once, under
    [path/sg/region] with the identifier of the list as its value, the
    store answering with a version above 0. *)
Theorem onboard_success_took_every_step (event : gmap string string) (w : W)
    (result : option Onboard.Message) :
  let r := Onboard.lambda_handler cfg event w in
  r.1.1 = Run.Ok result ->
  exists sg region cidrs pllen pl version w1 w2,
    let req := Onboard.create_request sg cidrs pllen in
    let name :=
      Onboard.parameter_name (Onboard.parameter_store_path cfg) sg region in
    let small := (length cidrs <? 100)%nat in
    event !! "sg" = Some sg /\ event !! "region" = Some region /\
    Onboard.cleared cfg w sg region cidrs pllen /\
    result = Some (Onboard.MsgConfigured sg pl) /\
    Onboard.create_managed_prefix_list w req = (Some pl, w1) /\
    (if small then w2 = w1
     else exists response,
            Onboard.invoke w1 (Onboard.batch_sync_function_name cfg)
              (mapping sg pl region) = (Some response, w2)) /\
    Onboard.put_parameter w2 name pl = (Some (Some version), r.1.2) /\
    0 < version /\
    Onboard.created r.2 = [(req, pl)] /\
    Onboard.invoked r.2 = (if small then [] else [mapping sg pl region]) /\
    Onboard.stored r.2 = [(name, pl)].
Proof.
  cbv zeta. intros Hok.
  destruct (onboard_paths event w)
    as [_ [[(He & _)|(? & ? & _ & _ & _ & He & _)]|H]];
    [congruence|congruence|].
  destruct H as (sg & region & cidrs & pllen & Hsg & Hregion & Hc & _ & H).
  cbv zeta in H.
  destruct (Onboard.create_managed_prefix_list w _) as [[pl|] w1] eqn:Ecreate;
    [|destruct H; congruence].
  destruct H as [Hcreated H].
  destruct (if (length cidrs <? 100)%nat then _ else _) as [[resp|] w2]
    eqn:Einv; [|destruct H; congruence].
  destruct H as [Hinvoked H].
  destruct (Onboard.put_parameter w2 _ pl) as [[[version|]|] w3] eqn:Eput;
    try (destruct H as (? & ? & ?); congruence).
  destruct H as (Hw & Hstored & Hr).
  destruct (Z.gtb_spec version 0); [|congruence].
  exists sg, region, cidrs, pllen, pl, version, w1, w2. cbv zeta.
  rewrite Hw. split_and!; try done; [congruence|].
  destruct (length cidrs <? 100)%nat; [congruence|by exists resp].
Qed.

(** X20: nothing undoes a creation.  Once the handler is ready and the
    prefix list is created (and, for 100 addresses or more, the pass
    invoked), a [put_parameter] call that raises, answers without a version
    or with a version that is not above 0 ends the process: the list stays
    created and the run reports no success.  The mapping is absent only
    when the call raised; a call that answered, without a version or with
    one that is not above 0, was accepted, and the mapping is stored under
    [path/sg/region] although the run ends the process. *)
Theorem onboard_creation_is_not_undone (event : gmap string string) (w : W)
    (sg region : string) (cidrs : list string) (pllen : Z) (pl : string)
    (w1 w2 w3 : W) (response : Z) (answer : option (option Z)) :
  let r := Onboard.lambda_handler cfg event w in
  let req := Onboard.create_request sg cidrs pllen in
  let name :=
    Onboard.parameter_name (Onboard.parameter_store_path cfg) sg region in
  event !! "sg" = Some sg -> event !! "region" = Some region ->
  Onboard.clients_built w region ->
  Onboard.cleared cfg w sg region cidrs pllen ->
  Onboard.create_managed_prefix_list w req = (Some pl, w1) ->
  (if (length cidrs <? 100)%nat then (Some 0, w1)
   else Onboard.invoke w1 (Onboard.batch_sync_function_name cfg)
          (mapping sg pl region)) = (Some response, w2) ->
  Onboard.put_parameter w2 name pl = (answer, w3) ->
  (forall version, answer = Some (Some version) -> version <= 0) ->
  r.1.1 = Run.Exit /\ r.1.2 = w3 /\ Onboard.created r.2 = [(req, pl)] /\
  Onboard.invoked r.2
    = (if (length cidrs <? 100)%nat then [] else [mapping sg pl region]) /\
  Onboard.stored r.2
    = match answer with Some _ => [(name, pl)] | None => [] end /\
  Run.published r.2 = [].
Proof.
  cbv zeta. intros Hsg Hregion Hb Hc Ecreate Einv Eput Hbad.
  destruct (onboard_paths event w)
    as [P [[(_ & _ & _ & N)|(? & ? & ? & ? & N & _)]|H]].
  { destruct N. by exists sg, region, cidrs, pllen. }
  { destruct N. congruence. }
  destruct H
    as (sg' & region' & cidrs' & pllen' & Hsg' & Hregion' & Hc' & _ & H).
  assert (sg' = sg) as -> by congruence.
  assert (region' = region) as -> by congruence.
  assert (cidrs' = cidrs) as ->.
  { destruct Hc as (_ & _ & Hd & _), Hc' as (_ & _ & Hd' & _). congruence. }
  assert (pllen' = pllen) as ->.
  { destruct Hc as (_ & _ & _ & Hl & _), Hc' as (_ & _ & _ & Hl' & _).
    congruence. }
  cbv zeta in H. rewrite Ecreate, Einv, Eput in H.
  destruct H as (Hcreated & Hinvoked & H).
  destruct answer as [[version|]|].
  - destruct H as (-> & -> & ->). specialize (Hbad version eq_refl).
    destruct (Z.gtb_spec version 0); [lia|done].
  - by destruct H as (-> & -> & ->).
  - by destruct H as (-> & -> & ->).
Qed.

End OnboardRuns.

Lemma onboard_ends_three_ways_witness :
  let r :=
    Onboard.lambda_handler OnboardSim.cfg OnboardSim.misspelt
      OnboardSim.fresh in
  r.1.1 = Run.Raise Run.InvalidRegionError /\ r.1.2 = OnboardSim.fresh /\
  Forall (fun c => Onboard.writes c = false) (Run.calls r.2).
Proof.
  cbv zeta.
  destruct (onboard_ends_three_ways OnboardSim.cfg OnboardSim.misspelt
              OnboardSim.fresh) as (_ & _ & [_ Hraise] & Hthen).
  assert ((Onboard.lambda_handler OnboardSim.cfg OnboardSim.misspelt
             OnboardSim.fresh).1.1 = Run.Raise Run.InvalidRegionError) as He.
  { apply Hraise. exists "sg-1", "not a region".
    split; [reflexivity|]. split; [reflexivity|].
    intros [Hq _]. vm_compute in Hq. discriminate. }
  split; [exact He|]. exact (Hthen He).
Defined.

Lemma onboard_writes_only_when_ready_witness :
  let r :=
    Onboard.lambda_handler OnboardSim.cfg OnboardSim.request
      OnboardSim.mapped in
  r.1.1 = Run.Exit /\ r.1.2 = OnboardSim.mapped /\
  Onboard.created r.2 = [] /\ Onboard.invoked r.2 = [] /\
  Onboard.stored r.2 = [].
Proof.
  cbv zeta.
  destruct (onboard_writes_only_when_ready OnboardSim.cfg OnboardSim.request
              OnboardSim.mapped) as [_ H].
  destruct H as ([He|He] & H).
  - intros (sg & region & cidrs & pllen & Hsg & Hregion & _ & _ & Hfree & _).
    injection Hsg as <-. injection Hregion as <-.
    destruct Hfree as [Hfree|Hfree]; vm_compute in Hfree; discriminate.
  - split; [exact He|exact H].
  - vm_compute in He. discriminate.
Defined.

Lemma onboard_success_took_every_step_witness :
  let r :=
    Onboard.lambda_handler OnboardSim.cfg OnboardSim.request
      OnboardSim.large in
  r.1.1 = Run.Ok (Some (Onboard.MsgConfigured "sg-1" "pl-1")) /\
  Onboard.invoked r.2 = [mapping "sg-1" "pl-1" "eu-west-1"] /\
  Onboard.stored r.2 = [("/AutoSG2PL/sg-1/eu-west-1", "pl-1")].
Proof.
  cbv zeta.
  assert ((Onboard.lambda_handler OnboardSim.cfg OnboardSim.request
             OnboardSim.large).1.1
          = Run.Ok (Some (Onboard.MsgConfigured "sg-1" "pl-1"))) as Hok
    by (by vm_compute).
  destruct (onboard_success_took_every_step OnboardSim.cfg OnboardSim.request
              OnboardSim.large _ Hok)
    as (sg & region & cidrs & pllen & pl & version & w1 & w2 & Hsg & Hregion
        & Hc & Hres & _ & _ & _ & _ & _ & Hinv & Hst).
  injection Hsg as <-. injection Hregion as <-. injection Hres as <-.
  destruct Hc as (_ & _ & Hd & _). injection Hd as <-.
  split; [exact Hok|]. split; [exact Hinv|exact Hst].
Defined.

Lemma onboard_creation_is_not_undone_witness :
  let r :=
    Onboard.lambda_handler OnboardSim.cfg OnboardSim.request
      OnboardSim.unreachable in
  r.1.1 = Run.Exit /\
  Onboard.created r.2 =
    [(Onboard.create_request "sg-1" (Sim.addresses 3) 8, "pl-1")] /\
  Onboard.stored r.2 = [] /\
  OnboardSim.lists r.1.2 = [Onboard.create_request "sg-1" (Sim.addresses 3) 8]
  /\ OnboardSim.parameters r.1.2 = [].
Proof.
  cbv zeta.
  destruct (onboard_creation_is_not_undone OnboardSim.cfg OnboardSim.request
              OnboardSim.unreachable "sg-1" "eu-west-1" (Sim.addresses 3) 8
              "pl-1"
              (OnboardSim.create OnboardSim.unreachable
                 (Onboard.create_request "sg-1" (Sim.addresses 3) 8)).2
              (OnboardSim.create OnboardSim.unreachable
                 (Onboard.create_request "sg-1" (Sim.addresses 3) 8)).2
              (OnboardSim.create OnboardSim.unreachable
                 (Onboard.create_request "sg-1" (Sim.addresses 3) 8)).2
              0 None)
    as (He & Hw & Hcreated & _ & Hstored & _).
  - reflexivity.
  - reflexivity.
  - split; reflexivity.
  - split; [by exists "sg-1"|]. split; [by left|]. split; [reflexivity|].
    split; [by vm_compute|]. exists 1000. split; [reflexivity|lia].
  - reflexivity.
  - reflexivity.
  - reflexivity.
  - intros version [=].
  - split; [exact He|]. split; [exact Hcreated|]. split; [exact Hstored|].
    rewrite Hw. by vm_compute.
Defined.
